(** * AutoIngest: a shallow embedding of [auto_ingest.py]

    The add-on batch-imports OBJ files into a Blender scene.  This file
    embeds its helpers (geometry, scale matching, materials, collections
    and visibility), the per-file pipeline [process_single_obj] and the
    modal operator [AUTOINGEST_OT_Import] (invoke / modal / _finish), and
    proves properties of them.

    Modelling conventions.
    - Python floats are idealised as exact rationals ([Q], compared with
      [==]); no rounding is modelled.
    - Python ints are [Z]; strings are [string]; Python lists are [list].
    - [bpy] is the host.  Its data blocks are modelled as plain values kept
      in a [State] record; objects are addressed by an identifier, so that
      two handles to the same object alias.  Properties that the host
      derives ([matrix_world], [bound_box], [users_collection]) are
      functions of the stored data, i.e. always up to date.
    - Exceptions are values of an error monad with state ([M]); the state
      reached at the raise point is kept, as in Python. *)

From Stdlib Require Import List String Ascii ZArith QArith Qminmax Qabs.
From Stdlib Require Import Lia Lqa Bool DecimalString.
From Stdlib Require Import Permutation Sorted.
Import ListNotations.

#[local] Set Warnings "-register-all".

Local Open Scope Q_scope.

(** ** Vectors and matrices ([mathutils]) *)

Record Vector := mkVector { vx : Q; vy : Q; vz : Q }.

Definition Vector0 : Vector := mkVector 0 0 0.

(** [v[i]] for [i] in [range(3)]. *)
Definition vget (v : Vector) (i : nat) : Q :=
  match i with
  | O => vx v
  | S O => vy v
  | _ => vz v
  end.

Definition vadd (a b : Vector) : Vector :=
  mkVector (vx a + vx b) (vy a + vy b) (vz a + vz b).

Definition vsub (a b : Vector) : Vector :=
  mkVector (vx a - vx b) (vy a - vy b) (vz a - vz b).

(** [v * k] and [v / k] for a scalar [k]. *)
Definition vscale (v : Vector) (k : Q) : Vector :=
  mkVector (vx v * k) (vy v * k) (vz v * k).

Definition vdiv (v : Vector) (k : Q) : Vector :=
  mkVector (vx v / k) (vy v / k) (vz v / k).

Definition vdot (a b : Vector) : Q :=
  vx a * vx b + vy a * vy b + vz a * vz b.

(** Component-wise equality of vectors up to [==] on rationals. *)
Definition veq (a b : Vector) : Prop :=
  vx a == vx b /\ vy a == vy b /\ vz a == vz b.

Definition veqb (a b : Vector) : bool :=
  Qeq_bool (vx a) (vx b) && Qeq_bool (vy a) (vy b) && Qeq_bool (vz a) (vz b).

(** A 3x3 matrix, by rows. *)
Record Matrix3 := mkMatrix3 { row0 : Vector; row1 : Vector; row2 : Vector }.

Definition Identity3 : Matrix3 :=
  mkMatrix3 (mkVector 1 0 0) (mkVector 0 1 0) (mkVector 0 0 1).

Definition col (m : Matrix3) (i : nat) : Vector :=
  mkVector (vget (row0 m) i) (vget (row1 m) i) (vget (row2 m) i).

Definition m3_apply (m : Matrix3) (v : Vector) : Vector :=
  mkVector (vdot (row0 m) v) (vdot (row1 m) v) (vdot (row2 m) v).

Definition m3_mul (a b : Matrix3) : Matrix3 :=
  let r := fun ra => mkVector (vdot ra (col b 0)) (vdot ra (col b 1)) (vdot ra (col b 2)) in
  mkMatrix3 (r (row0 a)) (r (row1 a)) (r (row2 a)).

Definition m3_diag (s : Vector) : Matrix3 :=
  mkMatrix3 (mkVector (vx s) 0 0) (mkVector 0 (vy s) 0) (mkVector 0 0 (vz s)).

(** A 4x4 transform whose last row is (0,0,0,1): a linear part and a
    translation.  [mat_apply m v] is [m @ v], [mat_mul a b] is [a @ b]. *)
Record Matrix := mkMatrix { linear : Matrix3; translation : Vector }.

Definition Identity4 : Matrix := mkMatrix Identity3 Vector0.

Definition mat_apply (m : Matrix) (v : Vector) : Vector :=
  vadd (m3_apply (linear m) v) (translation m).

Definition mat_mul (a b : Matrix) : Matrix :=
  mkMatrix (m3_mul (linear a) (linear b)) (mat_apply a (translation b)).

(** ** Python's [min] and [max] over a sequence of numbers *)

Definition Qltb (a b : Q) : bool := negb (Qle_bool b a).

(** [min(xs)]: the first smallest element (0 stands for the [ValueError]
    on an empty sequence, which the eight-corner lists never trigger). *)
Definition py_min (xs : list Q) : Q :=
  match xs with
  | [] => 0
  | x :: r => fold_left (fun best y => if Qltb y best then y else best) r x
  end.

Definition py_max (xs : list Q) : Q :=
  match xs with
  | [] => 0
  | x :: r => fold_left (fun best y => if Qltb best y then y else best) r x
  end.

(** [xs.index(m)]: position of the first element equal to [m]. *)
Fixpoint py_index (xs : list Q) (m : Q) : nat :=
  match xs with
  | [] => O
  | x :: r => if Qeq_bool x m then O else S (py_index r m)
  end.

(** ** Materials and shader node trees *)

(** An input socket: its name, the output socket linked into it (a socket
    takes at most one link) and its default value. *)
Record Socket := mkSocket {
  sock_name : string;
  sock_link : option string;
  default_value : Q
}.

Record Node := mkNode { node_type : string; inputs : list Socket }.

Record Material := mkMaterial { mat_name : string; node_tree : option (list Node) }.

(** ** Objects *)

Inductive ObData :=
| NoData
| MeshData (vertices : list Vector)
| CurveData (lo hi : Vector).

Inductive ObType := MESH | EMPTY | CURVE.

Definition ObType_eqb (a b : ObType) : bool :=
  match a, b with
  | MESH, MESH | EMPTY, EMPTY | CURVE, CURVE => true
  | _, _ => false
  end.

Definition ObjId := nat.

Record Object := mkObject {
  ob_id : ObjId;
  ob_name : string;
  data : ObData;
  location : Vector;
  rotation : Matrix3;
  scale : Vector;
  parent : option ObjId;
  parent_world : Matrix;
  matrix_parent_inverse : Matrix;
  empty_display_type : string;
  material_slots : list (option Material)
}.

Definition set_data (o : Object) (d : ObData) : Object :=
  mkObject (ob_id o) (ob_name o) d (location o) (rotation o) (scale o) (parent o)
    (parent_world o) (matrix_parent_inverse o) (empty_display_type o) (material_slots o).

Definition set_location (o : Object) (l : Vector) : Object :=
  mkObject (ob_id o) (ob_name o) (data o) l (rotation o) (scale o) (parent o)
    (parent_world o) (matrix_parent_inverse o) (empty_display_type o) (material_slots o).

Definition set_scale (o : Object) (s : Vector) : Object :=
  mkObject (ob_id o) (ob_name o) (data o) (location o) (rotation o) s (parent o)
    (parent_world o) (matrix_parent_inverse o) (empty_display_type o) (material_slots o).

Definition set_material_slots (o : Object) (ms : list (option Material)) : Object :=
  mkObject (ob_id o) (ob_name o) (data o) (location o) (rotation o) (scale o) (parent o)
    (parent_world o) (matrix_parent_inverse o) (empty_display_type o) ms.

Definition set_empty_display_type (o : Object) (t : string) : Object :=
  mkObject (ob_id o) (ob_name o) (data o) (location o) (rotation o) (scale o) (parent o)
    (parent_world o) (matrix_parent_inverse o) t (material_slots o).

(** [obj.type], which the host derives from the kind of [obj.data]. *)
Definition ob_type (o : Object) : ObType :=
  match data o with
  | NoData => EMPTY
  | MeshData _ => MESH
  | CurveData _ _ => CURVE
  end.

(** The object's own transform: translation, rotation, scale. *)
Definition matrix_basis (o : Object) : Matrix :=
  mkMatrix (m3_mul (rotation o) (m3_diag (scale o))) (location o).

(** [obj.matrix_world]: for a parented object the parent's world matrix
    ([parent_world], as the host last evaluated it) times the parent
    inverse times the object's own transform. *)
Definition matrix_world (o : Object) : Matrix :=
  match parent o with
  | None => matrix_basis o
  | Some _ => mat_mul (mat_mul (parent_world o) (matrix_parent_inverse o)) (matrix_basis o)
  end.

(** Axis-aligned bounds of a vertex list, in local coordinates. *)
Definition bounds_of (vs : list Vector) : Vector * Vector :=
  match vs with
  | [] => (Vector0, Vector0)
  | _ =>
      (mkVector (py_min (map vx vs)) (py_min (map vy vs)) (py_min (map vz vs)),
       mkVector (py_max (map vx vs)) (py_max (map vy vs)) (py_max (map vz vs)))
  end.

Definition bounds (o : Object) : Vector * Vector :=
  match data o with
  | NoData => (Vector0, Vector0)
  | MeshData vs => bounds_of vs
  | CurveData lo hi => (lo, hi)
  end.

(** The eight corners of a box, in the host's corner order. *)
Definition box_corners (b : Vector * Vector) : list Vector :=
  let (lo, hi) := b in
  [ mkVector (vx lo) (vy lo) (vz lo); mkVector (vx lo) (vy lo) (vz hi);
    mkVector (vx lo) (vy hi) (vz hi); mkVector (vx lo) (vy hi) (vz lo);
    mkVector (vx hi) (vy lo) (vz lo); mkVector (vx hi) (vy lo) (vz hi);
    mkVector (vx hi) (vy hi) (vz hi); mkVector (vx hi) (vy hi) (vz lo) ].

(** [obj.bound_box]. *)
Definition bound_box (o : Object) : list Vector := box_corners (bounds o).

(** ** Helpers: geometry and scale *)

(** [get_longest_axis_size(obj)]: world-space size along the longest axis
    and that axis' index. *)
Definition get_longest_axis_size (obj : Object) : Q * nat :=
  let bbox_world := map (mat_apply (matrix_world obj)) (bound_box obj) in
  let mins := fun i => py_min (map (fun v => vget v i) bbox_world) in
  let maxs := fun i => py_max (map (fun v => vget v i) bbox_world) in
  let dims := mkVector (maxs 0%nat - mins 0%nat) (maxs 1%nat - mins 1%nat)
                       (maxs 2%nat - mins 2%nat) in
  let dl := [vx dims; vy dims; vz dims] in
  let axis := py_index dl (py_max dl) in
  (vget dims axis, axis).

(** [set_origin_to_geometry(obj)]. *)
Definition set_origin_to_geometry (obj : Object) : Object :=
  match data obj with
  | MeshData vertices =>
      match vertices with
      | [] => obj
      | _ =>
          let bbox_local := bound_box obj in
          let center_local :=
            vdiv (fold_left vadd bbox_local Vector0) (8 # 1) in
          let shifted := map (fun co => vsub co center_local) vertices in
          let obj1 := set_data obj (MeshData shifted) in
          set_location obj1 (mat_apply (matrix_world obj1) center_local)
      end
  | _ => obj
  end.

(** The body of the loop of [apply_scale_reference] for one target. *)
Definition scale_to_reference (ref_size : Q) (apply_scale : bool) (obj : Object)
  : Object :=
  let obj_size := fst (get_longest_axis_size obj) in
  if Qeq_bool obj_size 0 then obj
  else
    let factor := ref_size / obj_size in
    let obj1 := set_scale obj (vscale (scale obj) factor) in
    match data obj1 with
    | MeshData vertices =>
        if apply_scale then
          let s := scale obj1 in
          let baked :=
            map (fun co => mkVector (vx co * vx s) (vy co * vy s) (vz co * vz s))
                vertices in
          set_scale (set_data obj1 (MeshData baked)) (mkVector 1 1 1)
        else obj1
    | _ => obj1
    end.

(** ** Helpers: materials *)

Local Open Scope string_scope.
Local Open Scope list_scope.

(** [inputs.get(name)]: the first socket of that name, if any. *)
Definition inputs_get (ins : list Socket) (name : string) : option Socket :=
  find (fun s => sock_name s =? name) ins.

(** Update the first socket named [name]. *)
Fixpoint inputs_update (ins : list Socket) (name : string) (f : Socket -> Socket)
  : list Socket :=
  match ins with
  | [] => []
  | s :: r => if sock_name s =? name then f s :: r else s :: inputs_update r name f
  end.

(** The body of the innermost loop of [apply_diffuse_as_emissive]: one node
    of a material's tree. *)
Definition rewire_principled (n : Node) : Node :=
  if node_type n =? "BSDF_PRINCIPLED" then
    match inputs_get (inputs n) "Base Color" with
    | None => n
    | Some base_color_in =>
        match sock_link base_color_in with
        | None => n
        | Some from_socket =>
            let emission_in :=
              match inputs_get (inputs n) "Emission Color" with
              | Some s => Some s
              | None => inputs_get (inputs n) "Emission"
              end in
            match emission_in with
            | None => n
            | Some e =>
                let linked :=
                  inputs_update (inputs n) (sock_name e)
                    (fun s => mkSocket (sock_name s) (Some from_socket) (default_value s)) in
                let strong :=
                  inputs_update linked "Emission Strength"
                    (fun s => mkSocket (sock_name s) (sock_link s) 1%Q) in
                mkNode (node_type n) strong
            end
        end
    end
  else n.

Definition rewire_slot (slot : option Material) : option Material :=
  match slot with
  | None => None
  | Some mat =>
      match node_tree mat with
      | None => Some mat
      | Some nodes => Some (mkMaterial (mat_name mat) (Some (map rewire_principled nodes)))
      end
  end.

(** The body of the outer loop of [apply_diffuse_as_emissive]: one object. *)
Definition diffuse_as_emissive_object (obj : Object) : Object :=
  if ObType_eqb (ob_type obj) MESH
  then set_material_slots obj (map rewire_slot (material_slots obj))
  else obj.

(** ** Paths ([pathlib.Path]) *)

Record Path := mkPath { parts : list string }.

(** [path.name]: the final component. *)
Definition path_name (p : Path) : string := last (parts p) "".

(** Offset of the last ['.'] counted from the end of the string. *)
Fixpoint dot_from_end (rev_chars : list ascii) : option nat :=
  match rev_chars with
  | [] => None
  | c :: r =>
      if Ascii.eqb c "."%char then Some O
      else match dot_from_end r with
           | Some k => Some (S k)
           | None => None
           end
  end.

(** [path.stem]: the final component without its last suffix; a name whose
    only dot is leading or trailing has no suffix. *)
Definition path_stem (p : Path) : string :=
  let name := path_name p in
  let n := String.length name in
  match dot_from_end (rev (list_ascii_of_string name)) with
  | None => name
  | Some k =>
      let i := (n - 1 - k)%nat in
      if (Nat.ltb 0 i && Nat.ltb i (n - 1))%bool then substring 0 i name else name
  end.

(** Order of paths: lexicographic on the components. *)
Fixpoint parts_leb (a b : list string) : bool :=
  match a, b with
  | [], _ => true
  | _ :: _, [] => false
  | x :: a', y :: b' =>
      match String.compare x y with
      | Lt => true
      | Gt => false
      | Eq => parts_leb a' b'
      end
  end.

Fixpoint insert_path (p : Path) (l : list Path) : list Path :=
  match l with
  | [] => [p]
  | q :: r => if parts_leb (parts p) (parts q) then p :: l else q :: insert_path p r
  end.

(** [sorted(paths)]. *)
Definition sorted (l : list Path) : list Path := fold_right insert_path [] l.

(** ** Collections and the view layer *)

(** A collection together with its layer collection in the active view
    layer: name, [exclude] flag, directly contained objects, children.
    The root is the scene collection; it is not in [bpy.data.collections]. *)
Inductive LayerCollection :=
| LayerColl (name : string) (exclude : bool) (objs : list ObjId)
            (children : list LayerCollection).

Definition lc_name (c : LayerCollection) : string :=
  match c with LayerColl n _ _ _ => n end.

Definition lc_exclude (c : LayerCollection) : bool :=
  match c with LayerColl _ e _ _ => e end.

Definition lc_objects (c : LayerCollection) : list ObjId :=
  match c with LayerColl _ _ o _ => o end.

Definition lc_children (c : LayerCollection) : list LayerCollection :=
  match c with LayerColl _ _ _ ch => ch end.

(** Every (name, exclude) pair of a tree, in depth-first order. *)
Fixpoint lc_flags (c : LayerCollection) : list (string * bool) :=
  match c with
  | LayerColl n e _ ch => (n, e) :: flat_map lc_flags ch
  end.

Definition forest_flags (f : list LayerCollection) : list (string * bool) :=
  flat_map lc_flags f.

(** Remove every collection named [n] below the given node. *)
Fixpoint lc_prune (n : string) (c : LayerCollection) : LayerCollection :=
  match c with
  | LayerColl m e o ch =>
      LayerColl m e o
        (filter (fun k => negb (lc_name k =? n)) (map (lc_prune n) ch))
  end.

Definition forest_prune (n : string) (f : list LayerCollection) : list LayerCollection :=
  filter (fun k => negb (lc_name k =? n)) (map (lc_prune n) f).

(** Apply [f] to the object list of every node satisfying [p]. *)
Fixpoint lc_map_objects (p : string -> bool) (f : list ObjId -> list ObjId)
  (c : LayerCollection) : LayerCollection :=
  match c with
  | LayerColl m e o ch =>
      LayerColl m e (if p m then f o else o) (map (lc_map_objects p f) ch)
  end.

(** First node named [n] of a forest, depth first. *)
Fixpoint lc_lookup (n : string) (c : LayerCollection) : option LayerCollection :=
  match c with
  | LayerColl m _ _ ch =>
      if m =? n then Some c
      else
        (fix loop (l : list LayerCollection) : option LayerCollection :=
           match l with
           | [] => None
           | k :: r =>
               match lc_lookup n k with
               | Some x => Some x
               | None => loop r
               end
           end) ch
  end.

Fixpoint forest_lookup (n : string) (f : list LayerCollection) : option LayerCollection :=
  match f with
  | [] => None
  | k :: r =>
      match lc_lookup n k with
      | Some x => Some x
      | None => forest_lookup n r
      end
  end.

(** [bpy.data]: the objects, the scene's collection tree with its layer
    flags, and the collections that are not linked into the scene. *)
Record BlendData := mkBlendData {
  objects : list Object;
  next_id : ObjId;
  layer_collection : LayerCollection;
  unlinked : list LayerCollection
}.

(** The names in [bpy.data.collections]. *)
Definition collection_names (d : BlendData) : list string :=
  map fst (forest_flags (lc_children (layer_collection d)))
  ++ map fst (forest_flags (unlinked d)).

(** [name in bpy.data.collections]. *)
Definition in_collections (n : string) (d : BlendData) : bool :=
  existsb (String.eqb n) (collection_names d).

(** [bpy.data.collections[name]]. *)
Definition collections_get (n : string) (d : BlendData) : option LayerCollection :=
  match forest_lookup n (lc_children (layer_collection d)) with
  | Some c => Some c
  | None => forest_lookup n (unlinked d)
  end.

(** [bpy.data.collections.remove(col)], [col] being named [n]. *)
Definition collections_remove (n : string) (d : BlendData) : BlendData :=
  mkBlendData (objects d) (next_id d)
    (lc_prune n (layer_collection d))
    (forest_prune n (unlinked d)).

Definition remove_id (i : ObjId) (l : list ObjId) : list ObjId :=
  filter (fun j => negb (Nat.eqb j i)) l.

(** Unlink object [i] from every collection. *)
Definition unlink_everywhere (i : ObjId) (d : BlendData) : BlendData :=
  mkBlendData (objects d) (next_id d)
    (lc_map_objects (fun _ => true) (remove_id i) (layer_collection d))
    (map (lc_map_objects (fun _ => true) (remove_id i)) (unlinked d)).

(** [bpy.data.objects.remove(obj, do_unlink=True)]. *)
Definition objects_remove (i : ObjId) (d : BlendData) : BlendData :=
  let d1 := unlink_everywhere i d in
  mkBlendData (filter (fun o => negb (Nat.eqb (ob_id o) i)) (objects d1)) (next_id d1)
    (layer_collection d1) (unlinked d1).

(** [bpy.data.objects.new(name, None)]: a fresh empty at the origin. *)
Definition objects_new (n : string) (d : BlendData) : ObjId * BlendData :=
  let o := mkObject (next_id d) n NoData Vector0 Identity3 (mkVector 1 1 1) None
             Identity4 Identity4 "PLAIN_AXES" [] in
  (next_id d,
   mkBlendData (objects d ++ [o]) (S (next_id d)) (layer_collection d) (unlinked d)).

(** [bpy.context.scene.collection.objects.link(obj)]. *)
Definition scene_objects_link (i : ObjId) (d : BlendData) : BlendData :=
  match layer_collection d with
  | LayerColl n e o ch =>
      mkBlendData (objects d) (next_id d) (LayerColl n e (o ++ [i]) ch) (unlinked d)
  end.

(** [col.objects.link(obj)] for the collection named [n]. *)
Definition collection_objects_link (n : string) (i : ObjId) (d : BlendData) : BlendData :=
  match layer_collection d with
  | LayerColl rn e o ch =>
      mkBlendData (objects d) (next_id d)
        (LayerColl rn e o
           (map (lc_map_objects (String.eqb n) (fun l => l ++ [i])) ch))
        (map (lc_map_objects (String.eqb n) (fun l => l ++ [i])) (unlinked d))
  end.

(** [bpy.data.collections.new(name)]: a new collection, linked nowhere.
    The name is used as given: the pipeline only passes names that
    [bpy.data.collections] does not hold. *)
Definition collections_new (n : string) (d : BlendData) : BlendData :=
  mkBlendData (objects d) (next_id d) (layer_collection d)
    (unlinked d ++ [LayerColl n false [] []]).

(** [bpy.context.scene.collection.children.link(col)]: the collection
    named [n] leaves the unlinked ones and becomes the last child of the
    scene collection; its layer collection starts not excluded. *)
Definition scene_children_link (n : string) (d : BlendData) : BlendData :=
  match forest_lookup n (unlinked d), layer_collection d with
  | Some (LayerColl m _ o ch), LayerColl rn e ro rch =>
      mkBlendData (objects d) (next_id d)
        (LayerColl rn e ro (rch ++ [LayerColl m false o ch]))
        (forest_prune n (unlinked d))
  | None, _ => d
  end.

(** Look an object up by its handle; update it in place. *)
Definition objects_get (i : ObjId) (d : BlendData) : option Object :=
  find (fun o => Nat.eqb (ob_id o) i) (objects d).

Definition objects_set (i : ObjId) (o' : Object) (d : BlendData) : BlendData :=
  mkBlendData (map (fun o => if Nat.eqb (ob_id o) i then o' else o) (objects d))
    (next_id d) (layer_collection d) (unlinked d).

(** ** A state-and-exception monad *)

Inductive Result (A : Type) :=
| Ok (a : A)
| Raise (exc : string).

Arguments Ok {A} a.
Arguments Raise {A} exc.

Definition M (S A : Type) : Type := S -> Result A * S.

Definition ret {S A} (a : A) : M S A := fun s => (Ok a, s).

Definition bind {S A B} (c : M S A) (k : A -> M S B) : M S B :=
  fun s =>
    match c s with
    | (Ok a, s') => k a s'
    | (Raise e, s') => (Raise e, s')
    end.

Definition raise {S A} (e : string) : M S A := fun s => (Raise e, s).

Definition gets {S A} (f : S -> A) : M S A := fun s => (Ok (f s), s).

Definition modify {S} (f : S -> S) : M S unit := fun s => (Ok tt, f s).

Declare Scope monad_scope.
Delimit Scope monad_scope with monad.

Notation "x <- c ;; k" := (bind c (fun x => k))
  (at level 100, c at next level, right associativity) : monad_scope.

Notation "c ;;; k" := (bind c (fun _ => k))
  (at level 100, right associativity) : monad_scope.

Local Open Scope monad_scope.

(** [for x in xs: body(x)]. *)
Fixpoint for_each {S A} (xs : list A) (body : A -> M S unit) : M S unit :=
  match xs with
  | [] => ret tt
  | x :: r => body x ;;; for_each r body
  end.

(** [try: c  except Exception as e: handler(e)]. *)
Definition try_except {S A} (c : M S A) (handler : string -> M S A) : M S A :=
  fun s =>
    match c s with
    | (Ok a, s') => (Ok a, s')
    | (Raise e, s') => handler e s'
    end.

(** Read or write through a handle to an object of [bpy.data.objects]; a
    handle whose object has been removed raises [ReferenceError]. *)
Definition ReferenceError : string := "StructRNA of type Object has been removed".

Definition deref (i : ObjId) : M BlendData Object :=
  fun d =>
    match objects_get i d with
    | Some o => (Ok o, d)
    | None => (Raise ReferenceError, d)
    end.

Definition with_object (i : ObjId) (f : Object -> Object) : M BlendData unit :=
  o <- deref i ;; modify (objects_set i (f o)).

(** ** The host functions the add-on calls *)

(** The identifiers of [AXIS_ITEMS]. *)
Inductive Axis :=
| AXIS_X | AXIS_Y | AXIS_Z | AXIS_NEGATIVE_X | AXIS_NEGATIVE_Y | AXIS_NEGATIVE_Z.

(** What [bpy.ops.wm.obj_import] does with a file: it raises, or it adds
    objects to [bpy.data.objects]. *)
Inductive ImportOutcome :=
| ImportRaises (msg : string)
| Imports (new_objects : list Object).

Record Host := mkHost {
  (** [os.path.isdir] *)
  isdir : string -> bool;
  (** [Path(root).rglob("*.obj")], in the order the file system yields *)
  rglob_obj : string -> list Path;
  (** the OBJ importer *)
  obj_import : Path -> Axis -> ImportOutcome;
  (** [int(((i + 1) / n) * 100)] in double-precision floats, given [i + 1]
      and [n] *)
  float_percent : Z -> Z -> Z
}.

(** The importer gives each new object a fresh handle and links it into
    the scene collection. *)
Fixpoint add_imported (os : list Object) (d : BlendData) : BlendData :=
  match os with
  | [] => d
  | o :: r =>
      let o' := mkObject (next_id d) (ob_name o) (data o) (location o) (rotation o)
                  (scale o) (parent o) (parent_world o) (matrix_parent_inverse o)
                  (empty_display_type o) (material_slots o) in
      add_imported r
        (scene_objects_link (next_id d)
           (mkBlendData (objects d ++ [o']) (S (next_id d)) (layer_collection d)
              (unlinked d)))
  end.

Section Pipeline.

Variable host : Host.

(** [collect_obj_files(root)]. *)
Definition collect_obj_files (root : string) : list Path :=
  sorted (rglob_obj host root).

(** [apply_scale_reference(objects, ref_obj, apply_scale)]. *)
Definition apply_scale_reference (objs : list ObjId) (ref_obj : ObjId)
  (apply_scale : bool) : M BlendData unit :=
  ref <- deref ref_obj ;;
  let ref_size := fst (get_longest_axis_size ref) in
  if Qeq_bool ref_size 0 then ret tt
  else for_each objs (fun obj => with_object obj (scale_to_reference ref_size apply_scale)).

(** [apply_diffuse_as_emissive(objects)]. *)
Definition apply_diffuse_as_emissive (objs : list ObjId) : M BlendData unit :=
  for_each objs (fun obj => with_object obj diffuse_as_emissive_object).

(** ** Helpers: collections and visibility *)

(** [f"{i:03d}"]. *)
Definition format_03d (i : nat) : string :=
  let s := NilZero.string_of_uint (Nat.to_uint i) in
  match String.length s with
  | 1%nat => "00" ++ s
  | 2%nat => "0" ++ s
  | _ => s
  end%string.

(** [f"{base_name}_{i:03d}"]. *)
Definition candidate (base_name : string) (i : nat) : string :=
  (base_name ++ "_" ++ format_03d i)%string.

(** The loop [for i in range(i, i + n)] of [unique_collection_name]: the
    first candidate not in [bpy.data.collections]. *)
Fixpoint probe (base_name : string) (d : BlendData) (i n : nat) : option string :=
  match n with
  | O => None
  | S n' =>
      if in_collections (candidate base_name i) d
      then probe base_name d (S i) n'
      else Some (candidate base_name i)
  end.

(** [unique_collection_name(base_name)]. *)
Definition unique_collection_name (base_name : string) : M BlendData string :=
  fun d =>
    if negb (in_collections base_name d) then (Ok base_name, d)
    else
      match probe base_name d 1 999 with
      | Some c => (Ok c, d)
      | None =>
          (Raise ("All suffixes exhausted for collection '" ++ base_name ++ "'")%string, d)
      end.

(** [delete_collection_recursive(col)]. *)
Fixpoint delete_collection_recursive (col : LayerCollection) (d : BlendData)
  : BlendData :=
  match col with
  | LayerColl n _ os ch =>
      let d1 := fold_left (fun acc child_col => delete_collection_recursive child_col acc)
                  ch d in
      let d2 := fold_left (fun acc obj => objects_remove obj acc) os d1 in
      collections_remove n d2
  end.

(** [find_layer_collection(layer_col, name)]. *)
Fixpoint find_layer_collection (layer_col : LayerCollection) (n : string)
  : option LayerCollection :=
  match layer_col with
  | LayerColl m _ _ ch =>
      if m =? n then Some layer_col
      else
        (fix loop (l : list LayerCollection) : option LayerCollection :=
           match l with
           | [] => None
           | child :: r =>
               match find_layer_collection child n with
               | Some result => Some result
               | None => loop r
               end
           end) ch
  end.

(** Assign [exclude] on the node that [find_layer_collection] returns;
    [None] when the search finds nothing. *)
Fixpoint set_exclude (layer_col : LayerCollection) (n : string) (b : bool)
  : option LayerCollection :=
  match layer_col with
  | LayerColl m e o ch =>
      if m =? n then Some (LayerColl m b o ch)
      else
        match
          (fix loop (l : list LayerCollection) : option (list LayerCollection) :=
             match l with
             | [] => None
             | child :: r =>
                 match set_exclude child n b with
                 | Some child' => Some (child' :: r)
                 | None =>
                     match loop r with
                     | Some r' => Some (child :: r')
                     | None => None
                     end
                 end
             end) ch
        with
        | Some ch' => Some (LayerColl m e o ch')
        | None => None
        end
  end.

(** [set_collection_visibility(col_name, visible)]. *)
Definition set_collection_visibility (col_name : string) (visible : bool)
  (d : BlendData) : BlendData :=
  match find_layer_collection (layer_collection d) col_name with
  | Some _ =>
      match set_exclude (layer_collection d) col_name (negb visible) with
      | Some t => mkBlendData (objects d) (next_id d) t (unlinked d)
      | None => d
      end
  | None => d
  end.

(** [move_to_collection(obj, col)], [col] being named [n]. *)
Definition move_to_collection (obj : ObjId) (n : string) (d : BlendData) : BlendData :=
  collection_objects_link n obj (unlink_everywhere obj d).

(** ** OBJ import wrapper *)

Definition wm_obj_import (filepath : Path) (up_axis : Axis) : M BlendData unit :=
  match obj_import host filepath up_axis with
  | ImportRaises msg => raise msg
  | Imports os => modify (add_imported os)
  end.

(** [import_obj_file(filepath, up_axis)]. *)
Definition import_obj_file (filepath : Path) (up_axis : Axis)
  : M BlendData (list ObjId) :=
  before <- gets (fun d => map ob_id (objects d)) ;;
  wm_obj_import filepath up_axis ;;;
  gets (fun d =>
          map ob_id
            (filter (fun o => negb (existsb (Nat.eqb (ob_id o)) before)) (objects d))).

End Pipeline.

(** ** Per-file pipeline *)

(** The settings dictionary built by [invoke]. *)
Module Settings.
Record t := mk {
  up_axis : Axis;
  center_pivots : bool;
  use_scale_ref : bool;
  ref_obj : option ObjId;
  apply_scale : bool;
  replace_existing : bool;
  diffuse_as_emissive : bool
}.
End Settings.

(** What [process_single_obj] works on: [bpy.data] and the running list
    [created_collections] it is handed (the operator's own list, mutated
    in place). *)
Record PipelineState := mkPipelineState {
  bpy_data : BlendData;
  created_collections : list string
}.

Definition on_data {A} (c : M BlendData A) : M PipelineState A :=
  fun s =>
    let (r, d) := c (bpy_data s) in
    (r, mkPipelineState d (created_collections s)).

Definition set_parent (empty : Object) (o : Object) : Object :=
  mkObject (ob_id o) (ob_name o) (data o) (location o) (rotation o) (scale o)
    (Some (ob_id empty)) (matrix_world empty) Identity4
    (empty_display_type o) (material_slots o).

Section PipelineRun.

Variable host : Host.

(** The first block of [process_single_obj], "Handle name collision":
    the name the new collection will take. *)
Definition resolve_col_name (stem : string) (settings : Settings.t)
  : M BlendData string :=
  taken <- gets (in_collections stem) ;;
  if (Settings.replace_existing settings && taken)%bool then
    col <- (fun d => match collections_get stem d with
                     | Some c => (Ok c, d)
                     | None => (Raise ("'" ++ stem ++ "'")%string, d)
                     end) ;;
    modify (delete_collection_recursive col) ;;;
    ret stem
  else unique_collection_name stem.

(** The blocks "Center pivots", "Move to world origin", "Scale to
    reference" and "Diffuse as emissive" of [process_single_obj]. *)
Definition normalize_objects (settings : Settings.t) (new_objects : list ObjId)
  : M BlendData unit :=
  (* Center pivots *)
  (if Settings.center_pivots settings then
     for_each new_objects (fun obj => with_object obj set_origin_to_geometry)
   else ret tt) ;;;
  (* Move to world origin *)
  for_each new_objects (fun obj => with_object obj (fun o => set_location o Vector0)) ;;;
  (* Scale to reference *)
  (match Settings.use_scale_ref settings, Settings.ref_obj settings with
   | true, Some ref =>
       apply_scale_reference new_objects ref (Settings.apply_scale settings)
   | _, _ => ret tt
   end) ;;;
  (* Diffuse as emissive *)
  (if Settings.diffuse_as_emissive settings then apply_diffuse_as_emissive new_objects
   else ret tt).

(** The blocks "Create Empty (Plain Axes)" and "Parent objects -> empty". *)
Definition create_empty (stem : string) (new_objects : list ObjId)
  : M BlendData ObjId :=
  empty <- (fun d => let (i, d') := objects_new ("EMPTY_" ++ stem)%string d in
                     (Ok i, d')) ;;
  with_object empty (fun o => set_empty_display_type o "PLAIN_AXES") ;;;
  modify (scene_objects_link empty) ;;;
  for_each new_objects
    (fun obj => e <- deref empty ;; with_object obj (set_parent e)) ;;;
  ret empty.

(** The block "Create collection". *)
Definition create_collection (col_name : string) (empty : ObjId)
  (new_objects : list ObjId) (d : BlendData) : BlendData :=
  let d1 := collections_new col_name d in
  let d2 := scene_children_link col_name d1 in
  let d3 := move_to_collection empty col_name d2 in
  fold_left (fun acc obj => move_to_collection obj col_name acc) new_objects d3.

(** The block "Visibility": only the immediately preceding collection is
    hidden, the new one is shown and its name appended to the list. *)
Definition swap_visibility (col_name : string) : M PipelineState unit :=
  created <- gets created_collections ;;
  (match created with
   | [] => ret tt
   | _ :: _ => on_data (modify (set_collection_visibility (last created "") false))
   end) ;;;
  on_data (modify (set_collection_visibility col_name true)) ;;;
  modify (fun s => mkPipelineState (bpy_data s) (created_collections s ++ [col_name])).

(** [process_single_obj(filepath, settings, created_collections)].  A
    settings dictionary without its keys ([None]) raises [KeyError] at
    the first lookup. *)
Definition process_single_obj (filepath : Path) (settings : option Settings.t)
  : M PipelineState unit :=
  let stem := path_stem filepath in
  match settings with
  | None => raise "'replace_existing'"
  | Some settings =>
      (* Handle name collision *)
      col_name <- on_data (resolve_col_name stem settings) ;;
      (* Import *)
      new_objects <- on_data (import_obj_file host filepath (Settings.up_axis settings)) ;;
      match new_objects with
      | [] => ret tt
      | _ :: _ =>
          on_data (normalize_objects settings new_objects) ;;;
          empty <- on_data (create_empty stem new_objects) ;;
          on_data (modify (create_collection col_name empty new_objects)) ;;;
          swap_visibility col_name
      end
  end.

End PipelineRun.

(** ** The modal operator *)

Record AutoIngestProperties := mkProperties {
  folder_path : string;
  up_axis : Axis;
  center_pivots : bool;
  use_scale_ref : bool;
  reference_object : option ObjId;
  replace_existing : bool;
  apply_scale : bool;
  diffuse_as_emissive : bool
}.

(** The class attributes of [AUTOINGEST_OT_Import]. *)
Record OperatorClass := mkOperatorClass {
  _obj_files : list Path;
  _index : Z;
  _total : Z;
  _errors : list string;
  _settings : option Settings.t;
  _created_collections : list string;
  _undo_was_enabled : bool
}.

(** The parts of [context] the operator touches.  [areas] lists, per
    window, the areas of its screen as (area type, region types). *)
Record Context := mkContext {
  autoingest : AutoIngestProperties;
  autoingest_progress : Z;
  autoingest_running : bool;
  use_global_undo : bool;
  timers : list nat;
  next_timer : nat;
  modal_handlers : nat;
  windows : list (list (string * list string));
  view_layer_updates : nat;
  redraw_tags : nat;
  reports : list (string * string);
  console : list string
}.

Record State := mkState {
  bpy : BlendData;
  cls : OperatorClass;
  context : Context;
  _timer : option nat
}.

Inductive EventType := ESC | TIMER | OTHER (type : string).

Inductive Status := RUNNING_MODAL | CANCELLED | FINISHED | PASS_THROUGH.

Definition set_bpy (d : BlendData) (s : State) : State :=
  mkState d (cls s) (context s) (_timer s).

Definition set_cls (c : OperatorClass) (s : State) : State :=
  mkState (bpy s) c (context s) (_timer s).

Definition set_context (c : Context) (s : State) : State :=
  mkState (bpy s) (cls s) c (_timer s).

Definition set_progress (p : Z) (c : Context) : Context :=
  mkContext (autoingest c) (Z.max 0 (Z.min 100 p)) (autoingest_running c)
    (use_global_undo c) (timers c) (next_timer c) (modal_handlers c) (windows c)
    (view_layer_updates c) (redraw_tags c) (reports c) (console c).

Definition set_running (b : bool) (c : Context) : Context :=
  mkContext (autoingest c) (autoingest_progress c) b
    (use_global_undo c) (timers c) (next_timer c) (modal_handlers c) (windows c)
    (view_layer_updates c) (redraw_tags c) (reports c) (console c).

Definition set_use_global_undo (b : bool) (c : Context) : Context :=
  mkContext (autoingest c) (autoingest_progress c) (autoingest_running c)
    b (timers c) (next_timer c) (modal_handlers c) (windows c)
    (view_layer_updates c) (redraw_tags c) (reports c) (console c).

Definition set_autoingest (p : AutoIngestProperties) (c : Context) : Context :=
  mkContext p (autoingest_progress c) (autoingest_running c)
    (use_global_undo c) (timers c) (next_timer c) (modal_handlers c) (windows c)
    (view_layer_updates c) (redraw_tags c) (reports c) (console c).

(** [self.report({level}, msg)]. *)
Definition report (level msg : string) (c : Context) : Context :=
  mkContext (autoingest c) (autoingest_progress c) (autoingest_running c)
    (use_global_undo c) (timers c) (next_timer c) (modal_handlers c) (windows c)
    (view_layer_updates c) (redraw_tags c) (reports c ++ [(level, msg)]) (console c).

(** [print(line)]. *)
Definition print (line : string) (c : Context) : Context :=
  mkContext (autoingest c) (autoingest_progress c) (autoingest_running c)
    (use_global_undo c) (timers c) (next_timer c) (modal_handlers c) (windows c)
    (view_layer_updates c) (redraw_tags c) (reports c) (console c ++ [line]).

(** [context.window_manager.event_timer_add(...)]: a new timer handle. *)
Definition event_timer_add (c : Context) : nat * Context :=
  (next_timer c,
   mkContext (autoingest c) (autoingest_progress c) (autoingest_running c)
     (use_global_undo c) (timers c ++ [next_timer c]) (S (next_timer c))
     (modal_handlers c) (windows c)
     (view_layer_updates c) (redraw_tags c) (reports c) (console c)).

(** [context.window_manager.event_timer_remove(timer)]. *)
Definition event_timer_remove (t : nat) (c : Context) : Context :=
  mkContext (autoingest c) (autoingest_progress c) (autoingest_running c)
    (use_global_undo c) (filter (fun u => negb (Nat.eqb u t)) (timers c)) (next_timer c)
    (modal_handlers c) (windows c)
    (view_layer_updates c) (redraw_tags c) (reports c) (console c).

(** [context.window_manager.modal_handler_add(self)]. *)
Definition modal_handler_add (c : Context) : Context :=
  mkContext (autoingest c) (autoingest_progress c) (autoingest_running c)
    (use_global_undo c) (timers c) (next_timer c) (S (modal_handlers c)) (windows c)
    (view_layer_updates c) (redraw_tags c) (reports c) (console c).

(** [context.view_layer.update()] followed by the loop that tags the UI
    region of every VIEW_3D area of every window. *)
Definition update_and_tag_redraw (c : Context) : Context :=
  let tags :=
    fold_left
      (fun n window =>
         fold_left
           (fun n area =>
              if fst area =? "VIEW_3D"
              then (n + List.length (filter (String.eqb "UI") (snd area)))%nat
              else n)
           window n)
      (windows c) O in
  mkContext (autoingest c) (autoingest_progress c) (autoingest_running c)
    (use_global_undo c) (timers c) (next_timer c) (modal_handlers c) (windows c)
    (S (view_layer_updates c)) (redraw_tags c + tags)%nat (reports c) (console c).

(** Decimal rendering of a Python int in an f-string. *)
Definition str_int (z : Z) : string := NilZero.string_of_int (Z.to_int z).

Definition len {A} (l : list A) : Z := Z.of_nat (List.length l).

(** [xs[i]] with Python's negative indices. *)
Definition getitem {A S} (xs : list A) (i : Z) : M S A :=
  let j := if (i <? 0)%Z then (len xs + i)%Z else i in
  if ((0 <=? j) && (j <? len xs))%Z%bool then
    match nth_error xs (Z.to_nat j) with
    | Some x => ret x
    | None => raise "list index out of range"
    end
  else raise "list index out of range".

Definition set_created (l : list string) (c : OperatorClass) : OperatorClass :=
  mkOperatorClass (_obj_files c) (_index c) (_total c) (_errors c) (_settings c) l
    (_undo_was_enabled c).

Definition set_index (i : Z) (c : OperatorClass) : OperatorClass :=
  mkOperatorClass (_obj_files c) i (_total c) (_errors c) (_settings c)
    (_created_collections c) (_undo_was_enabled c).

Definition append_error (e : string) (c : OperatorClass) : OperatorClass :=
  mkOperatorClass (_obj_files c) (_index c) (_total c) (_errors c ++ [e]) (_settings c)
    (_created_collections c) (_undo_was_enabled c).

(** Run a pipeline computation on [bpy.data] and on the class' own
    [_created_collections] list, which the pipeline mutates in place. *)
Definition on_pipeline {A} (c : M PipelineState A) : M State A :=
  fun s =>
    let (r, ps) := c (mkPipelineState (bpy s) (_created_collections (cls s))) in
    (r, set_cls (set_created (created_collections ps) (cls s)) (set_bpy (bpy_data ps) s)).

Section Operator.

Variable host : Host.

(** [AUTOINGEST_OT_Import.invoke]. *)
Definition invoke : M State Status :=
  fun s =>
    let props := autoingest (context s) in
    if ((folder_path props =? "") || negb (isdir host (folder_path props)))%bool then
      (Ok CANCELLED,
       set_context (report "ERROR" "Please select a valid folder." (context s)) s)
    else if (use_scale_ref props
             && match reference_object props with None => true | Some _ => false end)%bool
    then
      (Ok CANCELLED,
       set_context
         (report "ERROR" "Scale to Reference is enabled but no reference object is set."
            (context s)) s)
    else
      let obj_files := collect_obj_files host (folder_path props) in
      match obj_files with
      | [] =>
          (Ok CANCELLED,
           set_context
             (report "WARNING" "No OBJ files found in the selected folder." (context s)) s)
      | _ :: _ =>
          let c :=
            mkOperatorClass obj_files 0%Z (len obj_files) []
              (Some (Settings.mk (up_axis props) (center_pivots props)
                       (use_scale_ref props) (reference_object props)
                       (apply_scale props) (replace_existing props)
                       (diffuse_as_emissive props)))
              []
              (use_global_undo (context s)) in
          (* Disable undo for the duration of the import *)
          let ctx1 := set_use_global_undo false (context s) in
          let (timer, ctx2) := event_timer_add ctx1 in
          let ctx3 := modal_handler_add ctx2 in
          let ctx4 := set_running true (set_progress 0%Z ctx3) in
          (Ok RUNNING_MODAL, mkState (bpy s) c ctx4 (Some timer))
      end.

(** [AUTOINGEST_OT_Import._finish]. *)
Definition _finish (cancelled : bool) : M State Status :=
  fun s =>
    match _timer s with
    | None => (Raise "event_timer_remove: expected a Timer, not NoneType", s)
    | Some timer =>
        let c := cls s in
        let ctx1 := event_timer_remove timer (context s) in
        (* Restore undo preference *)
        let ctx2 := set_use_global_undo (_undo_was_enabled c) ctx1 in
        let ctx3 := set_running false ctx2 in
        let ctx4 := set_progress 0%Z ctx3 in
        let ctx5 :=
          if cancelled then
            report "WARNING"
              ("Import cancelled after " ++ str_int (_index c) ++ "/"
               ++ str_int (_total c) ++ " files.")%string ctx4
          else
            let msg :=
              ("AutoIngest: " ++ str_int (_total c - len (_errors c))
               ++ " OBJ(s) imported.")%string in
            match _errors c with
            | [] => report "INFO" msg ctx4
            | _ :: _ =>
                report "INFO"
                  (msg ++ "  " ++ str_int (len (_errors c))
                   ++ " error(s) – see system console.")%string
                  (fold_left (fun k e => print ("[AutoIngest ERROR] " ++ e)%string k)
                     (_errors c) ctx4)
            end in
        (Ok FINISHED, set_context ctx5 s)
    end.

(** [AUTOINGEST_OT_Import.modal]. *)
Definition modal (event : EventType) : M State Status :=
  match event with
  | ESC => _finish true
  | TIMER =>
      c <- gets cls ;;
      if (_index c >=? _total c)%Z then _finish false
      else
        (* Show progress before the heavy import *)
        (if (_total c =? 0)%Z then raise "division by zero" else ret tt) ;;;
        modify (fun s =>
                  set_context
                    (set_progress (float_percent host (_index c + 1)%Z (_total c))
                       (context s)) s) ;;;
        modify (fun s => set_context (update_and_tag_redraw (context s)) s) ;;;
        filepath <- getitem (_obj_files c) (_index c) ;;
        try_except
          (on_pipeline (process_single_obj host filepath (_settings c)))
          (fun e =>
             modify (fun s =>
                       set_cls (append_error (path_name filepath ++ ": " ++ e)%string
                                  (cls s)) s)) ;;;
        modify (fun s => set_cls (set_index (_index (cls s) + 1)%Z (cls s)) s) ;;;
        ret PASS_THROUGH
  | OTHER _ => ret PASS_THROUGH
  end.

(** ** The host's event loop *)

(** What happens between [invoke] and the end of the job: the window
    manager delivers events to [modal], and the user may edit the panel's
    properties at any time. *)
Inductive HostEvent :=
| Deliver (event : EventType)
| EditProperties (props : AutoIngestProperties).

Definition is_delivery (e : HostEvent) : bool :=
  match e with Deliver _ => true | EditProperties _ => false end.

(** The handler stays installed while [modal] returns [PASS_THROUGH] or
    [RUNNING_MODAL]; the loop ends with the first other status or
    exception. The result is [None] while the job is still running. *)
Fixpoint run_modal (events : list HostEvent) (s : State)
  : option (Result Status) * State :=
  match events with
  | [] => (None, s)
  | EditProperties p :: r =>
      run_modal r (set_context (set_autoingest p (context s)) s)
  | Deliver e :: r =>
      match modal e s with
      | (Ok PASS_THROUGH, s') | (Ok RUNNING_MODAL, s') => run_modal r s'
      | (res, s') => (Some res, s')
      end
  end.

(** A whole job: [invoke], then the event loop. *)
Definition run_job (events : list HostEvent) (s : State)
  : option (Result Status) * State :=
  match invoke s with
  | (Ok RUNNING_MODAL, s') => run_modal events s'
  | (res, s') => (Some res, s')
  end.

End Operator.

(** ** Concrete scenes, files and hosts used by the examples below *)

(** An empty scene. *)
Definition empty_scene : BlendData :=
  mkBlendData [] 0%nat (LayerColl "Scene Collection" false [] []) [].

(** A scene holding collections "A" and "A_001". *)
Definition scene_A_A001 : BlendData :=
  mkBlendData [] 0%nat
    (LayerColl "Scene Collection" false []
       [LayerColl "A" false [] []; LayerColl "A_001" true [] []]) [].

(** A scene in which "A" and all of "A_001" ... "A_999" are taken. *)
Definition scene_exhausted : BlendData :=
  mkBlendData [] 0%nat (LayerColl "Scene Collection" false [] [])
    (LayerColl "A" false [] []
     :: map (fun i => LayerColl (candidate "A" i) false [] []) (seq 1 999)).

(** ** Predicates used in the statements *)

(** The collection named [n] is visible in the view layer: some layer
    collection of that name is not excluded.  It is hidden otherwise
    (all layer collections of that name are excluded, or there is none). *)
Definition visible (n : string) (d : BlendData) : bool :=
  existsb (fun p => (fst p =? n) && negb (snd p))%bool
          (lc_flags (layer_collection d)).

Definition hidden (n : string) (d : BlendData) : bool := negb (visible n d).

(** What [invoke] leaves invariant for the rest of the job: the timer
    handle, the file count, a cursor that is not negative, and the saved
    undo preference. *)
Definition job_inv (undo0 : bool) (timer : nat) (s : State) : Prop :=
  _timer s = Some timer /\
  _total (cls s) = len (_obj_files (cls s)) /\
  (0 <= _index (cls s))%Z /\
  _undo_was_enabled (cls s) = undo0.

(** ** Concrete jobs *)

(** A mesh with two vertices, as an importer might deliver it. *)
Definition two_point_mesh (n : string) : Object :=
  mkObject 0%nat n (MeshData [mkVector 0 0 0; mkVector 2 4 6]) (mkVector 1 1 1)
    Identity3 (mkVector 1 1 1) None Identity4 Identity4 "" [].

(** A host whose folder holds [files] and whose importer behaves as
    [import] says. *)
Definition demo_host (files : list Path) (import : Path -> ImportOutcome) : Host :=
  mkHost (fun _ => true) (fun _ => files) (fun p _ => import p)
         (fun i n => (i * 100 / n)%Z).

Definition demo_properties (replace : bool) : AutoIngestProperties :=
  mkProperties "/assets" AXIS_Y true false None replace true false.

(** A session in which no job has run yet, undo being enabled. *)
Definition idle_state (d : BlendData) (props : AutoIngestProperties) : State :=
  mkState d (mkOperatorClass [] 0%Z 0%Z [] None [] true)
    (mkContext props 0%Z false true [] 0%nat 0%nat
       [[("VIEW_3D", ["WINDOW"; "UI"])]] 0%nat 0%nat [] [])
    None.

(** Two files; the importer fails on the first. *)
Definition host_bad_good : Host :=
  demo_host [mkPath ["assets"; "bad.obj"]; mkPath ["assets"; "good.obj"]]
    (fun p => if path_stem p =? "bad" then ImportRaises "Import failed"
              else Imports [two_point_mesh (path_stem p)]).

(** One file, from which the importer creates no object. *)
Definition host_one_empty : Host :=
  demo_host [mkPath ["assets"; "void.obj"]] (fun _ => Imports []).

(** Four files whose stems are A, B, C and B again. *)
Definition host_abcb : Host :=
  demo_host [mkPath ["assets"; "p"; "A.obj"]; mkPath ["assets"; "p"; "B.obj"];
             mkPath ["assets"; "p"; "C.obj"]; mkPath ["assets"; "q"; "B.obj"]]
    (fun p => Imports [two_point_mesh (path_stem p)]).

(** Three files with stems A, B and B; the second B yields no object. *)
Definition host_ab_void : Host :=
  demo_host [mkPath ["assets"; "p"; "A.obj"]; mkPath ["assets"; "p"; "B.obj"];
             mkPath ["assets"; "q"; "B.obj"]]
    (fun p => match parts p with
              | [_; "q"; _] => Imports []
              | _ => Imports [two_point_mesh (path_stem p)]
              end).

Definition ticks (n : nat) : list HostEvent := repeat (Deliver TIMER) n.

(** The state [invoke] leaves on an empty scene, for the jobs above. *)
Definition job_bad_good : State :=
  snd (invoke host_bad_good (idle_state empty_scene (demo_properties false))).

Definition job_one_empty : State :=
  snd (invoke host_one_empty (idle_state empty_scene (demo_properties false))).

Definition job_abcb : State :=
  snd (invoke host_abcb (idle_state empty_scene (demo_properties true))).

Definition job_ab_void : State :=
  snd (invoke host_ab_void (idle_state empty_scene (demo_properties true))).

(** A scene with one collection "B" holding one mesh object. *)
Definition scene_B : BlendData :=
  mkBlendData [two_point_mesh "old"] 1%nat
    (LayerColl "Scene Collection" false [] [LayerColl "B" false [0%nat] []]) [].

Definition settings_replace : Settings.t :=
  Settings.mk AXIS_Y true false None true true false.

Definition settings_keep : Settings.t :=
  Settings.mk AXIS_Y true false None true false false.

(** ** Auxiliary notions for the proofs about collections *)

(** [sublist l1 l2]: [l1] is [l2] with some elements left out. *)
Inductive sublist {A : Type} : list A -> list A -> Prop :=
| sublist_nil : sublist [] []
| sublist_skip : forall x l1 l2, sublist l1 l2 -> sublist l1 (x :: l2)
| sublist_keep : forall x l1 l2, sublist l1 l2 -> sublist (x :: l1) (x :: l2).

(** Induction on collection trees, with the hypothesis for all children. *)
Fixpoint LayerCollection_nested_ind (P : LayerCollection -> Prop)
  (H : forall n e o ch, Forall P ch -> P (LayerColl n e o ch))
  (t : LayerCollection) : P t :=
  match t with
  | LayerColl n e o ch =>
      H n e o ch
        ((fix go (l : list LayerCollection) : Forall P l :=
            match l with
            | [] => Forall_nil P
            | c :: r => Forall_cons c (LayerCollection_nested_ind P H c) (go r)
            end) ch)
  end.

(** On the flat list of flags: set the flag of the first entry named [n]. *)
Fixpoint set_first_flag (n : string) (b : bool) (fl : list (string * bool))
  : list (string * bool) :=
  match fl with
  | [] => []
  | (m, e) :: r => if m =? n then (m, b) :: r else (m, e) :: set_first_flag n b r
  end.

(** How many layer collections are named [n]. *)
Definition count_name (n : string) (fl : list (string * bool)) : nat :=
  List.length (filter (fun p => fst p =? n) fl).

Definition scene_flags (d : BlendData) : list (string * bool) :=
  lc_flags (layer_collection d).

(** The visibility invariant of a job: every name in the list of created
    collections denotes at most one layer collection, and every created
    collection other than the one named last in the list is hidden. *)
Definition vis_inv (s : PipelineState) : Prop :=
  (forall n, In n (created_collections s) ->
             (count_name n (scene_flags (bpy_data s)) <= 1)%nat) /\
  (forall n, In n (created_collections s) ->
             n <> last (created_collections s) "" ->
             hidden n (bpy_data s) = true).

(** The names [process_single_obj] can give the collection of a file
    with this stem. *)
Definition resolvable (stem c : string) : Prop :=
  c = stem \/ exists i, c = candidate stem i.

(** The files of a job processed one after the other, as the ticks of
    [modal] do: an exception ends the file, not the sequence. *)
Fixpoint run_files (host : Host) (settings : Settings.t) (files : list Path)
  (s : PipelineState) : PipelineState :=
  match files with
  | [] => s
  | f :: r => run_files host settings r (snd (process_single_obj host f (Some settings) s))
  end.

(** [keeps_collections d d']: the step from [d] to [d'] changed no
    collection name and no layer flag. *)
Definition keeps_collections (d d' : BlendData) : Prop :=
  scene_flags d' = scene_flags d /\ unlinked d' = unlinked d.

(** [shrinks d d']: the step from [d] to [d'] at most removed collections
    (with their layer collections); the scene collection itself stays. *)
Definition shrinks (d d' : BlendData) : Prop :=
  lc_name (layer_collection d') = lc_name (layer_collection d) /\
  lc_exclude (layer_collection d') = lc_exclude (layer_collection d) /\
  sublist (forest_flags (lc_children (layer_collection d')))
          (forest_flags (lc_children (layer_collection d))) /\
  sublist (forest_flags (unlinked d')) (forest_flags (unlinked d)).

(** The state with the panel's live properties replaced by [p]. *)
Definition with_props (p : AutoIngestProperties) (s : State) : State :=
  set_context (set_autoingest p (context s)) s.

(** A computation on [bpy.data] that changes no collection and no flag. *)
Definition keeps {A : Type} (c : M BlendData A) : Prop :=
  forall d r d', c d = (r, d') -> keeps_collections d d'.

(** The first three and the fourth file of the job [host_abcb], and an
    empty scene with no collection created yet. *)
Definition files_abc : list Path :=
  [mkPath ["assets"; "p"; "A.obj"]; mkPath ["assets"; "p"; "B.obj"];
   mkPath ["assets"; "p"; "C.obj"]].

Definition file_B_again : Path := mkPath ["assets"; "q"; "B.obj"].

Definition fresh_pipeline : PipelineState := mkPipelineState empty_scene [].

(** The job [host_ab_void] after two and after three ticks. *)
Definition ab_void_after_2 : State := snd (run_modal host_ab_void (ticks 2) job_ab_void).

Definition ab_void_after_3 : State := snd (run_modal host_ab_void (ticks 3) job_ab_void).

(** ** Auxiliary notions for the proofs about geometry *)

(** [m] is a least (greatest) element of [l], up to [==]. *)
Definition is_min (m : Q) (l : list Q) : Prop :=
  (forall x, In x l -> m <= x)%Q /\ exists x, In x l /\ (x == m)%Q.

Definition is_max (m : Q) (l : list Q) : Prop :=
  (forall x, In x l -> x <= m)%Q /\ exists x, In x l /\ (x == m)%Q.

Definition mrow (m : Matrix3) (i : nat) : Vector :=
  match i with
  | O => row0 m
  | S O => row1 m
  | _ => row2 m
  end.

(** The world-space coordinates along axis [i] of the corners of the
    bounding box, and the span they cover. *)
Definition world_coords (obj : Object) (i : nat) : list Q :=
  map (fun v => vget v i) (map (mat_apply (matrix_world obj)) (bound_box obj)).

Definition axis_dim (obj : Object) (i : nat) : Q :=
  (py_max (world_coords obj i) - py_min (world_coords obj i))%Q.

(** The span of a box along a direction [a]: the sum over the local axes
    of the absolute contributions. *)
Definition extent (a lo hi : Vector) : Q :=
  (Qabs (vx a * (vx lo - vx hi)) + Qabs (vy a * (vy lo - vy hi))
   + Qabs (vz a * (vz lo - vz hi)))%Q.

(** [fst (get_longest_axis_size obj)]. *)
Definition longest (obj : Object) : Q := fst (get_longest_axis_size obj).

(** The vertex coordinates after baking the scale [s] into them, as the
    loop of [apply_scale_reference] computes them. *)
Definition bake_vertices (s : Vector) (vs : list Vector) : list Vector :=
  map (fun co => mkVector (vx co * vx s) (vy co * vy s) (vz co * vz s))%Q vs.


(** A reference of size 3 and two targets, one of them degenerate. *)
Definition reference_cube : Object :=
  mkObject 0%nat "ref" (MeshData [mkVector 0 0 0; mkVector 3 1 2]) Vector0
    Identity3 (mkVector 1 1 1) None Identity4 Identity4 "" [].

Definition target_box : Object :=
  mkObject 1%nat "box" (MeshData [mkVector 0 0 0; mkVector 2 4 6]) (mkVector 1 1 1)
    Identity3 (mkVector 1 (-2) 1) None Identity4 Identity4 "" [].

Definition target_point : Object :=
  mkObject 2%nat "point" (MeshData [mkVector 5 5 5]) Vector0
    Identity3 (mkVector 1 1 1) None Identity4 Identity4 "" [].


(** The centre [set_origin_to_geometry] computes: the mean of the eight
    corners of the local bounding box. *)
Definition bbox_center (obj : Object) : Vector :=
  vdiv (fold_left vadd (bound_box obj) Vector0) (8 # 1).




(** The same mesh, off-centre and without parent. *)
Definition off_center_mesh : Object :=
  mkObject 0%nat "mesh" (MeshData [mkVector 0 0 0; mkVector 2 4 6]) (mkVector 1 1 1)
    Identity3 (mkVector 2 1 1) None Identity4 Identity4 "" [].

(** The job [host_bad_good] after both files, and cancelled after one. *)
Definition bad_good_after_2 : State :=
  snd (run_modal host_bad_good (ticks 2) job_bad_good).

Definition bad_good_cancelled : State :=
  snd (run_modal host_bad_good [Deliver TIMER; Deliver ESC] job_bad_good).

Definition file_B : Path := mkPath ["assets"; "B.obj"].

(** Three files A, B, C, each importing one mesh; and five such files. *)
Definition host_abc : Host :=
  demo_host [mkPath ["assets"; "A.obj"]; mkPath ["assets"; "B.obj"];
             mkPath ["assets"; "C.obj"]]
    (fun p => Imports [two_point_mesh (path_stem p)]).

Definition host_five : Host :=
  demo_host [mkPath ["assets"; "a.obj"]; mkPath ["assets"; "b.obj"];
             mkPath ["assets"; "c.obj"]; mkPath ["assets"; "d.obj"];
             mkPath ["assets"; "e.obj"]]
    (fun p => Imports [two_point_mesh (path_stem p)]).

(** The panel's properties after the user flipped every toggle. *)
Definition edited_properties : AutoIngestProperties :=
  mkProperties "/elsewhere" AXIS_NEGATIVE_Z false true (Some 0%nat) true false true.

(** ** Further notions used in the statements *)

(** The emission input [apply_diffuse_as_emissive] picks: "Emission
    Color" if the node has one, else "Emission". *)
Definition emission_input (ins : list Socket) : option Socket :=
  match inputs_get ins "Emission Color" with
  | Some s => Some s
  | None => inputs_get ins "Emission"
  end.

(** A Principled node with a linked Base Color and an emission input, and
    one without emission input. *)
Definition principled_textured : Node :=
  mkNode "BSDF_PRINCIPLED"
    [mkSocket "Base Color" (Some "Image Texture.Color") (1 # 2);
     mkSocket "Metallic" None 0;
     mkSocket "Emission Color" None 0;
     mkSocket "Emission Strength" None 0].

Definition principled_old_build : Node :=
  mkNode "BSDF_PRINCIPLED"
    [mkSocket "Base Color" (Some "Image Texture.Color") (1 # 2);
     mkSocket "Emission" (Some "Other.Color") 0].

(** The first pair of a flag list that carries the name [n]. *)
Definition first_flag (n : string) (fl : list (string * bool))
  : option (string * bool) :=
  find (fun p => fst p =? n) fl.

(** Every object held by a collection or by one of its descendants. *)
Fixpoint lc_all_objects (c : LayerCollection) : list ObjId :=
  match c with
  | LayerColl _ _ os ch => os ++ flat_map lc_all_objects ch
  end.


(** The names of the collections, below and including a node, that hold
    object [i] directly. *)
Fixpoint lc_users (i : ObjId) (c : LayerCollection) : list string :=
  match c with
  | LayerColl n _ os ch =>
      (if existsb (Nat.eqb i) os then [n] else []) ++ flat_map (lc_users i) ch
  end.

(** [obj.users_collection], by name. *)
Definition users_collection (i : ObjId) (d : BlendData) : list string :=
  lc_users i (layer_collection d) ++ flat_map (lc_users i) (unlinked d).

(** A scene with a nested hierarchy: "Props" holds object 1 and has the
    child "Crates" holding objects 2 and 3; object 3 is also linked to
    "Misc"; object 0 sits in the scene collection. *)
Definition scene_nested : BlendData :=
  let ob := fun i n =>
    mkObject i n (MeshData [mkVector 0 0 0]) Vector0 Identity3 (mkVector 1 1 1)
      None Identity4 Identity4 "" [] in
  mkBlendData [ob 0%nat "cam"; ob 1%nat "table"; ob 2%nat "crate"; ob 3%nat "lid"]
    4%nat
    (LayerColl "Scene Collection" false [0%nat]
       [LayerColl "Props" false [1%nat]
          [LayerColl "Crates" true [2%nat; 3%nat] []];
        LayerColl "Misc" false [3%nat] []])
    [].





(** Events that are neither ESC nor TIMER: mouse moves, key presses. *)
Definition is_other (e : HostEvent) : bool :=
  match e with
  | Deliver (OTHER _) => true
  | _ => false
  end.

(** What [invoke] checks before it starts a job. *)
Definition invoke_ready (host : Host) (s : State) : Prop :=
  let props := autoingest (context s) in
  folder_path props <> "" /\
  isdir host (folder_path props) = true /\
  (use_scale_ref props = true -> reference_object props <> None) /\
  collect_obj_files host (folder_path props) <> [].

(** A host without any folder. *)
Definition host_no_folder : Host :=
  mkHost (fun _ => false) (fun _ => []) (fun _ _ => Imports []) (fun i n => (i * 100 / n)%Z).

(** The world-space positions of the vertices of a mesh object. *)
Definition world_vertices (o : Object) : list Vector :=
  match data o with
  | MeshData vs => map (mat_apply (matrix_world o)) vs
  | _ => []
  end.

(** A mesh that is scaled, off-centre and parented to a moved object. *)
Definition parented_mesh : Object :=
  mkObject 4%nat "part" (MeshData [mkVector 0 0 0; mkVector 2 4 6]) (mkVector 1 1 1)
    Identity3 (mkVector 2 1 1) (Some 7%nat)
    (mkMatrix Identity3 (mkVector 1 0 0)) Identity4 "" [].

(** Every handle in [bpy.data.objects] is older than the next handle to
    be given out. *)
Definition ids_fresh (d : BlendData) : Prop :=
  forall o, In o (objects d) -> (ob_id o < next_id d)%nat.

(** The objects an import adds, with the handles they get. *)
Fixpoint number_from (i : ObjId) (os : list Object) : list Object :=
  match os with
  | [] => []
  | o :: r =>
      mkObject i (ob_name o) (data o) (location o) (rotation o) (scale o) (parent o)
        (parent_world o) (matrix_parent_inverse o) (empty_display_type o)
        (material_slots o)
      :: number_from (S i) r
  end.

(** [o] is one of the objects whose handles are listed in [l]. *)
Definition id_in (l : list ObjId) (o : Object) : bool :=
  existsb (Nat.eqb (ob_id o)) l.

(** A step that leaves the collections, their contents, the handle
    counter and the handles of [bpy.data.objects] alone. *)
Definition same_links (d d' : BlendData) : Prop :=
  layer_collection d' = layer_collection d /\
  unlinked d' = unlinked d /\
  next_id d' = next_id d /\
  map ob_id (objects d') = map ob_id (objects d).

(** A scene from which the only object, handle 0, has been removed, and
    settings that still name it as the reference object. *)
Definition scene_after_removal : BlendData :=
  mkBlendData [] 1%nat (LayerColl "Scene Collection" false [] []) [].

Definition settings_dead_reference : Settings.t :=
  Settings.mk AXIS_Y true true (Some 0%nat) true false false.

(** A mesh with one material whose Principled node has a textured Base
    Color, alone in a scene. *)
Definition textured_mesh : Object :=
  mkObject 0%nat "wall" (MeshData [mkVector 0 0 0; mkVector 1 1 1]) Vector0 Identity3
    (mkVector 1 1 1) None Identity4 Identity4 ""
    [Some (mkMaterial "brick" (Some [principled_textured])); None].

Definition scene_textured : BlendData :=
  mkBlendData [textured_mesh] 1%nat (LayerColl "Scene Collection" false [0%nat] []) [].

(** * Properties of the geometry helpers *)

(** ** Python's [min] and [max] *)

Lemma Qltb_true : forall a b, Qltb a b = true <-> a < b.
Proof.
  intros a b. unfold Qltb. rewrite negb_true_iff.
  destruct (Qle_bool b a) eqn:E.
  - apply Qle_bool_iff in E. split; [discriminate|]. intros H. exfalso. lra.
  - split; [|reflexivity]. intros _.
    destruct (Qlt_le_dec a b) as [H|H]; [exact H|].
    apply Qle_bool_iff in H. congruence.
Qed.

Lemma Qltb_false : forall a b, Qltb a b = false <-> b <= a.
Proof.
  intros a b. destruct (Qltb a b) eqn:E.
  - apply Qltb_true in E. split; [discriminate|]. intros H. exfalso. lra.
  - split; [|reflexivity]. intros _.
    destruct (Qlt_le_dec a b) as [H|H]; [|exact H].
    apply Qltb_true in H. congruence.
Qed.

Lemma py_min_fold : forall r x0,
  let m := fold_left (fun best y => if Qltb y best then y else best) r x0 in
  m <= x0 /\ (forall y, In y r -> m <= y) /\ In m (x0 :: r).
Proof.
  induction r as [|y r IH]; intros x0; cbn [fold_left].
  - split; [lra|]. split; [intros y []|now left].
  - destruct (IH (if Qltb y x0 then y else x0)) as (H1 & H2 & H3).
    destruct (Qltb y x0) eqn:E.
    + apply Qltb_true in E. split; [lra|]. split.
      * intros z [<-|Hz]; [exact H1|now apply H2].
      * destruct H3 as [H3|H3]; [right; left; exact H3|right; right; exact H3].
    + apply Qltb_false in E. split; [exact H1|]. split.
      * intros z [<-|Hz]; [lra|now apply H2].
      * destruct H3 as [H3|H3]; [left; exact H3|right; right; exact H3].
Qed.

Lemma py_max_fold : forall r x0,
  let m := fold_left (fun best y => if Qltb best y then y else best) r x0 in
  x0 <= m /\ (forall y, In y r -> y <= m) /\ In m (x0 :: r).
Proof.
  induction r as [|y r IH]; intros x0; cbn [fold_left].
  - split; [lra|]. split; [intros y []|now left].
  - destruct (IH (if Qltb x0 y then y else x0)) as (H1 & H2 & H3).
    destruct (Qltb x0 y) eqn:E.
    + apply Qltb_true in E. split; [lra|]. split.
      * intros z [<-|Hz]; [exact H1|now apply H2].
      * destruct H3 as [H3|H3]; [right; left; exact H3|right; right; exact H3].
    + apply Qltb_false in E. split; [exact H1|]. split.
      * intros z [<-|Hz]; [lra|now apply H2].
      * destruct H3 as [H3|H3]; [left; exact H3|right; right; exact H3].
Qed.

Lemma py_min_is_min : forall l, l <> [] -> is_min (py_min l) l.
Proof.
  intros [|x r] Hne; [contradiction|]. unfold py_min.
  destruct (py_min_fold r x) as (H1 & H2 & H3). split.
  - intros y [<-|Hy]; [exact H1|now apply H2].
  - eexists. split; [exact H3|reflexivity].
Qed.

Lemma py_max_is_max : forall l, l <> [] -> is_max (py_max l) l.
Proof.
  intros [|x r] Hne; [contradiction|]. unfold py_max.
  destruct (py_max_fold r x) as (H1 & H2 & H3). split.
  - intros y [<-|Hy]; [exact H1|now apply H2].
  - eexists. split; [exact H3|reflexivity].
Qed.

Lemma is_min_unique : forall m m' l, is_min m l -> is_min m' l -> m == m'.
Proof.
  intros m m' l [H1 (x & Hx & Ex)] [H1' (x' & Hx' & Ex')].
  pose proof (H1 x' Hx'). pose proof (H1' x Hx). lra.
Qed.

Lemma is_max_unique : forall m m' l, is_max m l -> is_max m' l -> m == m'.
Proof.
  intros m m' l [H1 (x & Hx & Ex)] [H1' (x' & Hx' & Ex')].
  pose proof (H1 x' Hx'). pose proof (H1' x Hx). lra.
Qed.

(** Least and greatest element of a list scaled by [k]. *)
Lemma is_min_scale_pos : forall k m l,
  0 <= k -> is_min m l -> is_min (m * k) (map (fun x => x * k) l).
Proof.
  intros k m l Hk [H1 (x & Hx & Ex)]. split.
  - intros y Hy. apply in_map_iff in Hy. destruct Hy as (z & <- & Hz).
    specialize (H1 z Hz). nra.
  - exists (x * k). split; [now apply (in_map (fun x => x * k))|]. now rewrite Ex.
Qed.

Lemma is_max_scale_pos : forall k m l,
  0 <= k -> is_max m l -> is_max (m * k) (map (fun x => x * k) l).
Proof.
  intros k m l Hk [H1 (x & Hx & Ex)]. split.
  - intros y Hy. apply in_map_iff in Hy. destruct Hy as (z & <- & Hz).
    specialize (H1 z Hz). nra.
  - exists (x * k). split; [now apply (in_map (fun x => x * k))|]. now rewrite Ex.
Qed.

Lemma is_min_scale_neg : forall k m l,
  k <= 0 -> is_max m l -> is_min (m * k) (map (fun x => x * k) l).
Proof.
  intros k m l Hk [H1 (x & Hx & Ex)]. split.
  - intros y Hy. apply in_map_iff in Hy. destruct Hy as (z & <- & Hz).
    specialize (H1 z Hz). nra.
  - exists (x * k). split; [now apply (in_map (fun x => x * k))|]. now rewrite Ex.
Qed.

Lemma is_max_scale_neg : forall k m l,
  k <= 0 -> is_min m l -> is_max (m * k) (map (fun x => x * k) l).
Proof.
  intros k m l Hk [H1 (x & Hx & Ex)]. split.
  - intros y Hy. apply in_map_iff in Hy. destruct Hy as (z & <- & Hz).
    specialize (H1 z Hz). nra.
  - exists (x * k). split; [now apply (in_map (fun x => x * k))|]. now rewrite Ex.
Qed.

(** Least and greatest element of a list shifted by [c]. *)
Lemma is_min_shift : forall c m l,
  is_min m l -> is_min (m - c) (map (fun x => x - c) l).
Proof.
  intros c m l [H1 (x & Hx & Ex)]. split.
  - intros y Hy. apply in_map_iff in Hy. destruct Hy as (z & <- & Hz).
    specialize (H1 z Hz). lra.
  - exists (x - c). split; [now apply (in_map (fun x => x - c))|]. now rewrite Ex.
Qed.

Lemma is_max_shift : forall c m l,
  is_max m l -> is_max (m - c) (map (fun x => x - c) l).
Proof.
  intros c m l [H1 (x & Hx & Ex)]. split.
  - intros y Hy. apply in_map_iff in Hy. destruct Hy as (z & <- & Hz).
    specialize (H1 z Hz). lra.
  - exists (x - c). split; [now apply (in_map (fun x => x - c))|]. now rewrite Ex.
Qed.

(** ** The world-space box of an object *)

Lemma Qmax_min_abs : forall p q, Qmax p q - Qmin p q == Qabs (p - q).
Proof.
  intros p q.
  destruct (Q.max_spec p q) as [[H1 E1]|[H1 E1]];
    destruct (Q.min_spec p q) as [[H2 E2]|[H2 E2]];
    rewrite E1, E2; apply Qabs_case; intros; lra.
Qed.

(** Over the eight corners of a box, the least value of [a . c + t]. *)
Lemma corners_min : forall (a lo hi : Vector) (t : Q),
  is_min (t + Qmin (vx a * vx lo) (vx a * vx hi)
            + Qmin (vy a * vy lo) (vy a * vy hi)
            + Qmin (vz a * vz lo) (vz a * vz hi))
         (map (fun c => vdot a c + t) (box_corners (lo, hi))).
Proof.
  intros a lo hi t. unfold box_corners, vdot. cbn [map vx vy vz].
  generalize (vx a * vx lo) (vx a * vx hi) (vy a * vy lo) (vy a * vy hi)
             (vz a * vz lo) (vz a * vz hi).
  intros p1 q1 p2 q2 p3 q3.
  pose proof (Q.le_min_l p1 q1). pose proof (Q.le_min_r p1 q1).
  pose proof (Q.le_min_l p2 q2). pose proof (Q.le_min_r p2 q2).
  pose proof (Q.le_min_l p3 q3). pose proof (Q.le_min_r p3 q3).
  split.
  - intros x Hx. cbn in Hx.
    repeat (destruct Hx as [<-|Hx]; [lra|]). destruct Hx.
  - destruct (Q.min_dec p1 q1) as [E1|E1], (Q.min_dec p2 q2) as [E2|E2],
             (Q.min_dec p3 q3) as [E3|E3].
    + exists (p1 + p2 + p3 + t). split; [cbn; tauto|lra].
    + exists (p1 + p2 + q3 + t). split; [cbn; tauto|lra].
    + exists (p1 + q2 + p3 + t). split; [cbn; tauto|lra].
    + exists (p1 + q2 + q3 + t). split; [cbn; tauto|lra].
    + exists (q1 + p2 + p3 + t). split; [cbn; tauto|lra].
    + exists (q1 + p2 + q3 + t). split; [cbn; tauto|lra].
    + exists (q1 + q2 + p3 + t). split; [cbn; tauto|lra].
    + exists (q1 + q2 + q3 + t). split; [cbn; tauto|lra].
Qed.

Lemma corners_max : forall (a lo hi : Vector) (t : Q),
  is_max (t + Qmax (vx a * vx lo) (vx a * vx hi)
            + Qmax (vy a * vy lo) (vy a * vy hi)
            + Qmax (vz a * vz lo) (vz a * vz hi))
         (map (fun c => vdot a c + t) (box_corners (lo, hi))).
Proof.
  intros a lo hi t. unfold box_corners, vdot. cbn [map vx vy vz].
  generalize (vx a * vx lo) (vx a * vx hi) (vy a * vy lo) (vy a * vy hi)
             (vz a * vz lo) (vz a * vz hi).
  intros p1 q1 p2 q2 p3 q3.
  pose proof (Q.le_max_l p1 q1). pose proof (Q.le_max_r p1 q1).
  pose proof (Q.le_max_l p2 q2). pose proof (Q.le_max_r p2 q2).
  pose proof (Q.le_max_l p3 q3). pose proof (Q.le_max_r p3 q3).
  split.
  - intros x Hx. cbn in Hx.
    repeat (destruct Hx as [<-|Hx]; [lra|]). destruct Hx.
  - destruct (Q.max_dec p1 q1) as [E1|E1], (Q.max_dec p2 q2) as [E2|E2],
             (Q.max_dec p3 q3) as [E3|E3].
    + exists (p1 + p2 + p3 + t). split; [cbn; tauto|lra].
    + exists (p1 + p2 + q3 + t). split; [cbn; tauto|lra].
    + exists (p1 + q2 + p3 + t). split; [cbn; tauto|lra].
    + exists (p1 + q2 + q3 + t). split; [cbn; tauto|lra].
    + exists (q1 + p2 + p3 + t). split; [cbn; tauto|lra].
    + exists (q1 + p2 + q3 + t). split; [cbn; tauto|lra].
    + exists (q1 + q2 + p3 + t). split; [cbn; tauto|lra].
    + exists (q1 + q2 + q3 + t). split; [cbn; tauto|lra].
Qed.

Lemma vget_mat_apply : forall m c i,
  vget (mat_apply m c) i = (vdot (mrow (linear m) i) c + vget (translation m) i)%Q.
Proof. intros m c [|[|i]]; reflexivity. Qed.

Lemma world_coords_eq : forall obj i,
  world_coords obj i
  = map (fun c => vdot (mrow (linear (matrix_world obj)) i) c
                  + vget (translation (matrix_world obj)) i)
        (box_corners (bounds obj)).
Proof.
  intros obj i. unfold world_coords, bound_box. rewrite map_map.
  apply map_ext. intros c. apply vget_mat_apply.
Qed.

Lemma box_corners_nonempty : forall b, box_corners b <> [].
Proof. intros [lo hi]. discriminate. Qed.

(** The span along world axis [i] in closed form. *)
Lemma axis_dim_extent : forall obj i,
  axis_dim obj i
  == extent (mrow (linear (matrix_world obj)) i) (fst (bounds obj)) (snd (bounds obj)).
Proof.
  intros obj i. unfold axis_dim. rewrite world_coords_eq.
  destruct (bounds obj) as [lo hi]. cbn [fst snd].
  set (a := mrow (linear (matrix_world obj)) i).
  set (t := vget (translation (matrix_world obj)) i).
  assert (Hne : map (fun c => vdot a c + t) (box_corners (lo, hi)) <> []) by discriminate.
  rewrite (is_min_unique _ _ _ (py_min_is_min _ Hne) (corners_min a lo hi t)).
  rewrite (is_max_unique _ _ _ (py_max_is_max _ Hne) (corners_max a lo hi t)).
  unfold extent.
  assert (E : forall x y z, Qabs (x * (y - z)) == Qabs (x * y - x * z)).
  { intros x y z. apply Qabs_wd. ring. }
  rewrite !E, <- !Qmax_min_abs. ring.
Qed.

(** ** The longest axis *)

Lemma is_max_eq : forall m m' l, m == m' -> is_max m l -> is_max m' l.
Proof.
  intros m m' l E [H1 (x & Hx & Ex)]. split.
  - intros y Hy. rewrite <- E. now apply H1.
  - exists x. split; [exact Hx|]. now rewrite Ex.
Qed.

Lemma py_index_value : forall d0 d1 d2,
  vget (mkVector d0 d1 d2) (py_index [d0; d1; d2] (py_max [d0; d1; d2]))
  == py_max [d0; d1; d2].
Proof.
  intros d0 d1 d2.
  assert (Hne : [d0; d1; d2] <> []) by discriminate.
  destruct (py_max_is_max _ Hne) as [_ (x & Hx & Ex)].
  set (m := py_max [d0; d1; d2]) in *. cbn [py_index].
  destruct (Qeq_bool d0 m) eqn:E0; [now apply Qeq_bool_iff in E0|].
  destruct (Qeq_bool d1 m) eqn:E1; [now apply Qeq_bool_iff in E1|].
  destruct (Qeq_bool d2 m) eqn:E2; [now apply Qeq_bool_iff in E2|].
  exfalso. apply Qeq_bool_iff in Ex.
  destruct Hx as [<-|[<-|[<-|[]]]]; congruence.
Qed.

Lemma longest_is_max : forall obj,
  is_max (longest obj) [axis_dim obj 0; axis_dim obj 1; axis_dim obj 2].
Proof.
  intros obj.
  apply (is_max_eq (py_max [axis_dim obj 0; axis_dim obj 1; axis_dim obj 2])).
  - symmetry. apply py_index_value.
  - apply py_max_is_max. discriminate.
Qed.

Lemma extent_nonneg : forall a lo hi, 0 <= extent a lo hi.
Proof.
  intros a lo hi. unfold extent.
  pose proof (Qabs_nonneg (vx a * (vx lo - vx hi))).
  pose proof (Qabs_nonneg (vy a * (vy lo - vy hi))).
  pose proof (Qabs_nonneg (vz a * (vz lo - vz hi))). lra.
Qed.

Lemma longest_nonneg : forall obj, 0 <= longest obj.
Proof.
  intros obj. destruct (longest_is_max obj) as [H _].
  specialize (H (axis_dim obj 0) (or_introl eq_refl)).
  rewrite axis_dim_extent in H. pose proof (extent_nonneg
    (mrow (linear (matrix_world obj)) 0) (fst (bounds obj)) (snd (bounds obj))). lra.
Qed.


(** ** Scaling *)

(** The linear part of the world matrix is a matrix that does not depend
    on the scale, times the scale on each column. *)
Lemma world_linear_scale : forall obj i,
  let a := mrow (linear (matrix_world obj)) i in
  let u := mrow (linear (matrix_world (set_scale obj (mkVector 1 1 1)))) i in
  vx a == vx u * vx (scale obj) /\
  vy a == vy u * vy (scale obj) /\
  vz a == vz u * vz (scale obj).
Proof.
  intros [id nm dt loc rot [sx sy sz] par pw pinv edt ms] i.
  unfold matrix_world, set_scale. cbn [parent scale rotation location parent_world
    matrix_parent_inverse ob_id ob_name data empty_display_type material_slots].
  destruct par as [p|]; destruct i as [|[|i]];
    cbn [mrow linear matrix_basis mat_mul m3_mul m3_diag col vget vdot row0 row1 row2
         vx vy vz mat_apply vadd m3_apply translation scale rotation location];
    repeat split;
    repeat (progress (unfold vdot, col, m3_mul, m3_diag, vget;
                      cbn [vx vy vz row0 row1 row2]));
    ring.
Qed.

(** The closed form of an axis span in terms of that matrix. *)
Lemma axis_dim_unscaled : forall obj i,
  let u := mrow (linear (matrix_world (set_scale obj (mkVector 1 1 1)))) i in
  let lo := fst (bounds obj) in
  let hi := snd (bounds obj) in
  axis_dim obj i
  == Qabs (vx u) * Qabs (vx (scale obj)) * Qabs (vx lo - vx hi)
     + Qabs (vy u) * Qabs (vy (scale obj)) * Qabs (vy lo - vy hi)
     + Qabs (vz u) * Qabs (vz (scale obj)) * Qabs (vz lo - vz hi).
Proof.
  intros obj i u lo hi. rewrite axis_dim_extent. unfold extent. fold lo hi.
  destruct (world_linear_scale obj i) as (Ex & Ey & Ez). fold u in Ex, Ey, Ez.
  rewrite Ex, Ey, Ez, !Qabs_Qmult. reflexivity.
Qed.

Lemma scale_only_dims : forall obj f i,
  0 <= f ->
  axis_dim (set_scale obj (vscale (scale obj) f)) i == f * axis_dim obj i.
Proof.
  intros obj f i Hf. rewrite !axis_dim_unscaled.
  change (set_scale (set_scale obj (vscale (scale obj) f)) (mkVector 1 1 1))
    with (set_scale obj (mkVector 1 1 1)).
  change (bounds (set_scale obj (vscale (scale obj) f))) with (bounds obj).
  cbn [scale set_scale vscale vx vy vz].
  rewrite !Qabs_Qmult, (Qabs_pos f Hf). ring.
Qed.

Lemma py_minmax_scaled : forall l k,
  l <> [] ->
  Qabs (py_min (map (fun x => x * k) l) - py_max (map (fun x => x * k) l))
  == Qabs k * Qabs (py_min l - py_max l).
Proof.
  intros l k Hne.
  assert (Hne' : map (fun x => x * k) l <> []) by (destruct l; [contradiction|discriminate]).
  pose proof (py_min_is_min _ Hne) as Hmin. pose proof (py_max_is_max _ Hne) as Hmax.
  pose proof (py_min_is_min _ Hne') as Hmin'. pose proof (py_max_is_max _ Hne') as Hmax'.
  rewrite <- Qabs_Qmult.
  destruct (Qlt_le_dec k 0) as [Hk|Hk].
  - assert (Hk' : k <= 0) by lra.
    rewrite (is_min_unique _ _ _ Hmin' (is_min_scale_neg k _ _ Hk' Hmax)).
    rewrite (is_max_unique _ _ _ Hmax' (is_max_scale_neg k _ _ Hk' Hmin)).
    rewrite <- (Qabs_opp (k * _)). apply Qabs_wd. ring.
  - rewrite (is_min_unique _ _ _ Hmin' (is_min_scale_pos k _ _ Hk Hmin)).
    rewrite (is_max_unique _ _ _ Hmax' (is_max_scale_pos k _ _ Hk Hmax)).
    apply Qabs_wd. ring.
Qed.

Lemma bounds_of_baked : forall s vs,
  let b := bounds_of vs in
  let b' := bounds_of (bake_vertices s vs) in
  Qabs (vx (fst b') - vx (snd b')) == Qabs (vx s) * Qabs (vx (fst b) - vx (snd b)) /\
  Qabs (vy (fst b') - vy (snd b')) == Qabs (vy s) * Qabs (vy (fst b) - vy (snd b)) /\
  Qabs (vz (fst b') - vz (snd b')) == Qabs (vz s) * Qabs (vz (fst b) - vz (snd b)).
Proof.
  intros s vs. destruct vs as [|v vs].
  - cbn. repeat split; rewrite Qmult_0_r; reflexivity.
  - cbv zeta. unfold bake_vertices.
    change (bounds_of (map _ (v :: vs))) with
      (let ws := map (fun co => mkVector (vx co * vx s) (vy co * vy s) (vz co * vz s))
                     (v :: vs) in
       (mkVector (py_min (map vx ws)) (py_min (map vy ws)) (py_min (map vz ws)),
        mkVector (py_max (map vx ws)) (py_max (map vy ws)) (py_max (map vz ws)))).
    change (bounds_of (v :: vs)) with
      (mkVector (py_min (map vx (v :: vs))) (py_min (map vy (v :: vs)))
                (py_min (map vz (v :: vs))),
       mkVector (py_max (map vx (v :: vs))) (py_max (map vy (v :: vs)))
                (py_max (map vz (v :: vs)))).
    cbv zeta. cbn [fst snd vx vy vz]. rewrite !map_map. cbn [vx vy vz].
    rewrite <- !(map_map vx (fun x => x * vx s)).
    rewrite <- !(map_map vy (fun x => x * vy s)).
    rewrite <- !(map_map vz (fun x => x * vz s)).
    repeat split; apply py_minmax_scaled; discriminate.
Qed.

Lemma baked_dims : forall obj vs i,
  data obj = MeshData vs ->
  axis_dim (set_scale (set_data obj (MeshData (bake_vertices (scale obj) vs)))
                      (mkVector 1 1 1)) i
  == axis_dim obj i.
Proof.
  intros obj vs i Hd. rewrite !axis_dim_unscaled.
  change (set_scale (set_scale (set_data obj (MeshData (bake_vertices (scale obj) vs)))
                               (mkVector 1 1 1)) (mkVector 1 1 1))
    with (set_scale (set_data obj (MeshData (bake_vertices (scale obj) vs)))
                    (mkVector 1 1 1)).
  change (mrow (linear (matrix_world
            (set_scale (set_data obj (MeshData (bake_vertices (scale obj) vs)))
                       (mkVector 1 1 1)))) i)
    with (mrow (linear (matrix_world (set_scale obj (mkVector 1 1 1)))) i).
  unfold bounds at 1 2 3 4 5 6. cbn [data set_scale set_data scale vx vy vz].
  unfold bounds. rewrite Hd.
  destruct (bounds_of_baked (scale obj) vs) as (Ex & Ey & Ez). cbv zeta in Ex, Ey, Ez.
  rewrite Ex, Ey, Ez.
  assert (E1 : Qabs 1 == 1) by reflexivity. rewrite E1. ring.
Qed.

Lemma scale_to_reference_id : forall ref_size b obj,
  ob_id (scale_to_reference ref_size b obj) = ob_id obj.
Proof.
  intros ref_size b obj. unfold scale_to_reference.
  destruct (Qeq_bool _ _); [reflexivity|].
  cbn [data set_scale]. destruct (data obj); [reflexivity| |reflexivity].
  destruct b; reflexivity.
Qed.



(** The factor is the same on the three axes. *)
Lemma scale_to_reference_homothetic : forall ref_size obj,
  ~ longest obj == 0 ->
  scale (scale_to_reference ref_size false obj)
  = vscale (scale obj) (ref_size / longest obj) /\
  data (scale_to_reference ref_size false obj) = data obj /\
  forall vs,
    data obj = MeshData vs ->
    scale (scale_to_reference ref_size true obj) = mkVector 1 1 1 /\
    data (scale_to_reference ref_size true obj)
    = MeshData (bake_vertices (vscale (scale obj) (ref_size / longest obj)) vs).
Proof.
  intros R obj HL. unfold scale_to_reference. fold (longest obj).
  destruct (Qeq_bool (longest obj) 0) eqn:E; [apply Qeq_bool_iff in E; contradiction|].
  change (data (set_scale obj (vscale (scale obj) (R / longest obj))))
    with (data obj).
  split; [|split].
  - destruct (data obj); reflexivity.
  - destruct (data obj) eqn:Ed; exact Ed.
  - intros vs Hd. rewrite Hd. split; reflexivity.
Qed.

(** ** Scale matching on [bpy.data] *)

Lemma objects_get_id : forall i d o, objects_get i d = Some o -> ob_id o = i.
Proof.
  intros i d o H. unfold objects_get in H. apply find_some in H.
  destruct H as [_ H]. now apply Nat.eqb_eq in H.
Qed.

Lemma objects_get_set_same : forall i o' d,
  objects_get i d <> None -> ob_id o' = i ->
  objects_get i (objects_set i o' d) = Some o'.
Proof.
  intros i o' d Hex Hid. unfold objects_get, objects_set in *. cbn [objects].
  induction (objects d) as [|o r IH]; [contradiction|]. cbn in *.
  destruct (Nat.eqb (ob_id o) i) eqn:E.
  - rewrite Hid, Nat.eqb_refl. reflexivity.
  - rewrite E. apply IH. exact Hex.
Qed.

Lemma objects_get_set_other : forall i j o' d,
  j <> i -> ob_id o' = i ->
  objects_get j (objects_set i o' d) = objects_get j d.
Proof.
  intros i j o' d Hne Hid. unfold objects_get, objects_set. cbn [objects].
  induction (objects d) as [|o r IH]; [reflexivity|]. cbn.
  destruct (Nat.eqb (ob_id o) i) eqn:E.
  - apply Nat.eqb_eq in E. rewrite Hid.
    destruct (Nat.eqb_spec i j) as [->|_]; [contradiction|].
    destruct (Nat.eqb_spec (ob_id o) j) as [Ej|_]; [congruence|]. exact IH.
  - destruct (Nat.eqb (ob_id o) j); [reflexivity|exact IH].
Qed.

Lemma with_object_spec : forall i f d o,
  objects_get i d = Some o ->
  ob_id (f o) = ob_id o ->
  with_object i f d = (Ok tt, objects_set i (f o) d) /\
  objects_get i (objects_set i (f o) d) = Some (f o) /\
  forall j, j <> i -> objects_get j (objects_set i (f o) d) = objects_get j d.
Proof.
  intros i f d o Hget Hid. pose proof (objects_get_id _ _ _ Hget) as Hi.
  split; [|split].
  - unfold with_object, bind, deref. now rewrite Hget.
  - apply objects_get_set_same; congruence.
  - intros j Hj. apply objects_get_set_other; congruence.
Qed.




(** ** Centering *)

Lemma veq_refl : forall v, veq v v.
Proof. intros v. repeat split; reflexivity. Qed.

Lemma veq_trans : forall a b c, veq a b -> veq b c -> veq a c.
Proof.
  intros a b c (H1 & H2 & H3) (H4 & H5 & H6).
  repeat split; etransitivity; eassumption.
Qed.

Lemma box_center_formula : forall lo hi,
  veq (vdiv (fold_left vadd (box_corners (lo, hi)) Vector0) (8 # 1))
      (mkVector ((vx lo + vx hi) / 2) ((vy lo + vy hi) / 2) ((vz lo + vz hi) / 2)).
Proof.
  intros lo hi. unfold box_corners, vdiv, vadd, Vector0.
  cbn [fold_left vx vy vz]. repeat split; cbn [vx vy vz]; field.
Qed.


Lemma basis_at_zero : forall obj c,
  parent obj = None -> veq c Vector0 ->
  veq (mat_apply (matrix_world obj) c) (location obj).
Proof.
  intros obj c Hp (Hx & Hy & Hz). cbn in Hx, Hy, Hz.
  unfold matrix_world. rewrite Hp.
  unfold matrix_basis, mat_apply, vadd, m3_apply, vdot, veq.
  cbn [linear translation vx vy vz]. rewrite Hx, Hy, Hz. repeat split; ring.
Qed.



Lemma bounds_of_shifted : forall c v vs,
  let b := bounds_of (v :: vs) in
  let b' := bounds_of (map (fun co => vsub co c) (v :: vs)) in
  veq (fst b') (vsub (fst b) c) /\ veq (snd b') (vsub (snd b) c).
Proof.
  intros c v vs.
  change (bounds_of (v :: vs)) with
    (mkVector (py_min (map vx (v :: vs))) (py_min (map vy (v :: vs)))
              (py_min (map vz (v :: vs))),
     mkVector (py_max (map vx (v :: vs))) (py_max (map vy (v :: vs)))
              (py_max (map vz (v :: vs)))).
  change (bounds_of (map (fun co => vsub co c) (v :: vs))) with
    (let ws := map (fun co => vsub co c) (v :: vs) in
     (mkVector (py_min (map vx ws)) (py_min (map vy ws)) (py_min (map vz ws)),
      mkVector (py_max (map vx ws)) (py_max (map vy ws)) (py_max (map vz ws)))).
  cbv zeta. cbn [fst snd]. unfold veq, vsub at 7 8. cbn [vx vy vz].
  rewrite !map_map. unfold vsub. cbn [vx vy vz].
  rewrite <- !(map_map vx (fun x => x - vx c)).
  rewrite <- !(map_map vy (fun x => x - vy c)).
  rewrite <- !(map_map vz (fun x => x - vz c)).
  assert (Hmin : forall l, l <> [] -> forall k,
             py_min (map (fun x => x - k) l) == py_min l - k).
  { intros l Hl k. apply (is_min_unique _ _ (map (fun x => x - k) l)).
    - apply py_min_is_min. destruct l; [contradiction|discriminate].
    - apply is_min_shift. now apply py_min_is_min. }
  assert (Hmax : forall l, l <> [] -> forall k,
             py_max (map (fun x => x - k) l) == py_max l - k).
  { intros l Hl k. apply (is_max_unique _ _ (map (fun x => x - k) l)).
    - apply py_max_is_max. destruct l; [contradiction|discriminate].
    - apply is_max_shift. now apply py_max_is_max. }
  repeat split; first [apply Hmin|apply Hmax]; discriminate.
Qed.

(** After centering, the centre of the bounding box is the local origin. *)
Lemma set_origin_centers : forall obj v vs,
  data obj = MeshData (v :: vs) ->
  veq (bbox_center (set_origin_to_geometry obj)) Vector0.
Proof.
  intros obj v vs Hd. unfold set_origin_to_geometry. rewrite Hd.
  fold (bbox_center obj). unfold bbox_center at 1, bound_box at 1, bounds at 1.
  cbn [data set_location set_data].
  assert (Hc : veq (bbox_center obj)
                   (mkVector ((vx (fst (bounds_of (v :: vs))) + vx (snd (bounds_of (v :: vs)))) / 2)
                             ((vy (fst (bounds_of (v :: vs))) + vy (snd (bounds_of (v :: vs)))) / 2)
                             ((vz (fst (bounds_of (v :: vs))) + vz (snd (bounds_of (v :: vs)))) / 2))).
  { unfold bbox_center, bound_box, bounds. rewrite Hd.
    destruct (bounds_of (v :: vs)) as [lo hi]. apply box_center_formula. }
  destruct (bounds_of_shifted (bbox_center obj) v vs) as [Hlo Hhi]. cbv zeta in Hlo, Hhi.
  destruct (bounds_of (map (fun co => vsub co (bbox_center obj)) (v :: vs))) as [lo' hi'].
  eapply veq_trans; [apply box_center_formula|].
  destruct (bounds_of (v :: vs)) as [lo hi]. cbn [fst snd] in *.
  destruct Hlo as (L1 & L2 & L3), Hhi as (U1 & U2 & U3), Hc as (C1 & C2 & C3).
  unfold vsub in *. cbn [vx vy vz] in *. unfold veq, Vector0. cbn [vx vy vz].
  rewrite L1, L2, L3, U1, U2, U3, C1, C2, C3. repeat split; field.
Qed.


Lemma set_origin_parent : forall obj,
  parent (set_origin_to_geometry obj) = parent obj.
Proof.
  intros obj. unfold set_origin_to_geometry.
  destruct (data obj) as [|[|v vs]|]; reflexivity.
Qed.




(** * Properties of collections, pipeline and operator *)

(** ** Name generation *)

Lemma probe_first_free : forall base d n i k,
  (k < n)%nat ->
  (forall j, (i <= j < i + k)%nat -> in_collections (candidate base j) d = true) ->
  in_collections (candidate base (i + k)) d = false ->
  probe base d i n = Some (candidate base (i + k)).
Proof.
  induction n as [|n IH]; intros i k Hk Htaken Hfree; [lia|].
  destruct k as [|k].
  - rewrite Nat.add_0_r in *. simpl. now rewrite Hfree.
  - simpl. rewrite (Htaken i) by lia.
    replace (i + S k)%nat with (S i + k)%nat in * by lia.
    apply IH; [lia | | assumption].
    intros j Hj. apply Htaken. lia.
Qed.

Lemma probe_exhausted : forall base d n i,
  (forall j, (i <= j < i + n)%nat -> in_collections (candidate base j) d = true) ->
  probe base d i n = None.
Proof.
  induction n as [|n IH]; intros i Htaken; [reflexivity|].
  simpl. rewrite (Htaken i) by lia.
  apply IH. intros j Hj. apply Htaken. lia.
Qed.

(** C5. [unique_collection_name] returns the base name when no collection
    holds it; otherwise the first of base_001 ... base_999, in ascending
    order, that no collection holds; and raises when the base name and all
    999 candidates are taken.  It never changes [bpy.data]. *)
Theorem unique_collection_name_spec : forall (base : string) (d : BlendData),
  candidate base 1 = (base ++ "_001")%string /\
  candidate base 999 = (base ++ "_999")%string /\
  (in_collections base d = false ->
   unique_collection_name base d = (Ok base, d)) /\
  (in_collections base d = true ->
   forall i, (1 <= i <= 999)%nat ->
     (forall j, (1 <= j < i)%nat -> in_collections (candidate base j) d = true) ->
     in_collections (candidate base i) d = false ->
     unique_collection_name base d = (Ok (candidate base i), d)) /\
  (in_collections base d = true ->
   (forall j, (1 <= j <= 999)%nat -> in_collections (candidate base j) d = true) ->
   unique_collection_name base d =
     (Raise ("All suffixes exhausted for collection '" ++ base ++ "'")%string, d)).
Proof.
  intros base d. split; [reflexivity|]. split; [reflexivity|].
  unfold unique_collection_name. repeat split.
  - intros H. now rewrite H.
  - intros H i Hi Htaken Hfree. rewrite H. cbn [negb].
    rewrite (probe_first_free base d 999 1 (i - 1)).
    + now replace (1 + (i - 1))%nat with i by lia.
    + lia.
    + intros j Hj. apply Htaken. lia.
    + now replace (1 + (i - 1))%nat with i by lia.
  - intros H Htaken. rewrite H. cbn [negb].
    rewrite probe_exhausted; [reflexivity|].
    intros j Hj. apply Htaken. lia.
Qed.

Lemma unique_collection_name_spec_witness :
  unique_collection_name "B" scene_A_A001 = (Ok "B", scene_A_A001) /\
  unique_collection_name "A" scene_A_A001 = (Ok "A_002", scene_A_A001) /\
  unique_collection_name "A" scene_exhausted =
    (Raise "All suffixes exhausted for collection 'A'", scene_exhausted).
Proof.
  split; [|split].
  - apply (unique_collection_name_spec "B" scene_A_A001). reflexivity.
  - apply (proj1 (proj2 (proj2 (proj2 (unique_collection_name_spec "A" scene_A_A001))))
             eq_refl 2%nat).
    + lia.
    + intros j Hj. assert (j = 1%nat) by lia. subst j. reflexivity.
    + reflexivity.
  - apply (proj2 (proj2 (proj2 (proj2 (unique_collection_name_spec "A" scene_exhausted))))).
    + vm_compute. reflexivity.
    + assert (H : forallb (fun j => in_collections (candidate "A" j) scene_exhausted)
                          (seq 1 999) = true) by (vm_compute; reflexivity).
      rewrite forallb_forall in H.
      intros j Hj. apply H. apply in_seq. lia.
Defined.

(** ** The operator: one tick, the terminal paths, a whole job *)

Lemma getitem_in_range : forall (A S : Type) (xs : list A) (i : Z),
  (0 <= i < len xs)%Z ->
  exists x, nth_error xs (Z.to_nat i) = Some x /\ @getitem A S xs i = ret x.
Proof.
  intros A S xs i Hi. unfold getitem, len in *.
  destruct (Z.ltb_spec i 0) as [Hn|_]; [lia|].
  destruct (Z.leb_spec 0 i) as [_|Hn]; [|lia].
  destruct (Z.ltb_spec i (Z.of_nat (List.length xs))) as [_|Hn]; [|lia].
  cbn [andb].
  destruct (nth_error xs (Z.to_nat i)) as [x|] eqn:E.
  - exists x. split; reflexivity.
  - apply nth_error_None in E. lia.
Qed.

(** The effect of one TIMER tick while files remain. *)
Lemma modal_timer_step : forall host undo0 timer s,
  job_inv undo0 timer s ->
  (_index (cls s) < _total (cls s))%Z ->
  exists filepath s',
    nth_error (_obj_files (cls s)) (Z.to_nat (_index (cls s))) = Some filepath /\
    modal host TIMER s = (Ok PASS_THROUGH, s') /\
    job_inv undo0 timer s' /\
    _index (cls s') = (_index (cls s) + 1)%Z /\
    _total (cls s') = _total (cls s) /\
    _obj_files (cls s') = _obj_files (cls s) /\
    _settings (cls s') = _settings (cls s) /\
    use_global_undo (context s') = use_global_undo (context s) /\
    timers (context s') = timers (context s) /\
    autoingest (context s') = autoingest (context s) /\
    reports (context s') = reports (context s) /\
    let rs := process_single_obj host filepath (_settings (cls s))
                (mkPipelineState (bpy s) (_created_collections (cls s))) in
    bpy s' = bpy_data (snd rs) /\
    _created_collections (cls s') = created_collections (snd rs) /\
    _errors (cls s') =
      match fst rs with
      | Ok _ => _errors (cls s)
      | Raise e => _errors (cls s) ++ [(path_name filepath ++ ": " ++ e)%string]
      end.
Proof.
  intros host undo0 timer s (Ht & Htot & Hidx & Hundo) Hlt.
  destruct (getitem_in_range Path State (_obj_files (cls s)) (_index (cls s)))
    as (filepath & Hnth & Hget); [lia|].
  exists filepath.
  unfold modal, bind, gets. cbn beta iota.
  destruct (Z.geb_spec (_index (cls s)) (_total (cls s))) as [Hge|_]; [lia|].
  destruct (Z.eqb_spec (_total (cls s)) 0) as [H0|_]; [lia|].
  unfold ret at 1, modify at 1 2. cbn beta iota.
  rewrite Hget. unfold ret at 1. cbn beta iota.
  unfold try_except, on_pipeline. cbn [bpy cls set_context].
  destruct (process_single_obj host filepath (_settings (cls s))
              (mkPipelineState (bpy s) (_created_collections (cls s))))
    as [[[]|e] ps] eqn:E; cbn.
  - eexists. split; [exact Hnth|]. split; [reflexivity|].
    destruct s as [b c ctx t]; unfold job_inv; cbn in *.
    repeat split; try assumption; try reflexivity; lia.
  - eexists. split; [exact Hnth|]. split; [reflexivity|].
    destruct s as [b c ctx t]; unfold job_inv; cbn in *.
    repeat split; try assumption; try reflexivity; lia.
Qed.

Lemma str_append_assoc : forall a b c : string,
  ((a ++ b) ++ c = a ++ (b ++ c))%string.
Proof.
  induction a as [|ch a IH]; intros b c; cbn; [reflexivity|]. now rewrite IH.
Qed.

Lemma fold_print : forall (f : string -> string) es c,
  fold_left (fun k e => print (f e) k) es c =
  mkContext (autoingest c) (autoingest_progress c) (autoingest_running c)
    (use_global_undo c) (timers c) (next_timer c) (modal_handlers c) (windows c)
    (view_layer_updates c) (redraw_tags c) (reports c) (console c ++ map f es).
Proof.
  induction es as [|e es IH]; intros c; cbn [fold_left map].
  - rewrite app_nil_r. now destruct c.
  - rewrite IH. unfold print. cbn. now rewrite <- app_assoc.
Qed.

(** The effect of [_finish] once [invoke] has stored a timer. *)
Lemma finish_effect : forall cancelled s timer,
  _timer s = Some timer ->
  exists ctx',
    _finish cancelled s = (Ok FINISHED, set_context ctx' s) /\
    use_global_undo ctx' = _undo_was_enabled (cls s) /\
    timers ctx' = filter (fun u => negb (Nat.eqb u timer)) (timers (context s)) /\
    autoingest_progress ctx' = 0%Z /\
    autoingest_running ctx' = false /\
    autoingest ctx' = autoingest (context s) /\
    next_timer ctx' = next_timer (context s) /\
    modal_handlers ctx' = modal_handlers (context s) /\
    windows ctx' = windows (context s) /\
    view_layer_updates ctx' = view_layer_updates (context s) /\
    redraw_tags ctx' = redraw_tags (context s) /\
    (cancelled = true ->
     console ctx' = console (context s) /\
     reports ctx' =
       reports (context s)
       ++ [("WARNING",
            ("Import cancelled after " ++ str_int (_index (cls s)) ++ "/"
             ++ str_int (_total (cls s)) ++ " files.")%string)]) /\
    (cancelled = false ->
     exists rest,
       reports ctx' =
         reports (context s)
         ++ [("INFO",
              ("AutoIngest: " ++ str_int (_total (cls s) - len (_errors (cls s)))
               ++ " OBJ(s) imported." ++ rest)%string)] /\
       (_errors (cls s) = [] -> rest = "")).
Proof.
  intros cancelled s timer Ht. unfold _finish. rewrite Ht.
  eexists. split; [reflexivity|].
  destruct cancelled.
  - cbn. repeat split; try reflexivity; intros; discriminate.
  - destruct (_errors (cls s)) as [|e es] eqn:E.
    + cbn. repeat split; try reflexivity; try (intros; discriminate).
      intros _. exists "". split; reflexivity.
    + rewrite (fold_print (fun e => ("[AutoIngest ERROR] " ++ e)%string)).
      cbn. repeat split; try reflexivity; try (intros; discriminate).
      intros _. eexists. split; [|intros; discriminate].
      rewrite !str_append_assoc. reflexivity.
Qed.

Lemma modal_timer_done : forall host s,
  (_total (cls s) <= _index (cls s))%Z ->
  modal host TIMER s = _finish false s.
Proof.
  intros host s H. unfold modal, bind, gets. cbn beta iota.
  destruct (Z.geb_spec (_index (cls s)) (_total (cls s))) as [_|Hlt]; [reflexivity|lia].
Qed.

(** What a successful [invoke] sets up. *)
Lemma invoke_running : forall host s s1,
  invoke host s = (Ok RUNNING_MODAL, s1) ->
  job_inv (use_global_undo (context s)) (next_timer (context s)) s1 /\
  use_global_undo (context s1) = false /\
  bpy s1 = bpy s /\
  _index (cls s1) = 0%Z /\
  _errors (cls s1) = [] /\
  _created_collections (cls s1) = [] /\
  _obj_files (cls s1) = collect_obj_files host (folder_path (autoingest (context s))) /\
  _settings (cls s1) =
    Some (let props := autoingest (context s) in
          Settings.mk (up_axis props) (center_pivots props) (use_scale_ref props)
            (reference_object props) (apply_scale props) (replace_existing props)
            (diffuse_as_emissive props)).
Proof.
  intros host s s1. unfold invoke.
  destruct (_ || _)%bool; [discriminate|].
  destruct (_ && _)%bool; [discriminate|].
  destruct (collect_obj_files host _) as [|f fs] eqn:E; [discriminate|].
  cbn. intros H. injection H as <-. unfold job_inv. cbn.
  repeat split; try reflexivity; lia.
Qed.

Lemma job_inv_edit : forall undo0 timer s p,
  job_inv undo0 timer s ->
  job_inv undo0 timer (set_context (set_autoingest p (context s)) s).
Proof. intros undo0 timer s p H. exact H. Qed.

(** However the event loop ends, it ends through [_finish], with the
    teardown done. *)
Lemma run_modal_teardown : forall host events undo0 timer s res s',
  job_inv undo0 timer s ->
  run_modal host events s = (Some res, s') ->
  res = Ok FINISHED /\
  use_global_undo (context s') = undo0 /\
  ~ In timer (timers (context s')) /\
  autoingest_progress (context s') = 0%Z /\
  autoingest_running (context s') = false.
Proof.
  intros host events. induction events as [|ev events IH];
    intros undo0 timer s res s' Hinv Hrun; cbn [run_modal] in Hrun.
  - discriminate.
  - assert (Hdone : forall cancelled,
               match _finish cancelled s with
               | (Ok PASS_THROUGH, s0) | (Ok RUNNING_MODAL, s0) => run_modal host events s0
               | (r, s0) => (Some r, s0)
               end = (Some res, s') ->
               res = Ok FINISHED /\
               use_global_undo (context s') = undo0 /\
               ~ In timer (timers (context s')) /\
               autoingest_progress (context s') = 0%Z /\
               autoingest_running (context s') = false).
    { intros cancelled H.
      destruct Hinv as (Ht & _ & _ & Hundo).
      destruct (finish_effect cancelled s timer Ht)
        as (ctx' & Hf & Hu & Htm & Hp & Hr & _).
      rewrite Hf in H. injection H as <- <-. cbn.
      repeat split; try assumption; try congruence.
      rewrite Htm. intros Hin. apply filter_In in Hin. destruct Hin as [_ Hin].
      now rewrite Nat.eqb_refl in Hin. }
    destruct ev as [[| |ty]|p].
    + (* ESC *) exact (Hdone true Hrun).
    + (* TIMER *)
      destruct (Z.lt_ge_cases (_index (cls s)) (_total (cls s))) as [Hlt|Hge].
      * destruct (modal_timer_step host undo0 timer s Hinv Hlt)
          as (fp & s1 & _ & Hm & Hinv1 & _).
        rewrite Hm in Hrun. exact (IH _ _ _ _ _ Hinv1 Hrun).
      * rewrite (modal_timer_done host s Hge) in Hrun. exact (Hdone false Hrun).
    + (* any other event *) cbn in Hrun. exact (IH _ _ _ _ _ Hinv Hrun).
    + (* an edit of the panel *)
      exact (IH _ _ _ _ _ (job_inv_edit _ _ _ p Hinv) Hrun).
Qed.

(** TIMER ticks alone drive the job through every remaining file and then
    to its end, whatever the pipeline does on each file. *)
Lemma ticks_process_all : forall host n undo0 timer s,
  job_inv undo0 timer s ->
  Z.of_nat n = (_total (cls s) - _index (cls s))%Z ->
  exists sn,
    run_modal host (ticks n) s = (None, sn) /\
    job_inv undo0 timer sn /\
    _index (cls sn) = _total (cls sn) /\
    _total (cls sn) = _total (cls s).
Proof.
  intros host n. induction n as [|n IH]; intros undo0 timer s Hinv Hn.
  - exists s. cbn. split; [reflexivity|]. split; [assumption|].
    split; [lia|reflexivity].
  - destruct (modal_timer_step host undo0 timer s Hinv)
      as (fp & s1 & _ & Hm & Hinv1 & Hi & Ht & _); [lia|].
    destruct (IH undo0 timer s1 Hinv1) as (sn & Hrun & Hinvn & Hin & Htn); [lia|].
    exists sn. unfold ticks. cbn [repeat run_modal]. rewrite Hm.
    split; [exact Hrun|]. split; [assumption|]. split; [assumption|congruence].
Qed.

Lemma run_modal_app : forall host ev1 ev2 s s1,
  run_modal host ev1 s = (None, s1) ->
  run_modal host (ev1 ++ ev2) s = run_modal host ev2 s1.
Proof.
  intros host ev1. induction ev1 as [|e ev1 IH]; intros ev2 s s1 H; cbn in *.
  - now injection H as <-.
  - destruct e as [e|p].
    + destruct (modal host e s) as [[[]|] s0]; try discriminate; now apply IH.
    + now apply IH.
Qed.

Lemma ticks_finish : forall host undo0 timer s,
  job_inv undo0 timer s ->
  (_index (cls s) <= _total (cls s))%Z ->
  exists s',
    run_modal host (ticks (S (Z.to_nat (_total (cls s) - _index (cls s))))) s
    = (Some (Ok FINISHED), s').
Proof.
  intros host undo0 timer s Hinv Hle.
  destruct (ticks_process_all host (Z.to_nat (_total (cls s) - _index (cls s)))
              undo0 timer s Hinv) as (sn & Hrun & Hinvn & Hin & _); [lia|].
  unfold ticks in *.
  replace (S (Z.to_nat (_total (cls s) - _index (cls s))))
    with (Z.to_nat (_total (cls s) - _index (cls s)) + 1)%nat by lia.
  rewrite repeat_app, (run_modal_app _ _ _ _ _ Hrun). cbn [repeat run_modal].
  rewrite modal_timer_done by lia.
  destruct Hinvn as (Ht & _).
  destruct (finish_effect false sn timer Ht) as (ctx' & Hf & _).
  rewrite Hf. eexists. reflexivity.
Qed.

Lemma run_modal_inv : forall host events undo0 timer s s',
  job_inv undo0 timer s ->
  run_modal host events s = (None, s') ->
  job_inv undo0 timer s'.
Proof.
  intros host events. induction events as [|ev events IH];
    intros undo0 timer s s' Hinv Hrun; cbn [run_modal] in Hrun.
  - now injection Hrun as <-.
  - destruct ev as [[| |ty]|p].
    + destruct Hinv as (Ht & _).
      destruct (finish_effect true s timer Ht) as (ctx' & Hf & _).
      unfold modal in Hrun. rewrite Hf in Hrun. discriminate.
    + destruct (Z.lt_ge_cases (_index (cls s)) (_total (cls s))) as [Hlt|Hge].
      * destruct (modal_timer_step host undo0 timer s Hinv Hlt)
          as (fp & s1 & _ & Hm & Hinv1 & _).
        rewrite Hm in Hrun. exact (IH _ _ _ _ Hinv1 Hrun).
      * rewrite (modal_timer_done host s Hge) in Hrun.
        destruct Hinv as (Ht & _).
        destruct (finish_effect false s timer Ht) as (ctx' & Hf & _).
        rewrite Hf in Hrun. discriminate.
    + cbn in Hrun. exact (IH _ _ _ _ Hinv Hrun).
    + exact (IH _ _ _ _ (job_inv_edit _ _ _ p Hinv) Hrun).
Qed.

(** C3. Per-file error containment.  On a TIMER tick with files left, an
    exception raised by the pipeline of the current file is caught: the
    tick returns PASS_THROUGH, the error list gains the entry
    "<file name>: <message>", the cursor advances by one; and further
    ticks go through every remaining file and reach the end of the job. *)
Theorem per_file_error_containment : forall host undo0 timer s,
  job_inv undo0 timer s ->
  (_index (cls s) < _total (cls s))%Z ->
  exists filepath s',
    nth_error (_obj_files (cls s)) (Z.to_nat (_index (cls s))) = Some filepath /\
    modal host TIMER s = (Ok PASS_THROUGH, s') /\
    _index (cls s') = (_index (cls s) + 1)%Z /\
    job_inv undo0 timer s' /\
    (forall e ps,
        process_single_obj host filepath (_settings (cls s))
          (mkPipelineState (bpy s) (_created_collections (cls s))) = (Raise e, ps) ->
        _errors (cls s') = _errors (cls s) ++ [(path_name filepath ++ ": " ++ e)%string] /\
        bpy s' = bpy_data ps) /\
    (forall ps,
        process_single_obj host filepath (_settings (cls s))
          (mkPipelineState (bpy s) (_created_collections (cls s))) = (Ok tt, ps) ->
        _errors (cls s') = _errors (cls s)) /\
    (exists sn,
        run_modal host (ticks (Z.to_nat (_total (cls s) - _index (cls s)))) s = (None, sn) /\
        _index (cls sn) = _total (cls s)) /\
    (exists sf,
        run_modal host (ticks (S (Z.to_nat (_total (cls s) - _index (cls s))))) s
        = (Some (Ok FINISHED), sf)).
Proof.
  intros host undo0 timer s Hinv Hlt.
  destruct (modal_timer_step host undo0 timer s Hinv Hlt)
    as (fp & s1 & Hnth & Hm & Hinv1 & Hi & _ & _ & _ & _ & _ & _ & _ & Hb & _ & He).
  exists fp, s1. repeat split; try assumption; try apply Hinv1.
  - rewrite He, H. reflexivity.
  - rewrite Hb, H. reflexivity.
  - intros ps H. rewrite He, H. reflexivity.
  - destruct (ticks_process_all host (Z.to_nat (_total (cls s) - _index (cls s)))
                undo0 timer s Hinv) as (sn & Hrun & _ & Hin & Htn); [lia|].
    exists sn. split; [exact Hrun|congruence].
  - apply (ticks_finish host undo0 timer s Hinv). lia.
Qed.

(** C4. Terminal teardown.  After a successful [invoke] (which disables
    global undo), however the event loop ends - ESC or all files done -
    it ends with FINISHED, the timer removed, global undo back at the
    value it had when the job started, progress 0 and the running flag
    cleared, whatever errors the files produced; and both ends are
    reachable: ESC ends a running job at once, and one tick per file plus
    one ends it too. *)
Theorem teardown_on_termination : forall host s s1,
  invoke host s = (Ok RUNNING_MODAL, s1) ->
  use_global_undo (context s1) = false /\
  _timer s1 = Some (next_timer (context s)) /\
  (forall events res s',
      run_modal host events s1 = (Some res, s') ->
      res = Ok FINISHED /\
      use_global_undo (context s') = use_global_undo (context s) /\
      ~ In (next_timer (context s)) (timers (context s')) /\
      autoingest_progress (context s') = 0%Z /\
      autoingest_running (context s') = false) /\
  (forall events sk,
      run_modal host events s1 = (None, sk) ->
      exists s', run_modal host (events ++ [Deliver ESC]) s1 = (Some (Ok FINISHED), s')) /\
  (exists s',
      run_modal host (ticks (S (List.length (_obj_files (cls s1))))) s1
      = (Some (Ok FINISHED), s')).
Proof.
  intros host s s1 Hinvoke.
  destruct (invoke_running host s s1 Hinvoke) as (Hinv & Hundo & _ & Hidx & _).
  split; [exact Hundo|]. split; [apply Hinv|]. split; [|split].
  - intros events res s' Hrun.
    exact (run_modal_teardown host events _ _ s1 res s' Hinv Hrun).
  - intros events sk Hrun.
    rewrite (run_modal_app _ _ _ _ _ Hrun). cbn [run_modal modal].
    pose proof (run_modal_inv host events _ _ s1 sk Hinv Hrun) as (Ht & _).
    destruct (finish_effect true sk _ Ht) as (ctx' & Hf & _).
    rewrite Hf. eexists. reflexivity.
  - destruct (ticks_finish host _ _ s1 Hinv) as (s' & Hrun).
    + destruct Hinv as (_ & Htot & _). rewrite Hidx, Htot. unfold len. lia.
    + exists s'. rewrite <- Hrun. f_equal. f_equal.
      destruct Hinv as (_ & Htot & _). rewrite Hidx, Htot. unfold len. lia.
Qed.

(** C9. Cancellation performs no rollback.  The ESC path leaves
    [bpy.data] (collections, layer flags, objects), the class attributes
    and every part of the context other than the timer list, the undo
    preference, the running flag, the progress and the report list as
    they were; what earlier ticks created or deleted stays so. *)
Theorem cancel_no_rollback : forall host s,
  let rs := modal host ESC s in
  bpy (snd rs) = bpy s /\
  cls (snd rs) = cls s /\
  _timer (snd rs) = _timer s /\
  autoingest (context (snd rs)) = autoingest (context s) /\
  windows (context (snd rs)) = windows (context s) /\
  modal_handlers (context (snd rs)) = modal_handlers (context s) /\
  view_layer_updates (context (snd rs)) = view_layer_updates (context s) /\
  redraw_tags (context (snd rs)) = redraw_tags (context s) /\
  console (context (snd rs)) = console (context s) /\
  (forall timer, _timer s = Some timer ->
     fst rs = Ok FINISHED /\
     timers (context (snd rs))
       = filter (fun u => negb (Nat.eqb u timer)) (timers (context s)) /\
     use_global_undo (context (snd rs)) = _undo_was_enabled (cls s) /\
     autoingest_running (context (snd rs)) = false /\
     autoingest_progress (context (snd rs)) = 0%Z /\
     reports (context (snd rs)) =
       reports (context s)
       ++ [("WARNING",
            ("Import cancelled after " ++ str_int (_index (cls s)) ++ "/"
             ++ str_int (_total (cls s)) ++ " files.")%string)]).
Proof.
  intros host s rs. subst rs. cbn [modal].
  destruct (_timer s) as [timer|] eqn:Ht.
  - destruct (finish_effect true s timer Ht)
      as (ctx' & Hf & Hu & Htm & Hp & Hr & Ha & _ & Hmh & Hw & Hv & Hrt & Hc & _).
    destruct (Hc eq_refl) as [Hcon Hrep].
    rewrite Hf. cbn [fst snd]. destruct s as [b c ctx t]. cbn in *.
    repeat split; try assumption; try reflexivity.
    all: match goal with H : Some _ = Some _ |- _ => injection H as <- end.
    all: assumption.
  - unfold _finish. rewrite Ht. cbn.
    repeat split; try reflexivity; congruence.
Qed.

Lemma per_file_error_containment_witness :
  exists s',
    modal host_bad_good TIMER job_bad_good = (Ok PASS_THROUGH, s') /\
    _index (cls s') = 1%Z /\
    _errors (cls s') = ["bad.obj: Import failed"] /\
    exists sf,
      run_modal host_bad_good (ticks 3) job_bad_good = (Some (Ok FINISHED), sf).
Proof.
  assert (Hinv : job_inv true 0 job_bad_good).
  { unfold job_inv. cbn. repeat split; try reflexivity; lia. }
  assert (Hlt : (_index (cls job_bad_good) < _total (cls job_bad_good))%Z)
    by (vm_compute; reflexivity).
  destruct (per_file_error_containment host_bad_good true 0%nat job_bad_good Hinv Hlt)
    as (fp & s' & Hnth & Hm & Hi & _ & Hraise & _ & _ & Hfin).
  exists s'. split; [exact Hm|]. split; [exact Hi|].
  assert (Hfp : fp = mkPath ["assets"; "bad.obj"]).
  { vm_compute in Hnth. now injection Hnth as <-. }
  subst fp. split.
  - refine (proj1 (Hraise "Import failed" _ _)).
    vm_compute. reflexivity.
  - exact Hfin.
Defined.

Lemma teardown_on_termination_witness :
  fst (run_modal host_bad_good [Deliver TIMER; Deliver ESC] job_bad_good)
  = Some (Ok FINISHED) /\
  use_global_undo (context job_bad_good) = false /\
  use_global_undo (context bad_good_cancelled) = true /\
  timers (context bad_good_cancelled) = [] /\
  autoingest_progress (context bad_good_cancelled) = 0%Z /\
  autoingest_running (context bad_good_cancelled) = false.
Proof.
  assert (Hinvoke : invoke host_bad_good (idle_state empty_scene (demo_properties false))
                    = (Ok RUNNING_MODAL, job_bad_good)) by reflexivity.
  destruct (teardown_on_termination host_bad_good _ _ Hinvoke)
    as (Hoff & _ & Hend & _).
  assert (Hrun : run_modal host_bad_good [Deliver TIMER; Deliver ESC] job_bad_good
                 = (Some (Ok FINISHED), bad_good_cancelled)) by (vm_compute; reflexivity).
  destruct (Hend _ _ _ Hrun) as (_ & Hundo & _ & Hp & Hr).
  split; [vm_compute; reflexivity|]. split; [exact Hoff|].
  split; [exact Hundo|]. split; [vm_compute; reflexivity|].
  split; [exact Hp|exact Hr].
Defined.

Lemma cancel_no_rollback_witness :
  fst (modal host_bad_good ESC bad_good_after_2) = Ok FINISHED /\
  bpy (snd (modal host_bad_good ESC bad_good_after_2)) = bpy bad_good_after_2 /\
  map fst (lc_flags (layer_collection (bpy (snd (modal host_bad_good ESC bad_good_after_2)))))
  = ["Scene Collection"; "good"] /\
  reports (context (snd (modal host_bad_good ESC bad_good_after_2)))
  = [("WARNING", "Import cancelled after 2/2 files.")].
Proof.
  destruct (cancel_no_rollback host_bad_good bad_good_after_2)
    as (Hb & _ & _ & _ & _ & _ & _ & _ & _ & Hfin).
  destruct (Hfin 0%nat) as (Hr & _ & _ & _ & _ & Hrep); [vm_compute; reflexivity|].
  split; [exact Hr|]. split; [exact Hb|].
  split; [vm_compute; reflexivity|].
  rewrite Hrep. vm_compute. reflexivity.
Defined.

(** ** The pipeline when the import yields nothing *)

Lemma add_imported_collections : forall os d,
  lc_flags (layer_collection (add_imported os d)) = lc_flags (layer_collection d) /\
  unlinked (add_imported os d) = unlinked d.
Proof.
  induction os as [|o os IH]; intros d; cbn [add_imported]; [split; reflexivity|].
  match goal with
  | |- context [add_imported os ?x] => destruct (IH x) as [H1 H2]
  end.
  rewrite H1, H2. unfold scene_objects_link. cbn.
  destruct (layer_collection d); split; reflexivity.
Qed.

(** The importer leaves the collections and their layer flags alone. *)
Lemma import_obj_file_collections : forall host filepath axis d r d',
  import_obj_file host filepath axis d = (r, d') ->
  lc_flags (layer_collection d') = lc_flags (layer_collection d) /\
  unlinked d' = unlinked d.
Proof.
  intros host filepath axis d r d'.
  unfold import_obj_file, wm_obj_import, bind, gets. cbn beta iota.
  destruct (obj_import host filepath axis) as [msg|os]; cbn.
  - intros H. injection H as _ <-. split; reflexivity.
  - intros H. injection H as _ <-. apply add_imported_collections.
Qed.

Lemma collection_names_flags : forall d d',
  lc_flags (layer_collection d') = lc_flags (layer_collection d) ->
  unlinked d' = unlinked d ->
  collection_names d' = collection_names d.
Proof.
  intros d d' Hf Hu. unfold collection_names. rewrite Hu. f_equal.
  destruct (layer_collection d), (layer_collection d'). cbn in *.
  injection Hf as _ _ Hf. unfold forest_flags. now rewrite Hf.
Qed.

(** With an empty import the pipeline stops right after the import. *)
Lemma process_empty_import : forall host filepath settings s col_name d1 d2,
  resolve_col_name (path_stem filepath) settings (bpy_data s) = (Ok col_name, d1) ->
  import_obj_file host filepath (Settings.up_axis settings) d1 = (Ok [], d2) ->
  process_single_obj host filepath (Some settings) s
  = (Ok tt, mkPipelineState d2 (created_collections s)).
Proof.
  intros host filepath settings s col_name d1 d2 Hres Himp.
  unfold process_single_obj, bind, on_data. rewrite Hres.
  cbn [bpy_data created_collections]. rewrite Himp. reflexivity.
Qed.

(** Without replace-mode deletion, name resolution only reads. *)
Lemma resolve_col_name_pure : forall stem settings d r d1,
  (Settings.replace_existing settings && in_collections stem d)%bool = false ->
  resolve_col_name stem settings d = (r, d1) ->
  d1 = d.
Proof.
  intros stem settings d r d1 Hno. unfold resolve_col_name, bind, gets.
  cbn beta iota. rewrite Hno. unfold unique_collection_name.
  destruct (negb _); [intros H; now injection H as _ <-|].
  destruct (probe _ _ _ _); intros H; now injection H as _ <-.
Qed.

(** ** Collections: flags under the host operations *)

Lemma sublist_refl : forall (A : Type) (l : list A), sublist l l.
Proof. induction l; constructor; assumption. Qed.

Lemma sublist_nil_l : forall (A : Type) (l : list A), sublist [] l.
Proof. induction l; constructor; assumption. Qed.

Lemma sublist_trans : forall (A : Type) (l1 l2 l3 : list A),
  sublist l1 l2 -> sublist l2 l3 -> sublist l1 l3.
Proof.
  intros A l1 l2 l3 H12 H23. revert l1 H12.
  induction H23 as [|x l2 l3 H IH|x l2 l3 H IH]; intros l1 H12.
  - exact H12.
  - constructor. now apply IH.
  - inversion H12; subst.
    + constructor. now apply IH.
    + apply sublist_keep. now apply IH.
Qed.

Lemma sublist_app : forall (A : Type) (l1 l2 l3 l4 : list A),
  sublist l1 l2 -> sublist l3 l4 -> sublist (l1 ++ l3) (l2 ++ l4).
Proof.
  intros A l1 l2 l3 l4 H. induction H; intros H'; cbn.
  - exact H'.
  - constructor. now apply IHsublist.
  - apply sublist_keep. now apply IHsublist.
Qed.

Lemma sublist_app_skip : forall (A : Type) (l l1 l2 : list A),
  sublist l1 l2 -> sublist l1 (l ++ l2).
Proof.
  intros A l l1 l2 H. change l1 with ([] ++ l1).
  apply sublist_app; [apply sublist_nil_l|exact H].
Qed.

Lemma sublist_In : forall (A : Type) (l1 l2 : list A) x,
  sublist l1 l2 -> In x l1 -> In x l2.
Proof.
  intros A l1 l2 x H. induction H; cbn; intros Hin; auto.
  destruct Hin; auto.
Qed.

Lemma sublist_map : forall (A B : Type) (f : A -> B) l1 l2,
  sublist l1 l2 -> sublist (map f l1) (map f l2).
Proof. intros A B f l1 l2 H. induction H; cbn; constructor; assumption. Qed.

Lemma sublist_filter_length : forall (A : Type) (p : A -> bool) l1 l2,
  sublist l1 l2 -> (List.length (filter p l1) <= List.length (filter p l2))%nat.
Proof.
  intros A p l1 l2 H. induction H; cbn; [lia| |].
  - destruct (p x); cbn; lia.
  - destruct (p x); cbn; lia.
Qed.

Lemma lc_prune_flags : forall n t,
  sublist (lc_flags (lc_prune n t)) (lc_flags t).
Proof.
  intros n t. induction t as [m e o ch IH] using LayerCollection_nested_ind.
  cbn [lc_prune lc_flags]. apply sublist_keep.
  induction ch as [|c r IHr]; cbn; [constructor|].
  inversion IH as [|? ? Hc Hr]; subst.
  destruct (negb (lc_name (lc_prune n c) =? n)); cbn.
  - apply sublist_app; [exact Hc | now apply IHr].
  - apply sublist_app_skip. now apply IHr.
Qed.

Lemma forest_prune_flags : forall n f,
  sublist (forest_flags (forest_prune n f)) (forest_flags f).
Proof.
  intros n f. unfold forest_prune, forest_flags.
  induction f as [|c r IH]; cbn; [constructor|].
  destruct (negb (lc_name (lc_prune n c) =? n)); cbn.
  - apply sublist_app; [apply lc_prune_flags | exact IH].
  - apply sublist_app_skip. exact IH.
Qed.

Lemma lc_name_prune : forall n t, lc_name (lc_prune n t) = lc_name t.
Proof. intros n [m e o ch]. reflexivity. Qed.

(** After pruning, no node below the root is named [n]. *)
Lemma forest_prune_absent : forall n f,
  ~ In n (map fst (forest_flags (forest_prune n f))).
Proof.
  intros n f. unfold forest_prune, forest_flags.
  induction f as [|c r IH]; cbn; [tauto|].
  assert (Hc : ~ In n (map fst (flat_map lc_flags (lc_children (lc_prune n c))))).
  { clear IH. induction c as [m e o ch IHc] using LayerCollection_nested_ind.
    cbn [lc_prune lc_children].
    induction ch as [|k ks IHks]; cbn; [tauto|].
    inversion IHc as [|? ? Hk Hks]; subst.
    destruct (lc_name (lc_prune n k) =? n) eqn:E; cbn.
    - now apply IHks.
    - rewrite map_app, in_app_iff. intros [H|H]; [|now apply IHks].
      destruct (lc_prune n k) as [m' e' o' ch'] eqn:Ek. cbn in *.
      destruct H as [H|H]; [|now apply Hk].
      subst m'. now rewrite String.eqb_refl in E. }
  destruct (lc_name (lc_prune n c) =? n) eqn:E; cbn; [exact IH|].
  rewrite map_app, in_app_iff. intros [H|H]; [|now apply IH].
  destruct (lc_prune n c) as [m' e' o' ch'] eqn:Ek. cbn in *.
  destruct H as [H|H]; [|now apply Hc].
  subst m'. now rewrite String.eqb_refl in E.
Qed.

Lemma lc_map_objects_flags : forall p f t,
  lc_flags (lc_map_objects p f t) = lc_flags t.
Proof.
  intros p f t. induction t as [m e o ch IH] using LayerCollection_nested_ind.
  cbn [lc_map_objects lc_flags]. f_equal.
  induction ch as [|c r IHr]; cbn; [reflexivity|].
  inversion IH; subst. f_equal; auto.
Qed.

Lemma forest_map_objects_flags : forall p f l,
  forest_flags (map (lc_map_objects p f) l) = forest_flags l.
Proof.
  intros p f l. unfold forest_flags. induction l as [|c r IH]; cbn; [reflexivity|].
  now rewrite lc_map_objects_flags, IH.
Qed.

Lemma scene_flags_root : forall d,
  scene_flags d =
  (lc_name (layer_collection d), lc_exclude (layer_collection d))
    :: forest_flags (lc_children (layer_collection d)).
Proof. intros d. unfold scene_flags. now destruct (layer_collection d). Qed.

Lemma shrinks_refl : forall d, shrinks d d.
Proof. intros d. repeat split; apply sublist_refl. Qed.

Lemma shrinks_trans : forall d1 d2 d3,
  shrinks d1 d2 -> shrinks d2 d3 -> shrinks d1 d3.
Proof.
  intros d1 d2 d3 (Hn & He & Hc & Hu) (Hn' & He' & Hc' & Hu').
  repeat split; try congruence; eapply sublist_trans; eassumption.
Qed.

Lemma keeps_shrinks : forall d d', keeps_collections d d' -> shrinks d d'.
Proof.
  intros d d' [Hf Hu]. rewrite !scene_flags_root in Hf. injection Hf as Hn He Hc.
  repeat split; try assumption.
  - rewrite Hc. apply sublist_refl.
  - rewrite Hu. apply sublist_refl.
Qed.

Lemma keeps_refl : forall d, keeps_collections d d.
Proof. intros d. split; reflexivity. Qed.

Lemma keeps_trans : forall d1 d2 d3,
  keeps_collections d1 d2 -> keeps_collections d2 d3 -> keeps_collections d1 d3.
Proof. intros d1 d2 d3 [H1 H2] [H3 H4]. split; congruence. Qed.

Lemma shrinks_scene_flags : forall d d',
  shrinks d d' -> sublist (scene_flags d') (scene_flags d).
Proof.
  intros d d' (Hn & He & Hc & _). rewrite !scene_flags_root, Hn, He.
  now apply sublist_keep.
Qed.

Lemma shrinks_collection_names : forall d d',
  shrinks d d' -> sublist (collection_names d') (collection_names d).
Proof.
  intros d d' (_ & _ & Hc & Hu). unfold collection_names.
  apply sublist_app; now apply sublist_map.
Qed.

Lemma collections_remove_shrinks : forall n d, shrinks d (collections_remove n d).
Proof.
  intros n d. unfold shrinks, collections_remove. cbn.
  destruct (layer_collection d) as [m e o ch]. cbn.
  repeat split; try reflexivity; apply forest_prune_flags.
Qed.

Lemma collections_remove_absent : forall n d,
  ~ In n (collection_names (collections_remove n d)).
Proof.
  intros n d. unfold collection_names, collections_remove. cbn.
  destruct (layer_collection d) as [m e o ch]. cbn. rewrite in_app_iff.
  intros [H|H]; eapply forest_prune_absent; exact H.
Qed.

Lemma unlink_everywhere_flags : forall i d,
  scene_flags (unlink_everywhere i d) = scene_flags d /\
  forest_flags (unlinked (unlink_everywhere i d)) = forest_flags (unlinked d).
Proof.
  intros i d. unfold scene_flags, unlink_everywhere. cbn.
  split; [apply lc_map_objects_flags | apply forest_map_objects_flags].
Qed.

Lemma unlink_everywhere_keeps_flags : forall i d,
  scene_flags (unlink_everywhere i d) = scene_flags d.
Proof. intros i d. apply unlink_everywhere_flags. Qed.

Lemma unlink_everywhere_shrinks : forall i d, shrinks d (unlink_everywhere i d).
Proof.
  intros i d. unfold shrinks, unlink_everywhere. cbn [layer_collection unlinked].
  destruct (layer_collection d) as [m e o ch]. cbn [lc_map_objects lc_name lc_exclude lc_children].
  rewrite !forest_map_objects_flags.
  repeat split; apply sublist_refl.
Qed.

Lemma objects_remove_shrinks : forall i d, shrinks d (objects_remove i d).
Proof. intros i d. exact (unlink_everywhere_shrinks i d). Qed.

Lemma fold_objects_remove_shrinks : forall os d,
  shrinks d (fold_left (fun acc obj => objects_remove obj acc) os d).
Proof.
  induction os as [|o os IH]; intros d; cbn; [apply shrinks_refl|].
  eapply shrinks_trans; [apply objects_remove_shrinks | apply IH].
Qed.

Lemma delete_collection_recursive_shrinks : forall col d,
  shrinks d (delete_collection_recursive col d).
Proof.
  intros col. induction col as [n e os ch IH] using LayerCollection_nested_ind.
  intros d. cbn [delete_collection_recursive].
  eapply shrinks_trans; [|apply collections_remove_shrinks].
  eapply shrinks_trans; [|apply fold_objects_remove_shrinks].
  clear os. revert d. induction ch as [|c r IHr]; intros d; cbn; [apply shrinks_refl|].
  inversion IH as [|? ? Hc Hr]; subst.
  eapply shrinks_trans; [apply Hc | now apply IHr].
Qed.

Lemma delete_collection_recursive_absent : forall col d,
  ~ In (lc_name col) (collection_names (delete_collection_recursive col d)).
Proof.
  intros [n e os ch] d. cbn [delete_collection_recursive lc_name].
  apply collections_remove_absent.
Qed.

Lemma lc_lookup_name : forall n t x, lc_lookup n t = Some x -> lc_name x = n.
Proof.
  intros n t. induction t as [m e o ch IH] using LayerCollection_nested_ind.
  intros x. cbn [lc_lookup]. destruct (m =? n) eqn:E.
  - intros H. injection H as <-. now apply String.eqb_eq.
  - induction ch as [|c r IHr]; [discriminate|].
    inversion IH as [|? ? Hc Hr]; subst.
    destruct (lc_lookup n c) as [y|] eqn:Ec.
    + intros H. injection H as <-. now apply Hc.
    + now apply IHr.
Qed.

Lemma forest_lookup_name : forall n f x, forest_lookup n f = Some x -> lc_name x = n.
Proof.
  intros n f x. induction f as [|c r IH]; cbn; [discriminate|].
  destruct (lc_lookup n c) as [y|] eqn:Ec.
  - intros H. injection H as <-. eapply lc_lookup_name; eassumption.
  - exact IH.
Qed.

Lemma collections_get_name : forall n d x, collections_get n d = Some x -> lc_name x = n.
Proof.
  intros n d x. unfold collections_get.
  destruct (forest_lookup n (lc_children (layer_collection d))) as [y|] eqn:E.
  - intros H. injection H as <-. eapply forest_lookup_name; eassumption.
  - apply forest_lookup_name.
Qed.

Lemma in_collections_false : forall n d,
  in_collections n d = false -> ~ In n (collection_names d).
Proof.
  intros n d H Hin. unfold in_collections in H.
  assert (existsb (String.eqb n) (collection_names d) = true).
  { apply existsb_exists. exists n. split; [exact Hin|apply String.eqb_refl]. }
  congruence.
Qed.

Lemma probe_free : forall base d n i c,
  probe base d i n = Some c ->
  in_collections c d = false /\ exists k, c = candidate base k.
Proof.
  induction n as [|n IH]; intros i c; cbn; [discriminate|].
  destruct (in_collections (candidate base i) d) eqn:E.
  - apply IH.
  - intros H. injection H as <-. split; [exact E|now exists i].
Qed.

(** Name resolution: it at most removes collections, and the name it
    returns is one no collection holds any more. *)
Lemma resolve_col_name_spec : forall stem settings d r d1,
  resolve_col_name stem settings d = (r, d1) ->
  shrinks d d1 /\
  forall c, r = Ok c -> ~ In c (collection_names d1) /\ resolvable stem c.
Proof.
  intros stem settings d r d1. unfold resolve_col_name, bind, gets. cbn beta iota.
  destruct (Settings.replace_existing settings && in_collections stem d)%bool.
  - destruct (collections_get stem d) as [col|] eqn:Eg.
    + unfold modify, ret. cbn. intros H. injection H as <- <-.
      split; [apply delete_collection_recursive_shrinks|].
      intros c Hc. injection Hc as <-. split; [|now left].
      rewrite <- (collections_get_name _ _ _ Eg) at 1.
      apply delete_collection_recursive_absent.
    + intros H. injection H as <- <-. split; [apply shrinks_refl|discriminate].
  - unfold unique_collection_name.
    destruct (in_collections stem d) eqn:Ein; cbn [negb].
    + destruct (probe stem d 1 999) as [c|] eqn:Ep; intros H; injection H as <- <-;
        (split; [apply shrinks_refl|]); [|discriminate].
      intros c' Hc. injection Hc as <-.
      destruct (probe_free _ _ _ _ _ Ep) as [Hfree Hk].
      split; [now apply in_collections_false | now right].
    + intros H. injection H as <- <-. split; [apply shrinks_refl|].
      intros c Hc. injection Hc as <-.
      split; [now apply in_collections_false | now left].
Qed.

(** What an empty import amounts to. *)
Lemma empty_import_effect : forall host filepath settings s col_name d1 d2,
  resolve_col_name (path_stem filepath) settings (bpy_data s) = (Ok col_name, d1) ->
  import_obj_file host filepath (Settings.up_axis settings) d1 = (Ok [], d2) ->
  process_single_obj host filepath (Some settings) s
    = (Ok tt, mkPipelineState d2 (created_collections s)) /\
  collection_names d2 = collection_names d1 /\
  scene_flags d2 = scene_flags d1 /\
  (forall n, In n (collection_names d2) -> In n (collection_names (bpy_data s))) /\
  ((Settings.replace_existing settings
    && in_collections (path_stem filepath) (bpy_data s))%bool = false ->
   d1 = bpy_data s).
Proof.
  intros host filepath settings s col_name d1 d2 Hres Himp.
  destruct (import_obj_file_collections _ _ _ _ _ _ Himp) as [Hf Hu].
  destruct (resolve_col_name_spec _ _ _ _ _ Hres) as [Hsh _].
  split; [eapply process_empty_import; eassumption|].
  assert (Hn : collection_names d2 = collection_names d1)
    by (now apply collection_names_flags).
  split; [exact Hn|]. split; [exact Hf|]. split.
  - intros n Hin. rewrite Hn in Hin.
    eapply sublist_In; [apply shrinks_collection_names; exact Hsh | exact Hin].
  - intros Hno. eapply resolve_col_name_pure; eassumption.
Qed.

(** C7 (amended). When the import of a file yields no new object, the
    pipeline stops right after the import: it returns normally, the state
    is the one the name-collision block and the import left, nothing is
    appended to the list of created collections, and no collection has
    been added.  Without replace-mode deletion (replace off, or no
    collection of that name) the name-collision block changes nothing
    either. *)
Theorem empty_import_aborts : forall host filepath settings s col_name d1 d2,
  resolve_col_name (path_stem filepath) settings (bpy_data s) = (Ok col_name, d1) ->
  import_obj_file host filepath (Settings.up_axis settings) d1 = (Ok [], d2) ->
  process_single_obj host filepath (Some settings) s
    = (Ok tt, mkPipelineState d2 (created_collections s)) /\
  collection_names d2 = collection_names d1 /\
  scene_flags d2 = scene_flags d1 /\
  (forall n, In n (collection_names d2) -> In n (collection_names (bpy_data s))) /\
  ((Settings.replace_existing settings
    && in_collections (path_stem filepath) (bpy_data s))%bool = false ->
   d1 = bpy_data s).
Proof. exact empty_import_effect. Qed.

Lemma empty_import_aborts_witness :
  process_single_obj host_one_empty (mkPath ["assets"; "void.obj"]) (Some settings_keep)
    (mkPipelineState scene_B ["B"])
  = (Ok tt, mkPipelineState scene_B ["B"]).
Proof.
  refine (proj1 (empty_import_aborts host_one_empty (mkPath ["assets"; "void.obj"])
                   settings_keep (mkPipelineState scene_B ["B"]) "void" scene_B scene_B
                   _ _)).
  - vm_compute. reflexivity.
  - vm_compute. reflexivity.
Defined.

(** C7 as stated fails in replace mode: the file B.obj imports nothing
    (the import alone leaves [bpy.data] as it is), yet processing it
    deletes the existing collection "B" and the object in it. *)
Lemma empty_import_replace_counterexample :
  import_obj_file host_one_empty file_B AXIS_Y scene_B = (Ok [], scene_B) /\
  fst (process_single_obj host_one_empty file_B (Some settings_replace)
         (mkPipelineState scene_B ["B"])) = Ok tt /\
  bpy_data (snd (process_single_obj host_one_empty file_B (Some settings_replace)
                   (mkPipelineState scene_B ["B"]))) <> scene_B /\
  in_collections "B" scene_B = true /\
  in_collections "B"
    (bpy_data (snd (process_single_obj host_one_empty file_B (Some settings_replace)
                      (mkPipelineState scene_B ["B"])))) = false /\
  List.length (objects scene_B) = 1%nat /\
  objects (bpy_data (snd (process_single_obj host_one_empty file_B (Some settings_replace)
                            (mkPipelineState scene_B ["B"])))) = [].
Proof.
  repeat split; try (vm_compute; reflexivity).
  intros H. apply (f_equal (in_collections "B")) in H. vm_compute in H. discriminate.
Qed.

(** C10. The FINISHED summary reports [_total - len(_errors)] imported
    files; a file whose import yields nothing makes the pipeline return
    normally, so the tick records no error for it although no collection
    is created; hence the reported count can exceed the number of
    collections created, as in the one-file job [host_one_empty]. *)
Theorem finished_summary_count :
  (forall s timer,
      _timer s = Some timer ->
      exists s' rest,
        _finish false s = (Ok FINISHED, s') /\
        reports (context s') =
          reports (context s)
          ++ [("INFO",
               ("AutoIngest: " ++ str_int (_total (cls s) - len (_errors (cls s)))
                ++ " OBJ(s) imported." ++ rest)%string)]) /\
  (forall host undo0 timer s filepath settings col_name d1 d2,
      job_inv undo0 timer s ->
      (_index (cls s) < _total (cls s))%Z ->
      nth_error (_obj_files (cls s)) (Z.to_nat (_index (cls s))) = Some filepath ->
      _settings (cls s) = Some settings ->
      resolve_col_name (path_stem filepath) settings (bpy s) = (Ok col_name, d1) ->
      import_obj_file host filepath (Settings.up_axis settings) d1 = (Ok [], d2) ->
      exists s',
        modal host TIMER s = (Ok PASS_THROUGH, s') /\
        _errors (cls s') = _errors (cls s) /\
        _created_collections (cls s') = _created_collections (cls s) /\
        collection_names (bpy s') = collection_names d1) /\
  (let rs := run_job host_one_empty (ticks 2)
               (idle_state empty_scene (demo_properties false)) in
   fst rs = Some (Ok FINISHED) /\
   reports (context (snd rs)) = [("INFO", "AutoIngest: 1 OBJ(s) imported.")] /\
   _errors (cls (snd rs)) = [] /\
   _created_collections (cls (snd rs)) = [] /\
   collection_names (bpy (snd rs)) = []).
Proof.
  split; [|split].
  - intros s timer Ht.
    destruct (finish_effect false s timer Ht)
      as (ctx' & Hf & _ & _ & _ & _ & _ & _ & _ & _ & _ & _ & _ & Hrep).
    destruct (Hrep eq_refl) as (rest & Hr & _).
    exists (set_context ctx' s), rest. split; [exact Hf|exact Hr].
  - intros host undo0 timer s filepath settings col_name d1 d2 Hinv Hlt Hnth Hset Hres Himp.
    destruct (modal_timer_step host undo0 timer s Hinv Hlt)
      as (fp & s' & Hnth' & Hm & _ & _ & _ & _ & _ & _ & _ & _ & _ & Hb & Hc & He).
    rewrite Hnth in Hnth'. injection Hnth' as <-.
    destruct (empty_import_effect host filepath settings
                (mkPipelineState (bpy s) (_created_collections (cls s)))
                col_name d1 d2 Hres Himp) as (Hp & Hn & _).
    rewrite Hset, Hp in Hb, Hc, He. cbn in Hb, Hc, He.
    exists s'. repeat split; try assumption. now rewrite Hb.
  - cbv zeta. repeat split; vm_compute; reflexivity.
Qed.

Lemma finished_summary_count_witness :
  (exists s' rest,
      _finish false bad_good_after_2 = (Ok FINISHED, s') /\
      reports (context s') =
        [("INFO", ("AutoIngest: 1 OBJ(s) imported." ++ rest)%string)]) /\
  (exists s',
      modal host_one_empty TIMER job_one_empty = (Ok PASS_THROUGH, s') /\
      _errors (cls s') = [] /\
      _created_collections (cls s') = []).
Proof.
  destruct finished_summary_count as (Hfin & Htick & _).
  split.
  - destruct (Hfin bad_good_after_2 0%nat)
      as (s' & rest & Hf & Hr); [vm_compute; reflexivity|].
    exists s', rest. split; [exact Hf|]. rewrite Hr. vm_compute. reflexivity.
  - destruct (Htick host_one_empty true 0%nat job_one_empty
                (mkPath ["assets"; "void.obj"])
                (Settings.mk AXIS_Y true false None true false false)
                "void" empty_scene empty_scene)
      as (s' & Hm & He & Hc & _).
    + unfold job_inv. cbn. repeat split; try reflexivity; lia.
    + vm_compute. reflexivity.
    + vm_compute. reflexivity.
    + vm_compute. reflexivity.
    + vm_compute. reflexivity.
    + vm_compute. reflexivity.
    + exists s'. split; [exact Hm|]. split; [rewrite He|rewrite Hc]; reflexivity.
Defined.

(** ** The settings snapshot *)

Lemma with_props_id : forall s, with_props (autoingest (context s)) s = s.
Proof. intros [b c [] t]. reflexivity. Qed.

Lemma with_props_twice : forall p q s, with_props p (with_props q s) = with_props p s.
Proof. intros p q [b c [] t]. reflexivity. Qed.

Lemma finish_props : forall cancelled p s,
  _finish cancelled (with_props p s)
  = (fst (_finish cancelled s), with_props p (snd (_finish cancelled s))).
Proof.
  intros cancelled p [b c ctx t]. unfold _finish, with_props.
  cbn [_timer set_context cls context bpy].
  destruct t as [timer|]; [|reflexivity].
  cbn [fst snd set_context cls context bpy _timer].
  destruct cancelled; [destruct ctx; reflexivity|].
  destruct (_errors c) as [|e es]; [destruct ctx; reflexivity|].
  rewrite !(fold_print (fun e => ("[AutoIngest ERROR] " ++ e)%string)).
  destruct ctx; reflexivity.
Qed.

(** [modal] neither reads nor writes the panel's live properties. *)
Lemma modal_props : forall host event p s,
  modal host event (with_props p s)
  = (fst (modal host event s), with_props p (snd (modal host event s))).
Proof.
  intros host event p s. destruct event as [| |ty].
  - apply finish_props.
  - unfold modal, bind, gets. cbn beta iota.
    change (cls (with_props p s)) with (cls s).
    destruct (_index (cls s) >=? _total (cls s))%Z; [apply finish_props|].
    destruct s as [b c ctx t].
    unfold with_props, getitem, try_except, on_pipeline.
    cbn [cls bpy context set_context set_cls set_bpy _timer].
    destruct (_total c =? 0)%Z; [reflexivity|].
    destruct (_ && _)%bool; [|reflexivity].
    destruct (nth_error _ _) as [filepath|]; [|reflexivity].
    destruct ctx.
    cbn -[process_single_obj float_percent path_name String.append Z.add].
    destruct (process_single_obj host filepath (_settings c)
                (mkPipelineState b (_created_collections c)))
      as [[[]|e] ps]; reflexivity.
  - reflexivity.
Qed.

Lemma run_modal_props : forall host events s p,
  exists p',
    run_modal host events (with_props p s)
    = (fst (run_modal host (filter is_delivery events) s),
       with_props p' (snd (run_modal host (filter is_delivery events) s))).
Proof.
  intros host events. induction events as [|ev events IH]; intros s p.
  - exists p. reflexivity.
  - destruct ev as [e|q]; cbn [filter is_delivery run_modal].
    + rewrite modal_props.
      destruct (modal host e s) as [[[]|exc] s'] eqn:E; cbn [fst snd];
        try (exists p; reflexivity); apply IH.
    + fold (with_props q (with_props p s)). rewrite with_props_twice. apply IH.
Qed.

(** C8. Settings-snapshot noninterference.  [invoke] copies the panel's
    properties into the settings dictionary; from then on [modal] hands
    that dictionary to the pipeline and never looks at the live
    properties: a tick on a state whose live properties were replaced
    gives the same result and the same state up to those properties, and
    a job in which the user edits the properties between events ends
    with the same result and the same state, up to the live properties,
    as the job without the edits. *)
Theorem settings_snapshot_noninterference : forall host,
  (forall s s1,
      invoke host s = (Ok RUNNING_MODAL, s1) ->
      _settings (cls s1) =
        Some (let props := autoingest (context s) in
              Settings.mk (up_axis props) (center_pivots props) (use_scale_ref props)
                (reference_object props) (apply_scale props) (replace_existing props)
                (diffuse_as_emissive props))) /\
  (forall event p s,
      modal host event (with_props p s)
      = (fst (modal host event s), with_props p (snd (modal host event s)))) /\
  (forall events s p,
      fst (run_modal host events s)
      = fst (run_modal host (filter is_delivery events) s) /\
      with_props p (snd (run_modal host events s))
      = with_props p (snd (run_modal host (filter is_delivery events) s))).
Proof.
  intros host. split; [|split].
  - intros s s1 H. now destruct (invoke_running host s s1 H) as (_ & _ & _ & _ & _ & _ & _ & Hs).
  - apply modal_props.
  - intros events s p.
    destruct (run_modal_props host events s (autoingest (context s))) as [p' H].
    rewrite with_props_id in H. rewrite H. cbn [fst snd].
    split; [reflexivity|apply with_props_twice].
Qed.

(** ** Steps of the pipeline that leave the collections alone *)

Lemma keeps_ret : forall (A : Type) (a : A), keeps (ret a).
Proof. intros A a d r d' H. injection H as _ <-. apply keeps_refl. Qed.

Lemma keeps_raise : forall (A : Type) e, keeps (@raise BlendData A e).
Proof. intros A e d r d' H. injection H as _ <-. apply keeps_refl. Qed.

Lemma keeps_bind : forall (A B : Type) (c : M BlendData A) (k : A -> M BlendData B),
  keeps c -> (forall a, keeps (k a)) -> keeps (bind c k).
Proof.
  intros A B c k Hc Hk d r d'. unfold bind.
  destruct (c d) as [[a|e] d1] eqn:E; intros H.
  - eapply keeps_trans; [eapply Hc; exact E | eapply Hk; exact H].
  - injection H as _ <-. eapply Hc; exact E.
Qed.

Lemma keeps_deref : forall i, keeps (deref i).
Proof.
  intros i d r d'. unfold deref. destruct (objects_get i d); intros H;
    injection H as _ <-; apply keeps_refl.
Qed.

Lemma keeps_modify : forall f : BlendData -> BlendData,
  (forall d, keeps_collections d (f d)) -> keeps (modify f).
Proof. intros f Hf d r d' H. injection H as _ <-. apply Hf. Qed.

Lemma keeps_with_object : forall i f, keeps (with_object i f).
Proof.
  intros i f. unfold with_object. apply keeps_bind; [apply keeps_deref|].
  intros o. apply keeps_modify. intros d. split; reflexivity.
Qed.

Lemma keeps_for_each : forall (A : Type) (xs : list A) (body : A -> M BlendData unit),
  (forall x, keeps (body x)) -> keeps (for_each xs body).
Proof.
  intros A xs body Hb. induction xs as [|x r IH]; cbn [for_each].
  - apply keeps_ret.
  - apply keeps_bind; [apply Hb | intros _; exact IH].
Qed.

Lemma keeps_apply_scale_reference : forall objs ref_obj b,
  keeps (apply_scale_reference objs ref_obj b).
Proof.
  intros objs ref_obj b. unfold apply_scale_reference.
  apply keeps_bind; [apply keeps_deref|]. intros ref.
  destruct (Qeq_bool _ _); [apply keeps_ret|].
  apply keeps_for_each. intros x. apply keeps_with_object.
Qed.

Lemma keeps_normalize_objects : forall settings new_objects,
  keeps (normalize_objects settings new_objects).
Proof.
  intros settings new_objects. unfold normalize_objects.
  apply keeps_bind.
  { destruct (Settings.center_pivots settings); [|apply keeps_ret].
    apply keeps_for_each. intros x. apply keeps_with_object. }
  intros _. apply keeps_bind.
  { apply keeps_for_each. intros x. apply keeps_with_object. }
  intros _. apply keeps_bind.
  { destruct (Settings.use_scale_ref settings); [|apply keeps_ret].
    destruct (Settings.ref_obj settings); [|apply keeps_ret].
    apply keeps_apply_scale_reference. }
  intros _. destruct (Settings.diffuse_as_emissive settings); [|apply keeps_ret].
  unfold apply_diffuse_as_emissive. apply keeps_for_each. intros x.
  apply keeps_with_object.
Qed.

Lemma scene_objects_link_keeps : forall i d,
  keeps_collections d (scene_objects_link i d).
Proof.
  intros i d. unfold keeps_collections, scene_objects_link, scene_flags.
  destruct (layer_collection d). split; reflexivity.
Qed.

Lemma keeps_create_empty : forall stem new_objects,
  keeps (create_empty stem new_objects).
Proof.
  intros stem new_objects. unfold create_empty.
  apply keeps_bind.
  { intros d r d' H. cbn in H. injection H as _ <-. split; reflexivity. }
  intros empty. apply keeps_bind; [apply keeps_with_object|].
  intros _. apply keeps_bind.
  { apply keeps_modify. apply scene_objects_link_keeps. }
  intros _. apply keeps_bind; [|intros _; apply keeps_ret].
  apply keeps_for_each. intros x.
  apply keeps_bind; [apply keeps_deref|]. intros e. apply keeps_with_object.
Qed.

Lemma keeps_import_obj_file : forall host filepath axis,
  keeps (import_obj_file host filepath axis).
Proof.
  intros host filepath axis d r d' H.
  destruct (import_obj_file_collections _ _ _ _ _ _ H) as [Hf Hu].
  split; assumption.
Qed.

Lemma keeps_collection_names : forall d d',
  keeps_collections d d' -> collection_names d' = collection_names d.
Proof. intros d d' [Hf Hu]. now apply collection_names_flags. Qed.

(** ** Creating the collection and swapping visibility *)

Lemma lc_lookup_absent : forall n t,
  ~ In n (map fst (lc_flags t)) -> lc_lookup n t = None.
Proof.
  intros n t. induction t as [m e o ch IH] using LayerCollection_nested_ind.
  cbn [lc_flags lc_lookup map fst]. intros Hno.
  destruct (String.eqb_spec m n) as [->|Hne]; [exfalso; apply Hno; now left|].
  assert (Hch : ~ In n (map fst (flat_map lc_flags ch))) by (intros H; apply Hno; now right).
  clear Hno. induction ch as [|c r IHr]; [reflexivity|].
  inversion IH as [|? ? Hc Hr]; subst. cbn in Hch. rewrite map_app, in_app_iff in Hch.
  rewrite Hc by tauto. apply IHr; [assumption|tauto].
Qed.

Lemma forest_lookup_absent : forall n f,
  ~ In n (map fst (forest_flags f)) -> forest_lookup n f = None.
Proof.
  intros n f. unfold forest_flags. induction f as [|c r IH]; cbn; [reflexivity|].
  rewrite map_app, in_app_iff. intros H.
  rewrite lc_lookup_absent by tauto. apply IH. tauto.
Qed.

Lemma forest_lookup_app : forall n f g,
  forest_lookup n f = None -> forest_lookup n (f ++ g) = forest_lookup n g.
Proof.
  intros n f g. induction f as [|c r IH]; cbn; [reflexivity|].
  destruct (lc_lookup n c); [discriminate|exact IH].
Qed.

Lemma collection_objects_link_flags : forall n i d,
  scene_flags (collection_objects_link n i d) = scene_flags d.
Proof.
  intros n i d. unfold scene_flags, collection_objects_link.
  destruct (layer_collection d) as [m e o ch]. cbn [layer_collection lc_flags].
  f_equal. apply forest_map_objects_flags.
Qed.

Lemma move_to_collection_flags : forall obj n d,
  scene_flags (move_to_collection obj n d) = scene_flags d.
Proof.
  intros obj n d. unfold move_to_collection.
  rewrite collection_objects_link_flags. apply unlink_everywhere_keeps_flags.
Qed.

Lemma fold_move_to_collection_flags : forall n objs d,
  scene_flags (fold_left (fun acc obj => move_to_collection obj n acc) objs d)
  = scene_flags d.
Proof.
  intros n objs. induction objs as [|o r IH]; intros d; cbn; [reflexivity|].
  rewrite IH. apply move_to_collection_flags.
Qed.

(** A collection created under a free name becomes the last layer
    collection of the scene, not excluded. *)
Lemma create_collection_flags : forall c empty objs d,
  ~ In c (collection_names d) ->
  scene_flags (create_collection c empty objs d) = scene_flags d ++ [(c, false)].
Proof.
  intros c empty objs d Hfree. unfold create_collection.
  rewrite fold_move_to_collection_flags, move_to_collection_flags.
  unfold scene_children_link, collections_new.
  cbn [unlinked layer_collection objects next_id].
  rewrite forest_lookup_app.
  2:{ apply forest_lookup_absent. intros H. apply Hfree. unfold collection_names.
      apply in_or_app. now right. }
  cbn [forest_lookup lc_lookup]. rewrite String.eqb_refl.
  unfold scene_flags. destruct (layer_collection d) as [m e o ch].
  cbn [layer_collection lc_flags]. rewrite flat_map_app. reflexivity.
Qed.

Lemma set_first_flag_names : forall n b fl,
  map fst (set_first_flag n b fl) = map fst fl.
Proof.
  intros n b fl. induction fl as [|[m e] r IH]; cbn; [reflexivity|].
  destruct (m =? n); cbn; [reflexivity|now rewrite IH].
Qed.

Lemma set_first_flag_absent : forall n b fl,
  ~ In n (map fst fl) -> set_first_flag n b fl = fl.
Proof.
  intros n b fl. induction fl as [|[m e] r IH]; cbn; [reflexivity|].
  intros H. destruct (String.eqb_spec m n) as [->|Hne]; [tauto|].
  rewrite IH; tauto.
Qed.

Lemma set_first_flag_app_in : forall n b f1 f2,
  In n (map fst f1) ->
  set_first_flag n b (f1 ++ f2) = set_first_flag n b f1 ++ f2.
Proof.
  intros n b f1 f2. induction f1 as [|[m e] r IH]; cbn; [tauto|].
  intros H. destruct (String.eqb_spec m n) as [->|Hne]; [reflexivity|].
  rewrite IH; [reflexivity|]. destruct H; [contradiction|assumption].
Qed.

Lemma set_first_flag_app_out : forall n b f1 f2,
  ~ In n (map fst f1) ->
  set_first_flag n b (f1 ++ f2) = f1 ++ set_first_flag n b f2.
Proof.
  intros n b f1 f2. induction f1 as [|[m e] r IH]; cbn; [reflexivity|].
  intros H. destruct (String.eqb_spec m n) as [->|Hne]; [tauto|].
  rewrite IH; tauto.
Qed.

Lemma set_first_flag_other : forall n b fl m e,
  m <> n -> (In (m, e) (set_first_flag n b fl) <-> In (m, e) fl).
Proof.
  intros n b fl m e Hne. induction fl as [|[k f] r IH]; cbn; [tauto|].
  destruct (String.eqb_spec k n) as [->|Hkn]; cbn.
  - split; intros [H|H]; auto; injection H as <- _; contradiction.
  - rewrite IH. tauto.
Qed.

Lemma set_first_flag_set : forall n b fl,
  In n (map fst fl) -> In (n, b) (set_first_flag n b fl).
Proof.
  intros n b fl. induction fl as [|[k f] r IH]; cbn; [tauto|].
  intros H. destruct (String.eqb_spec k n) as [->|Hkn]; [now left|].
  right. apply IH. destruct H; [contradiction|assumption].
Qed.

Lemma count_name_absent : forall n fl,
  count_name n fl = 0%nat <-> ~ In n (map fst fl).
Proof.
  intros n fl. unfold count_name. induction fl as [|[k f] r IH]; cbn; [tauto|].
  destruct (String.eqb_spec k n) as [->|Hkn]; cbn.
  - split; [discriminate|]. intros H. exfalso. apply H. now left.
  - rewrite IH. split; [intros H [H'|H']; [contradiction|tauto] | tauto].
Qed.

(** When at most one entry is named [n], setting the first one sets all. *)
Lemma set_first_flag_unique : forall n b fl e,
  (count_name n fl <= 1)%nat ->
  In (n, e) (set_first_flag n b fl) -> e = b.
Proof.
  intros n b fl e. unfold count_name. induction fl as [|[k f] r IH]; cbn; [tauto|].
  destruct (String.eqb_spec k n) as [->|Hkn]; cbn.
  - intros Hc [H|H]; [now injection H as <-|].
    assert (H0 : count_name n r = 0%nat) by (unfold count_name; lia).
    apply count_name_absent in H0. exfalso. apply H0.
    now apply (in_map fst) in H.
  - intros Hc [H|H]; [injection H as -> _; contradiction|]. now apply IH.
Qed.

Lemma count_name_set_first : forall m n b fl,
  count_name m (set_first_flag n b fl) = count_name m fl.
Proof.
  intros m n b fl. unfold count_name. induction fl as [|[k f] r IH]; cbn; [reflexivity|].
  destruct (k =? n); cbn; destruct (k =? m); cbn; congruence.
Qed.

Lemma count_name_app : forall n f1 f2,
  count_name n (f1 ++ f2) = (count_name n f1 + count_name n f2)%nat.
Proof. intros n f1 f2. unfold count_name. now rewrite filter_app, length_app. Qed.

Lemma set_exclude_spec : forall n b t,
  (In n (map fst (lc_flags t)) ->
   exists t', set_exclude t n b = Some t' /\
              lc_flags t' = set_first_flag n b (lc_flags t)) /\
  (~ In n (map fst (lc_flags t)) -> set_exclude t n b = None).
Proof.
  intros n b t. induction t as [m e o ch IH] using LayerCollection_nested_ind.
  cbn [set_exclude lc_flags map fst set_first_flag].
  destruct (String.eqb_spec m n) as [->|Hne].
  - split; [|intros H; exfalso; apply H; now left].
    intros _. eexists. split; reflexivity.
  - assert (Hloop :
      (In n (map fst (flat_map lc_flags ch)) ->
       exists ch',
         (fix loop (l : list LayerCollection) : option (list LayerCollection) :=
            match l with
            | [] => None
            | child :: r =>
                match set_exclude child n b with
                | Some child' => Some (child' :: r)
                | None => match loop r with
                          | Some r' => Some (child :: r')
                          | None => None
                          end
                end
            end) ch = Some ch' /\
         flat_map lc_flags ch' = set_first_flag n b (flat_map lc_flags ch)) /\
      (~ In n (map fst (flat_map lc_flags ch)) ->
         (fix loop (l : list LayerCollection) : option (list LayerCollection) :=
            match l with
            | [] => None
            | child :: r =>
                match set_exclude child n b with
                | Some child' => Some (child' :: r)
                | None => match loop r with
                          | Some r' => Some (child :: r')
                          | None => None
                          end
                end
            end) ch = None)).
    { induction ch as [|c r IHr]; [split; [intros []|reflexivity]|].
      inversion IH as [|? ? [Hc1 Hc2] Hr]; subst.
      destruct (IHr Hr) as [Hr1 Hr2]. cbn [flat_map]. rewrite map_app.
      destruct (in_dec string_dec n (map fst (lc_flags c))) as [Hin|Hout].
      - destruct (Hc1 Hin) as (c' & Hs & Hf). rewrite Hs. split.
        + intros _. eexists. split; [reflexivity|]. cbn [flat_map].
          rewrite Hf. now rewrite set_first_flag_app_in.
        + intros H. exfalso. apply H. apply in_or_app. now left.
      - rewrite (Hc2 Hout). split.
        + intros H. apply in_app_or in H. destruct H as [H|H]; [contradiction|].
          destruct (Hr1 H) as (r' & Hs & Hf). rewrite Hs.
          eexists. split; [reflexivity|]. cbn [flat_map]. rewrite Hf.
          now rewrite set_first_flag_app_out.
        + intros H. rewrite Hr2; [reflexivity|].
          intros H'. apply H. apply in_or_app. now right. }
    destruct Hloop as [H1 H2]. split.
    + intros [H|H]; [contradiction|].
      destruct (H1 H) as (ch' & Hs & Hf). rewrite Hs.
      eexists. split; [reflexivity|]. cbn [lc_flags]. now rewrite Hf.
    + intros H. rewrite H2; [reflexivity|]. intros H'. apply H. now right.
Qed.

Lemma find_layer_collection_none : forall n t,
  find_layer_collection t n = None -> ~ In n (map fst (lc_flags t)).
Proof.
  intros n t. induction t as [m e o ch IH] using LayerCollection_nested_ind.
  cbn [find_layer_collection lc_flags map fst].
  destruct (String.eqb_spec m n) as [->|Hne]; [discriminate|].
  intros Hloop [H|H]; [contradiction|]. revert Hloop H.
  induction ch as [|c r IHr]; [intros _ []|].
  inversion IH as [|? ? Hc Hr]; subst.
  destruct (find_layer_collection c n) eqn:E; [discriminate|].
  intros Hloop H. cbn in H. rewrite map_app in H. apply in_app_or in H.
  destruct H as [H|H]; [now apply Hc|now apply IHr].
Qed.

(** [set_collection_visibility] sets the flag of the first layer
    collection of that name and touches nothing else. *)
Lemma set_collection_visibility_flags : forall n v d,
  scene_flags (set_collection_visibility n v d)
  = set_first_flag n (negb v) (scene_flags d).
Proof.
  intros n v d. unfold set_collection_visibility, scene_flags.
  destruct (set_exclude_spec n (negb v) (layer_collection d)) as [H1 H2].
  destruct (find_layer_collection (layer_collection d) n) eqn:Ef.
  - destruct (in_dec string_dec n (map fst (lc_flags (layer_collection d)))) as [Hin|Hout].
    + destruct (H1 Hin) as (t' & Hs & Hf). rewrite Hs. exact Hf.
    + rewrite (H2 Hout). now rewrite set_first_flag_absent.
  - apply find_layer_collection_none in Ef. now rewrite set_first_flag_absent.
Qed.

Lemma set_collection_visibility_unlinked : forall n v d,
  unlinked (set_collection_visibility n v d) = unlinked d.
Proof.
  intros n v d. unfold set_collection_visibility.
  destruct (find_layer_collection _ _); [|reflexivity].
  destruct (set_exclude _ _ _); reflexivity.
Qed.

Lemma visible_iff : forall n d,
  visible n d = true <-> In (n, false) (scene_flags d).
Proof.
  intros n d. unfold visible, scene_flags. rewrite existsb_exists. split.
  - intros ([m e] & Hin & H). cbn in H. apply andb_prop in H. destruct H as [H1 H2].
    apply String.eqb_eq in H1. subst m. destruct e; [discriminate|exact Hin].
  - intros H. exists (n, false). split; [exact H|]. cbn. now rewrite String.eqb_refl.
Qed.

Lemma hidden_iff : forall n d,
  hidden n d = true <-> ~ In (n, false) (scene_flags d).
Proof.
  intros n d. unfold hidden. rewrite <- visible_iff.
  destruct (visible n d); cbn; split; intros; congruence.
Qed.

Lemma swap_visibility_result : forall c d cr,
  swap_visibility c (mkPipelineState d cr)
  = (Ok tt,
     mkPipelineState
       (set_collection_visibility c true
          (match cr with
           | [] => d
           | _ :: _ => set_collection_visibility (last cr "") false d
           end))
       (cr ++ [c])).
Proof. intros c d [|x cr]; reflexivity. Qed.

(** The two ways a run of the pipeline can go: it creates no collection
    (empty import or exception) and has at most removed collections, or
    it goes through, creating a collection under a free name and
    swapping visibility. *)
Lemma process_single_obj_cases : forall host filepath settings s r s',
  process_single_obj host filepath (Some settings) s = (r, s') ->
  (created_collections s' = created_collections s /\
   shrinks (bpy_data s) (bpy_data s')) \/
  (exists c d4 empty objs,
      r = Ok tt /\
      resolvable (path_stem filepath) c /\
      shrinks (bpy_data s) d4 /\
      ~ In c (collection_names d4) /\
      s' = snd (swap_visibility c
                  (mkPipelineState (create_collection c empty objs d4)
                     (created_collections s)))).
Proof.
  intros host filepath settings [d cr] r s'.
  unfold process_single_obj, bind, on_data. cbn [bpy_data created_collections].
  destruct (resolve_col_name (path_stem filepath) settings d) as [[c|e] d1] eqn:Eres;
    destruct (resolve_col_name_spec _ _ _ _ _ Eres) as [Hsh1 Hfree].
  2:{ intros H. injection H as _ <-. left. split; [reflexivity|exact Hsh1]. }
  destruct (Hfree c eq_refl) as [Hc Hresolv]. cbn [bpy_data created_collections].
  destruct (import_obj_file host filepath (Settings.up_axis settings) d1)
    as [[objs|e] d2] eqn:Eimp;
    pose proof (keeps_import_obj_file _ _ _ _ _ _ Eimp) as Hk2.
  2:{ intros H. injection H as _ <-. left. split; [reflexivity|].
      eapply shrinks_trans; [exact Hsh1|now apply keeps_shrinks]. }
  destruct objs as [|o objs].
  { intros H. injection H as _ <-. left. split; [reflexivity|].
    eapply shrinks_trans; [exact Hsh1|now apply keeps_shrinks]. }
  cbn [bpy_data created_collections].
  destruct (normalize_objects settings (o :: objs) d2) as [[[]|e] d3] eqn:Enorm;
    pose proof (keeps_normalize_objects _ _ _ _ _ Enorm) as Hk3.
  2:{ intros H. injection H as _ <-. left. split; [reflexivity|].
      eapply shrinks_trans; [exact Hsh1|].
      apply keeps_shrinks. eapply keeps_trans; eassumption. }
  cbn [bpy_data created_collections].
  destruct (create_empty (path_stem filepath) (o :: objs) d3) as [[empty|e] d4] eqn:Eemp;
    pose proof (keeps_create_empty _ _ _ _ _ Eemp) as Hk4.
  2:{ intros H. injection H as _ <-. left. split; [reflexivity|].
      eapply shrinks_trans; [exact Hsh1|].
      apply keeps_shrinks. eapply keeps_trans; [|exact Hk4].
      eapply keeps_trans; eassumption. }
  cbn [bpy_data created_collections]. unfold modify at 1.
  cbn [bpy_data created_collections].
  assert (Hk : keeps_collections d1 d4).
  { eapply keeps_trans; [|exact Hk4]. eapply keeps_trans; eassumption. }
  intros H. right. exists c, d4, empty, (o :: objs).
  rewrite swap_visibility_result in H. injection H as <- <-.
  split; [reflexivity|]. split; [exact Hresolv|]. split.
  - eapply shrinks_trans; [exact Hsh1|now apply keeps_shrinks].
  - split; [|now rewrite swap_visibility_result].
    now rewrite (keeps_collection_names _ _ Hk).
Qed.

(** ** The visibility invariant *)

Lemma root_name_flags : forall d,
  lc_name (layer_collection d) = hd "" (map fst (scene_flags d)).
Proof. intros d. now rewrite scene_flags_root. Qed.

Lemma scene_names_split : forall d n,
  In n (map fst (scene_flags d)) ->
  n = lc_name (layer_collection d) \/ In n (collection_names d).
Proof.
  intros d n. rewrite scene_flags_root. cbn. intros [H|H]; [now left|right].
  unfold collection_names. apply in_or_app. now left.
Qed.

Lemma vis_inv_shrinks : forall d d' cr,
  vis_inv (mkPipelineState d cr) ->
  shrinks d d' ->
  vis_inv (mkPipelineState d' cr).
Proof.
  intros d d' cr [Hcount Hhid] Hsh.
  pose proof (shrinks_scene_flags _ _ Hsh) as Hsub.
  split; cbn [bpy_data created_collections] in *.
  - intros n Hin. specialize (Hcount n Hin). unfold count_name in *.
    pose proof (sublist_filter_length _ (fun p => fst p =? n) _ _ Hsub). lia.
  - intros n Hin Hne. apply hidden_iff. intros Hv.
    specialize (Hhid n Hin Hne). apply hidden_iff in Hhid. apply Hhid.
    eapply sublist_In; eassumption.
Qed.

(** One run of the pipeline, from a state satisfying the invariant. *)
Lemma process_single_obj_visibility : forall host filepath settings s r s',
  vis_inv s ->
  (forall c, resolvable (path_stem filepath) c ->
             c <> lc_name (layer_collection (bpy_data s))) ->
  process_single_obj host filepath (Some settings) s = (r, s') ->
  lc_name (layer_collection (bpy_data s')) = lc_name (layer_collection (bpy_data s)) /\
  vis_inv s' /\
  ((created_collections s' = created_collections s /\
    sublist (scene_flags (bpy_data s')) (scene_flags (bpy_data s))) \/
   (exists c,
       r = Ok tt /\
       created_collections s' = created_collections s ++ [c] /\
       visible c (bpy_data s') = true /\
       (forall n, In n (created_collections s) -> n <> c ->
                  hidden n (bpy_data s') = true) /\
       (forall n e, n <> c -> n <> last (created_collections s) "" ->
                    In (n, e) (scene_flags (bpy_data s')) ->
                    In (n, e) (scene_flags (bpy_data s))))).
Proof.
  intros host filepath settings [d cr] r s' Hinv Hroot Hrun.
  cbn [bpy_data created_collections] in *.
  destruct (process_single_obj_cases _ _ _ _ _ _ Hrun)
    as [[Hcr Hsh]|(c & d4 & empty & objs & -> & Hres & Hsh & Hfree & ->)];
    cbn [bpy_data created_collections] in *.
  - destruct s' as [d' cr']. cbn [bpy_data created_collections] in *. subst cr'.
    split; [apply Hsh|]. split; [eapply vis_inv_shrinks; eassumption|].
    left. split; [reflexivity|now apply shrinks_scene_flags].
  - rewrite swap_visibility_result. cbn [snd bpy_data created_collections].
    pose proof (vis_inv_shrinks _ _ _ Hinv Hsh) as [Hcount4 Hhid4].
    cbn [bpy_data created_collections] in *.
    assert (Hname4 : lc_name (layer_collection d4) = lc_name (layer_collection d))
      by apply Hsh.
    assert (Hc4 : ~ In c (map fst (scene_flags d4))).
    { intros H. apply scene_names_split in H. destruct H as [H|H]; [|contradiction].
      apply (Hroot c Hres). congruence. }
    set (d5 := create_collection c empty objs d4).
    assert (H5 : scene_flags d5 = scene_flags d4 ++ [(c, false)])
      by (now apply create_collection_flags).
    set (d6 := match cr with
               | [] => d5
               | _ :: _ => set_collection_visibility (last cr "") false d5
               end).
    assert (H6 : scene_flags d6 =
                 match cr with
                 | [] => scene_flags d5
                 | _ :: _ => set_first_flag (last cr "") true (scene_flags d5)
                 end).
    { subst d6. destruct cr; [reflexivity|apply set_collection_visibility_flags]. }
    assert (H6n : map fst (scene_flags d6) = map fst (scene_flags d5)).
    { rewrite H6. destruct cr; [reflexivity|apply set_first_flag_names]. }
    assert (H6c : forall m, count_name m (scene_flags d6) = count_name m (scene_flags d5)).
    { intros m. rewrite H6. destruct cr; [reflexivity|apply count_name_set_first]. }
    set (d7 := set_collection_visibility c true d6).
    assert (H7 : scene_flags d7 = set_first_flag c false (scene_flags d6))
      by apply set_collection_visibility_flags.
    assert (Hcount5 : forall m, count_name m (scene_flags d5)
                                = (count_name m (scene_flags d4)
                                   + if (c =? m)%string then 1 else 0)%nat).
    { intros m. rewrite H5, count_name_app. unfold count_name at 2. cbn.
      destruct (c =? m); reflexivity. }
    assert (Hsub4 : sublist (scene_flags d4) (scene_flags d))
      by now apply shrinks_scene_flags.
    (* entries of other names that survive come from the state before *)
    assert (Hback : forall n e, n <> c -> n <> last cr "" ->
                      In (n, e) (scene_flags d7) -> In (n, e) (scene_flags d)).
    { intros n e Hnc Hnl Hin. rewrite H7 in Hin.
      apply set_first_flag_other in Hin; [|exact Hnc].
      rewrite H6 in Hin.
      assert (Hin5 : In (n, e) (scene_flags d5)).
      { destruct cr; [exact Hin|]. now apply set_first_flag_other in Hin. }
      rewrite H5 in Hin5. apply in_app_or in Hin5.
      destruct Hin5 as [Hin4|[Heq|[]]]; [|injection Heq as -> _; contradiction].
      eapply sublist_In; eassumption. }
    assert (Hhidden : forall n, In n cr -> n <> c -> hidden n d7 = true).
    { intros n Hin Hnc. apply hidden_iff. intros Hv.
      destruct (string_dec n (last cr "")) as [Hl|Hnl].
      - rewrite H7 in Hv. apply set_first_flag_other in Hv; [|exact Hnc].
        rewrite H6 in Hv. destruct cr as [|x cr']; [destruct Hin|].
        rewrite Hl in Hv. apply set_first_flag_unique in Hv; [discriminate|].
        rewrite Hcount5. rewrite <- Hl.
        destruct (String.eqb_spec c n) as [->|_]; [contradiction|].
        specialize (Hcount4 n Hin). lia.
      - specialize (Hhid4 n Hin Hnl). apply hidden_iff in Hhid4. apply Hhid4.
        pose proof (Hback n false Hnc Hnl Hv) as Hd.
        rewrite H7 in Hv. apply set_first_flag_other in Hv; [|exact Hnc].
        rewrite H6 in Hv.
        assert (Hin5 : In (n, false) (scene_flags d5)).
        { destruct cr; [exact Hv|]. now apply set_first_flag_other in Hv. }
        rewrite H5 in Hin5. apply in_app_or in Hin5.
        destruct Hin5 as [Hin4|[Heq|[]]]; [exact Hin4|].
        injection Heq as ->. contradiction. }
    split; [|split; [split|right; exists c]].
    + rewrite <- Hname4.
      rewrite (root_name_flags d7), H7, set_first_flag_names, H6n, H5, map_app.
      rewrite (scene_flags_root d4). reflexivity.
    + cbn [bpy_data created_collections]. intros n Hin.
      rewrite H7, count_name_set_first, H6c, Hcount5.
      destruct (String.eqb_spec c n) as [<-|Hne].
      * apply count_name_absent in Hc4. lia.
      * apply in_app_or in Hin. destruct Hin as [Hin|[Heq|[]]]; [|congruence].
        specialize (Hcount4 n Hin). lia.
    + cbn [bpy_data created_collections]. rewrite last_last. intros n Hin Hne.
      apply in_app_or in Hin. destruct Hin as [Hin|[Heq|[]]]; [|congruence].
      now apply Hhidden.
    + split; [reflexivity|]. split; [reflexivity|]. split; [|split].
      * apply visible_iff. rewrite H7. apply set_first_flag_set.
        rewrite H6n, H5, map_app. apply in_or_app. right. now left.
      * exact Hhidden.
      * exact Hback.
Qed.

Lemma run_files_visibility : forall host settings files s0,
  vis_inv s0 ->
  (forall f c, In f files -> resolvable (path_stem f) c ->
               c <> lc_name (layer_collection (bpy_data s0))) ->
  vis_inv (run_files host settings files s0) /\
  lc_name (layer_collection (bpy_data (run_files host settings files s0)))
  = lc_name (layer_collection (bpy_data s0)).
Proof.
  intros host settings files. induction files as [|f r IH]; intros s0 Hinv Hroot.
  - split; [exact Hinv|reflexivity].
  - cbn [run_files].
    destruct (process_single_obj host f (Some settings) s0) as [res s1] eqn:E.
    destruct (process_single_obj_visibility host f settings s0 res s1 Hinv)
      as (Hname & Hinv1 & _); [intros c Hc; apply (Hroot f c); [now left|exact Hc]|exact E|].
    cbn [snd]. destruct (IH s1 Hinv1) as [Hinv' Hname'].
    + intros g c Hg Hc. rewrite Hname. apply (Hroot g c); [now right|exact Hc].
    + split; [exact Hinv'|congruence].
Qed.

(** C1 (amended). Whatever files the job has processed so far, after the
    next run of the pipeline every collection created by the job other
    than the one named last in the list is hidden.  If the run creates a
    collection, that one is visible - so exactly the most recently
    created one is - and the swap touched only the flags of the
    previously last one and of the new one.  If the run creates none
    (empty import or exception), it changes no flag and at most removes
    collections.  The names the files resolve to are assumed to differ
    from the name of the scene collection itself. *)
Theorem single_visibility_invariant : forall host settings files filepath s0,
  created_collections s0 = [] ->
  (forall f c, In f (files ++ [filepath]) -> resolvable (path_stem f) c ->
               c <> lc_name (layer_collection (bpy_data s0))) ->
  let s := run_files host settings files s0 in
  let rs := process_single_obj host filepath (Some settings) s in
  (forall n, In n (created_collections (snd rs)) ->
             n <> last (created_collections (snd rs)) "" ->
             hidden n (bpy_data (snd rs)) = true) /\
  ((created_collections (snd rs) = created_collections s /\
    sublist (scene_flags (bpy_data (snd rs))) (scene_flags (bpy_data s))) \/
   (exists c,
       fst rs = Ok tt /\
       created_collections (snd rs) = created_collections s ++ [c] /\
       visible c (bpy_data (snd rs)) = true /\
       (forall n, In n (created_collections s) -> n <> c ->
                  hidden n (bpy_data (snd rs)) = true) /\
       (forall n e, n <> c -> n <> last (created_collections s) "" ->
                    In (n, e) (scene_flags (bpy_data (snd rs))) ->
                    In (n, e) (scene_flags (bpy_data s))))).
Proof.
  intros host settings files filepath s0 Hnil Hroot s rs.
  assert (Hinv0 : vis_inv s0).
  { split; rewrite Hnil; intros n []. }
  destruct (run_files_visibility host settings files s0 Hinv0) as [Hinv Hname].
  { intros f c Hf. apply Hroot. apply in_or_app. now left. }
  fold s in Hinv, Hname.
  destruct (process_single_obj_visibility host filepath settings s (fst rs) (snd rs) Hinv)
    as (_ & [_ Hhid] & Hcases).
  - intros c Hc. rewrite Hname. apply (Hroot filepath c); [|exact Hc].
    apply in_or_app. right. now left.
  - subst rs. now destruct (process_single_obj _ _ _ _).
  - split; [exact Hhid|exact Hcases].
Qed.

Lemma single_visibility_invariant_witness :
  created_collections
    (snd (process_single_obj host_abcb file_B_again (Some settings_replace)
            (run_files host_abcb settings_replace files_abc fresh_pipeline)))
  = ["A"; "B"; "C"; "B"] /\
  visible "B"
    (bpy_data (snd (process_single_obj host_abcb file_B_again (Some settings_replace)
                      (run_files host_abcb settings_replace files_abc fresh_pipeline))))
  = true /\
  hidden "A"
    (bpy_data (snd (process_single_obj host_abcb file_B_again (Some settings_replace)
                      (run_files host_abcb settings_replace files_abc fresh_pipeline))))
  = true /\
  hidden "C"
    (bpy_data (snd (process_single_obj host_abcb file_B_again (Some settings_replace)
                      (run_files host_abcb settings_replace files_abc fresh_pipeline))))
  = true.
Proof.
  assert (Hroot : forall f c, In f (files_abc ++ [file_B_again]) ->
                    resolvable (path_stem f) c ->
                    c <> lc_name (layer_collection (bpy_data fresh_pipeline))).
  { intros f c Hf Hc. cbn in Hf.
    destruct Hf as [<-|[<-|[<-|[<-|[]]]]];
      (destruct Hc as [->|[i ->]]; [vm_compute; discriminate|]);
      unfold candidate; cbn; discriminate. }
  destruct (single_visibility_invariant host_abcb settings_replace files_abc
              file_B_again fresh_pipeline eq_refl Hroot) as [Hhid _].
  assert (Hcr : created_collections
                  (snd (process_single_obj host_abcb file_B_again (Some settings_replace)
                          (run_files host_abcb settings_replace files_abc fresh_pipeline)))
                = ["A"; "B"; "C"; "B"]) by (vm_compute; reflexivity).
  split; [exact Hcr|]. split; [vm_compute; reflexivity|].
  split; apply Hhid; rewrite Hcr; cbn; try tauto; discriminate.
Defined.

(** C1 as stated fails in replace mode.  The job has files with stems A,
    B and B; the second B imports nothing.  After two ticks B, the most
    recently created collection, is visible and A is hidden; the third
    tick deletes B before importing and then stops, so the most recently
    created collection is no longer visible (nor is any other). *)
Lemma single_visibility_counterexample :
  _created_collections (cls ab_void_after_2) = ["A"; "B"] /\
  visible "B" (bpy ab_void_after_2) = true /\
  _created_collections (cls ab_void_after_3) = ["A"; "B"] /\
  _errors (cls ab_void_after_3) = [] /\
  visible "B" (bpy ab_void_after_3) = false /\
  visible "A" (bpy ab_void_after_3) = false /\
  in_collections "B" (bpy ab_void_after_3) = false.
Proof. repeat split; vm_compute; reflexivity. Qed.

Lemma bpy_with_props : forall p s, bpy (with_props p s) = bpy s.
Proof. reflexivity. Qed.

Lemma settings_snapshot_noninterference_witness :
  _settings (cls job_bad_good)
  = Some (Settings.mk AXIS_Y true false None true false false) /\
  bpy (snd (run_modal host_bad_good
              [Deliver TIMER; EditProperties edited_properties; Deliver TIMER]
              job_bad_good))
  = bpy bad_good_after_2.
Proof.
  destruct (settings_snapshot_noninterference host_bad_good) as (Hsnap & _ & Hrun).
  split.
  - apply (Hsnap (idle_state empty_scene (demo_properties false)) job_bad_good).
    reflexivity.
  - destruct (Hrun [Deliver TIMER; EditProperties edited_properties; Deliver TIMER]
                job_bad_good edited_properties) as [_ H].
    apply (f_equal bpy) in H. rewrite !bpy_with_props in H.
    unfold bad_good_after_2. exact H.
Defined.

(** ** The ticks of a job and the sequence of pipeline runs *)

Lemma skipn_nth_error : forall (A : Type) (l : list A) i x,
  nth_error l i = Some x -> skipn i l = x :: skipn (S i) l.
Proof.
  intros A l. induction l as [|y l IH]; intros [|i] x H; cbn in *; try discriminate.
  - now injection H as <-.
  - now apply IH.
Qed.

(** [n] ticks process the next [n] files exactly as [run_files] does. *)
Lemma ticks_run_files : forall host settings n undo0 timer s,
  job_inv undo0 timer s ->
  _settings (cls s) = Some settings ->
  (Z.of_nat n <= _total (cls s) - _index (cls s))%Z ->
  exists sn,
    run_modal host (ticks n) s = (None, sn) /\
    mkPipelineState (bpy sn) (_created_collections (cls sn))
    = run_files host settings
        (firstn n (skipn (Z.to_nat (_index (cls s))) (_obj_files (cls s))))
        (mkPipelineState (bpy s) (_created_collections (cls s))).
Proof.
  intros host settings n. induction n as [|n IH]; intros undo0 timer s Hinv Hset Hn.
  - exists s. split; reflexivity.
  - destruct (modal_timer_step host undo0 timer s Hinv)
      as (fp & s1 & Hnth & Hm & Hinv1 & Hi & Ht & Hf & Hs & _ & _ & _ & _ & Hb & Hc & _);
      [lia|].
    destruct (IH undo0 timer s1 Hinv1) as (sn & Hrun & Hfiles); [congruence|lia|].
    exists sn. unfold ticks in *. cbn [repeat run_modal]. rewrite Hm.
    split; [exact Hrun|]. rewrite Hfiles.
    rewrite (skipn_nth_error _ _ _ _ Hnth). cbn [firstn run_files].
    rewrite Hf, Hi. replace (Z.to_nat (_index (cls s) + 1)) with (S (Z.to_nat (_index (cls s))))
      by (destruct Hinv as (_ & _ & H0 & _); lia).
    rewrite Hset in Hb, Hc. rewrite Hb, Hc.
    destruct (process_single_obj host fp (Some settings)
                (mkPipelineState (bpy s) (_created_collections (cls s))))
      as [r [dd cc]].
    reflexivity.
Qed.

(** ** Whole jobs, computed *)

(** Three files, replace off: three collections named after the stems,
    only the third visible, and the summary counts three. *)
Example three_files_job :
  fst (run_job host_abc (ticks 4) (idle_state empty_scene (demo_properties false)))
  = Some (Ok FINISHED) /\
  scene_flags (bpy (snd (run_job host_abc (ticks 4)
                           (idle_state empty_scene (demo_properties false)))))
  = [("Scene Collection", false); ("A", true); ("B", true); ("C", false)] /\
  reports (context (snd (run_job host_abc (ticks 4)
                           (idle_state empty_scene (demo_properties false)))))
  = [("INFO", "AutoIngest: 3 OBJ(s) imported.")].
Proof. repeat split; vm_compute; reflexivity. Qed.

(** Two of five files, then ESC: the report says 2/5, undo is back on,
    progress is 0, and the two collections stay. *)
Example cancelled_after_two_of_five :
  fst (run_job host_five (ticks 2 ++ [Deliver ESC])
         (idle_state empty_scene (demo_properties false)))
  = Some (Ok FINISHED) /\
  reports (context (snd (run_job host_five (ticks 2 ++ [Deliver ESC])
                           (idle_state empty_scene (demo_properties false)))))
  = [("WARNING", "Import cancelled after 2/5 files.")] /\
  use_global_undo (context (snd (run_job host_five (ticks 2 ++ [Deliver ESC])
                                   (idle_state empty_scene (demo_properties false)))))
  = true /\
  autoingest_progress (context (snd (run_job host_five (ticks 2 ++ [Deliver ESC])
                                       (idle_state empty_scene (demo_properties false)))))
  = 0%Z /\
  collection_names (bpy (snd (run_job host_five (ticks 2 ++ [Deliver ESC])
                                (idle_state empty_scene (demo_properties false)))))
  = ["a"; "b"].
Proof. repeat split; vm_compute; reflexivity. Qed.

(** One failing and one good file: the error is recorded with the file
    name, the job carries on, and the summary counts one import. *)
Example one_bad_file_job :
  _errors (cls bad_good_after_2) = ["bad.obj: Import failed"] /\
  collection_names (bpy bad_good_after_2) = ["good"] /\
  reports (context (snd (run_modal host_bad_good (ticks 3) job_bad_good)))
  = [("INFO", "AutoIngest: 1 OBJ(s) imported.  1 error(s) – see system console.")] /\
  console (context (snd (run_modal host_bad_good (ticks 3) job_bad_good)))
  = ["[AutoIngest ERROR] bad.obj: Import failed"].
Proof. repeat split; vm_compute; reflexivity. Qed.

(** * Further properties *)

(** ** Materials: [apply_diffuse_as_emissive] *)

Lemma inputs_get_name : forall ins name s,
  inputs_get ins name = Some s -> sock_name s = name.
Proof.
  intros ins name s H. unfold inputs_get in H. apply find_some in H.
  destruct H as [_ H]. now apply String.eqb_eq in H.
Qed.

Lemma inputs_update_absent : forall ins name f,
  inputs_get ins name = None -> inputs_update ins name f = ins.
Proof.
  intros ins name f. unfold inputs_get.
  induction ins as [|s r IH]; cbn; [reflexivity|].
  destruct (sock_name s =? name); [discriminate|]. intros H. now rewrite IH.
Qed.

Lemma inputs_get_update_same : forall ins name f s,
  sock_name (f s) = sock_name s ->
  inputs_get ins name = Some s ->
  inputs_get (inputs_update ins name f) name = Some (f s).
Proof.
  intros ins name f s Hf. unfold inputs_get.
  induction ins as [|x r IH]; cbn; [discriminate|].
  destruct (sock_name x =? name) eqn:E.
  - intros H. injection H as ->. cbn. now rewrite Hf, E.
  - intros H. cbn. rewrite E. now apply IH.
Qed.

Lemma inputs_get_update_other : forall ins name name' f,
  (forall s, sock_name (f s) = sock_name s) ->
  name' <> name ->
  inputs_get (inputs_update ins name f) name' = inputs_get ins name'.
Proof.
  intros ins name name' f Hf Hne. unfold inputs_get.
  induction ins as [|x r IH]; cbn; [reflexivity|].
  destruct (String.eqb_spec (sock_name x) name) as [E|E]; cbn.
  - rewrite Hf. destruct (String.eqb_spec (sock_name x) name'); [congruence|reflexivity].
  - destruct (sock_name x =? name'); [reflexivity|exact IH].
Qed.

Lemma inputs_update_names : forall ins name f,
  (forall s, sock_name (f s) = sock_name s) ->
  map sock_name (inputs_update ins name f) = map sock_name ins.
Proof.
  intros ins name f Hf. induction ins as [|x r IH]; cbn; [reflexivity|].
  destruct (sock_name x =? name); cbn; [now rewrite Hf|now rewrite IH].
Qed.

Lemma inputs_update_idem : forall ins name f,
  (forall s, sock_name (f s) = sock_name s) ->
  (forall s, f (f s) = f s) ->
  inputs_update (inputs_update ins name f) name f = inputs_update ins name f.
Proof.
  intros ins name f Hn Hf. induction ins as [|x r IH]; cbn; [reflexivity|].
  destruct (sock_name x =? name) eqn:E; cbn.
  - now rewrite Hn, E, Hf.
  - now rewrite E, IH.
Qed.

Lemma inputs_update_comm : forall ins a b f g,
  (forall s, sock_name (f s) = sock_name s) ->
  (forall s, sock_name (g s) = sock_name s) ->
  a <> b ->
  inputs_update (inputs_update ins a f) b g = inputs_update (inputs_update ins b g) a f.
Proof.
  intros ins a b f g Hf Hg Hne. induction ins as [|x r IH]; cbn; [reflexivity|].
  destruct (String.eqb_spec (sock_name x) a) as [Ea|Ea];
    destruct (String.eqb_spec (sock_name x) b) as [Eb|Eb]; cbn.
  - congruence.
  - rewrite Hf. destruct (String.eqb_spec (sock_name x) b); [contradiction|].
    destruct (String.eqb_spec (sock_name x) a); [reflexivity|contradiction].
  - rewrite Hg. destruct (String.eqb_spec (sock_name x) a); [contradiction|].
    destruct (String.eqb_spec (sock_name x) b); [reflexivity|contradiction].
  - destruct (String.eqb_spec (sock_name x) a); [contradiction|].
    destruct (String.eqb_spec (sock_name x) b); [contradiction|]. now rewrite IH.
Qed.

Lemma emission_input_name : forall ins e,
  emission_input ins = Some e ->
  (sock_name e = "Emission Color" /\ inputs_get ins "Emission Color" = Some e) \/
  (sock_name e = "Emission" /\ inputs_get ins "Emission Color" = None
   /\ inputs_get ins "Emission" = Some e).
Proof.
  intros ins e. unfold emission_input.
  destruct (inputs_get ins "Emission Color") as [s|] eqn:E.
  - intros H. injection H as ->. left. split; [|reflexivity].
    eapply inputs_get_name; eassumption.
  - intros H. right. split; [|split; [reflexivity|exact H]].
    eapply inputs_get_name; eassumption.
Qed.

(** What [rewire_principled] does to a node it rewires, as one equation. *)
Lemma rewire_principled_wired : forall n bc src e,
  node_type n = "BSDF_PRINCIPLED" ->
  inputs_get (inputs n) "Base Color" = Some bc ->
  sock_link bc = Some src ->
  emission_input (inputs n) = Some e ->
  rewire_principled n =
  mkNode (node_type n)
    (inputs_update
       (inputs_update (inputs n) (sock_name e)
          (fun s => mkSocket (sock_name s) (Some src) (default_value s)))
       "Emission Strength"
       (fun s => mkSocket (sock_name s) (sock_link s) 1%Q)).
Proof.
  intros n bc src e Ht Hb Hl He. unfold rewire_principled.
  rewrite Ht, Hb, Hl. cbn [String.eqb Ascii.eqb Bool.eqb].
  change (match inputs_get (inputs n) "Emission Color" with
          | Some s => Some s
          | None => inputs_get (inputs n) "Emission"
          end) with (emission_input (inputs n)).
  rewrite He. reflexivity.
Qed.

(** The sockets of a node after it was rewired. *)
Lemma rewire_principled_links : forall n bc src e,
  node_type n = "BSDF_PRINCIPLED" ->
  inputs_get (inputs n) "Base Color" = Some bc ->
  sock_link bc = Some src ->
  emission_input (inputs n) = Some e ->
  node_type (rewire_principled n) = node_type n /\
  map sock_name (inputs (rewire_principled n)) = map sock_name (inputs n) /\
  inputs_get (inputs (rewire_principled n)) "Base Color" = Some bc /\
  emission_input (inputs (rewire_principled n))
    = Some (mkSocket (sock_name e) (Some src) (default_value e)) /\
  (forall s, inputs_get (inputs n) "Emission Strength" = Some s ->
     inputs_get (inputs (rewire_principled n)) "Emission Strength"
     = Some (mkSocket (sock_name s) (sock_link s) 1%Q)) /\
  (forall name, name <> sock_name e -> name <> "Emission Strength" ->
     inputs_get (inputs (rewire_principled n)) name = inputs_get (inputs n) name).
Proof.
  intros n bc src e Ht Hb Hl He.
  rewrite (rewire_principled_wired n bc src e Ht Hb Hl He). cbn [node_type inputs].
  set (L := fun s => mkSocket (sock_name s) (Some src) (default_value s)).
  set (S1 := fun s => mkSocket (sock_name s) (sock_link s) 1%Q).
  assert (HL : forall s, sock_name (L s) = sock_name s) by reflexivity.
  assert (HS : forall s, sock_name (S1 s) = sock_name s) by reflexivity.
  assert (Hother : forall name, name <> sock_name e -> name <> "Emission Strength" ->
            inputs_get (inputs_update (inputs_update (inputs n) (sock_name e) L)
                          "Emission Strength" S1) name
            = inputs_get (inputs n) name).
  { intros name H1 H2.
    rewrite inputs_get_update_other by assumption.
    now rewrite inputs_get_update_other by assumption. }
  split; [reflexivity|]. split.
  { now rewrite !inputs_update_names. }
  destruct (emission_input_name _ _ He) as [[Hn Hg]|(Hn & Hnone & Hg)].
  - split; [rewrite Hother; [exact Hb|rewrite Hn; discriminate|discriminate]|].
    split.
    + unfold emission_input.
      rewrite (inputs_get_update_other _ "Emission Strength" "Emission Color" S1 HS)
        by discriminate.
      rewrite Hn. rewrite (inputs_get_update_same _ "Emission Color" L e (HL e) Hg).
      unfold L. now rewrite Hn.
    + split; [|exact Hother].
      intros s Hs. apply (inputs_get_update_same _ "Emission Strength" S1 s (HS s)).
      rewrite inputs_get_update_other; [exact Hs|exact HL|rewrite Hn; discriminate].
  - split; [rewrite Hother; [exact Hb|rewrite Hn; discriminate|discriminate]|].
    split.
    + unfold emission_input.
      rewrite (inputs_get_update_other _ "Emission Strength" "Emission Color" S1 HS)
        by discriminate.
      rewrite (inputs_get_update_other _ (sock_name e) "Emission Color" L HL)
        by (rewrite Hn; discriminate).
      rewrite Hnone.
      rewrite (inputs_get_update_other _ "Emission Strength" "Emission" S1 HS)
        by discriminate.
      rewrite Hn. rewrite (inputs_get_update_same _ "Emission" L e (HL e) Hg).
      unfold L. now rewrite Hn.
    + split; [|exact Hother].
      intros s Hs. apply (inputs_get_update_same _ "Emission Strength" S1 s (HS s)).
      rewrite inputs_get_update_other; [exact Hs|exact HL|rewrite Hn; discriminate].
Qed.

(** X1. A Principled BSDF node whose Base Color input is linked and which
    has an emission input comes out with that emission input linked to
    the very socket that feeds Base Color, Emission Strength (if present)
    set to 1, and everything else - the node type, the sockets and their
    order, Base Color itself, every other input - as it was. *)
Theorem rewire_principled_links_emission : forall n bc src e,
  node_type n = "BSDF_PRINCIPLED" ->
  inputs_get (inputs n) "Base Color" = Some bc ->
  sock_link bc = Some src ->
  emission_input (inputs n) = Some e ->
  node_type (rewire_principled n) = node_type n /\
  map sock_name (inputs (rewire_principled n)) = map sock_name (inputs n) /\
  inputs_get (inputs (rewire_principled n)) "Base Color" = Some bc /\
  emission_input (inputs (rewire_principled n))
    = Some (mkSocket (sock_name e) (Some src) (default_value e)) /\
  (forall s, inputs_get (inputs n) "Emission Strength" = Some s ->
     inputs_get (inputs (rewire_principled n)) "Emission Strength"
     = Some (mkSocket (sock_name s) (sock_link s) 1%Q)) /\
  (forall name, name <> sock_name e -> name <> "Emission Strength" ->
     inputs_get (inputs (rewire_principled n)) name = inputs_get (inputs n) name).
Proof. exact rewire_principled_links. Qed.

Lemma rewire_principled_links_emission_witness :
  emission_input (inputs (rewire_principled principled_textured))
  = Some (mkSocket "Emission Color" (Some "Image Texture.Color") 0) /\
  inputs_get (inputs (rewire_principled principled_textured)) "Emission Strength"
  = Some (mkSocket "Emission Strength" None 1) /\
  emission_input (inputs (rewire_principled principled_old_build))
  = Some (mkSocket "Emission" (Some "Image Texture.Color") 0).
Proof.
  destruct (rewire_principled_links_emission principled_textured
              (mkSocket "Base Color" (Some "Image Texture.Color") (1 # 2))
              "Image Texture.Color" (mkSocket "Emission Color" None 0)
              eq_refl eq_refl eq_refl eq_refl) as (_ & _ & _ & He & Hs & _).
  destruct (rewire_principled_links_emission principled_old_build
              (mkSocket "Base Color" (Some "Image Texture.Color") (1 # 2))
              "Image Texture.Color" (mkSocket "Emission" (Some "Other.Color") 0)
              eq_refl eq_refl eq_refl eq_refl) as (_ & _ & _ & He' & _).
  split; [exact He|]. split; [|exact He'].
  apply (Hs (mkSocket "Emission Strength" None 0)). reflexivity.
Defined.

(** A node the rewiring skips is returned as it is. *)
Lemma rewire_principled_skips : forall n,
  node_type n <> "BSDF_PRINCIPLED" \/
  inputs_get (inputs n) "Base Color" = None \/
  (exists bc, inputs_get (inputs n) "Base Color" = Some bc /\ sock_link bc = None) \/
  emission_input (inputs n) = None ->
  rewire_principled n = n.
Proof.
  intros n H. unfold rewire_principled.
  destruct (String.eqb_spec (node_type n) "BSDF_PRINCIPLED") as [Ht|Ht]; [|reflexivity].
  destruct (inputs_get (inputs n) "Base Color") as [bc|] eqn:Eb; [|reflexivity].
  destruct (sock_link bc) as [src|] eqn:El; [|reflexivity].
  change (match inputs_get (inputs n) "Emission Color" with
          | Some s => Some s
          | None => inputs_get (inputs n) "Emission"
          end) with (emission_input (inputs n)).
  destruct H as [H|[H|[(bc' & H1 & H2)|H]]]; try congruence.
  now rewrite H.
Qed.

(** Re-running the rewiring on a node changes nothing more. *)
Lemma rewire_principled_twice : forall n,
  rewire_principled (rewire_principled n) = rewire_principled n.
Proof.
  intros n.
  destruct (String.eqb_spec (node_type n) "BSDF_PRINCIPLED") as [Ht|Ht].
  2:{ rewrite (rewire_principled_skips n) by now left.
      apply rewire_principled_skips. now left. }
  destruct (inputs_get (inputs n) "Base Color") as [bc|] eqn:Eb.
  2:{ rewrite (rewire_principled_skips n) by (right; now left).
      apply rewire_principled_skips. right. now left. }
  destruct (sock_link bc) as [src|] eqn:El.
  2:{ rewrite (rewire_principled_skips n) by (right; right; left; now exists bc).
      apply rewire_principled_skips. right. right. left. now exists bc. }
  destruct (emission_input (inputs n)) as [e|] eqn:Ee.
  2:{ rewrite (rewire_principled_skips n) by (right; right; now right).
      apply rewire_principled_skips. right. right. now right. }
  destruct (rewire_principled_links n bc src e Ht Eb El Ee)
    as (Ht' & _ & Hb' & He' & _).
  pose proof (rewire_principled_wired (rewire_principled n) bc src _
                (eq_trans Ht' Ht) Hb' El He') as Hw2.
  pose proof (rewire_principled_wired n bc src e Ht Eb El Ee) as Hw.
  rewrite Hw2. rewrite Hw. cbn [node_type inputs sock_name]. f_equal.
  set (L := fun s => mkSocket (sock_name s) (Some src) (default_value s)).
  set (S1 := fun s => mkSocket (sock_name s) (sock_link s) 1%Q).
  assert (HL : forall s, sock_name (L s) = sock_name s) by reflexivity.
  assert (HS : forall s, sock_name (S1 s) = sock_name s) by reflexivity.
  assert (Hne : "Emission Strength" <> sock_name e).
  { destruct (emission_input_name _ _ Ee) as [[Hn _]|(Hn & _)]; rewrite Hn; discriminate. }
  rewrite (inputs_update_comm _ "Emission Strength" (sock_name e) S1 L HS HL Hne).
  rewrite (inputs_update_idem _ (sock_name e) L HL) by reflexivity.
  apply (inputs_update_idem _ "Emission Strength" S1 HS). reflexivity.
Qed.

Lemma rewire_slot_twice : forall slot, rewire_slot (rewire_slot slot) = rewire_slot slot.
Proof.
  intros [mat|]; [|reflexivity]. unfold rewire_slot.
  destruct (node_tree mat) as [nodes|] eqn:E; cbn [node_tree mat_name].
  - rewrite map_map. do 3 f_equal. apply map_ext. intros n. apply rewire_principled_twice.
  - now rewrite E.
Qed.

Lemma diffuse_as_emissive_object_twice : forall obj,
  diffuse_as_emissive_object (diffuse_as_emissive_object obj)
  = diffuse_as_emissive_object obj.
Proof.
  intros obj. unfold diffuse_as_emissive_object.
  destruct (ObType_eqb (ob_type obj) MESH) eqn:E; [|now rewrite E].
  change (ob_type (set_material_slots obj (map rewire_slot (material_slots obj))))
    with (ob_type obj).
  rewrite E. unfold set_material_slots. cbn [material_slots ob_id ob_name data location
    rotation scale parent parent_world matrix_parent_inverse empty_display_type].
  f_equal. rewrite map_map. apply map_ext. intros slot. apply rewire_slot_twice.
Qed.

(** X2. The rewiring is idempotent: re-running it on a node, and so on
    an object with all its material slots, changes nothing more - the
    second pass re-creates the same link and sets the same strength. *)
Theorem diffuse_as_emissive_idempotent : forall n obj,
  rewire_principled (rewire_principled n) = rewire_principled n /\
  diffuse_as_emissive_object (diffuse_as_emissive_object obj)
  = diffuse_as_emissive_object obj.
Proof.
  intros n obj. split;
    [apply rewire_principled_twice|apply diffuse_as_emissive_object_twice].
Qed.

(** ** Collections and visibility *)

Lemma first_flag_app : forall n l1 l2,
  first_flag n (l1 ++ l2)
  = match first_flag n l1 with Some p => Some p | None => first_flag n l2 end.
Proof.
  intros n l1 l2. unfold first_flag. induction l1 as [|p r IH]; cbn; [reflexivity|].
  now destruct (fst p =? n).
Qed.

Lemma first_flag_none : forall n l,
  first_flag n l = None <-> ~ In n (map fst l).
Proof.
  intros n l. unfold first_flag. induction l as [|[m e] r IH]; cbn.
  - split; [intros _ []|reflexivity].
  - destruct (String.eqb_spec m n) as [->|Hne].
    + split; [discriminate|]. intros H. exfalso. apply H. now left.
    + rewrite IH. split; [intros H [H'|H']; [contradiction|now apply H]|].
      intros H H'. apply H. now right.
Qed.

Lemma find_layer_collection_first : forall n t,
  match find_layer_collection t n with
  | Some x => lc_name x = n /\ first_flag n (lc_flags t) = Some (n, lc_exclude x)
  | None => first_flag n (lc_flags t) = None
  end.
Proof.
  intros n t. induction t as [m e o ch IH] using LayerCollection_nested_ind.
  cbn [find_layer_collection lc_flags]. unfold first_flag at 1 2. cbn [find fst].
  destruct (String.eqb_spec m n) as [->|Hne]; [now split|].
  fold (first_flag n (flat_map lc_flags ch)).
  induction ch as [|c r IHr]; [reflexivity|].
  inversion IH as [|? ? Hc Hr]; subst. cbn [flat_map]. rewrite first_flag_app.
  destruct (find_layer_collection c n) as [x|] eqn:E.
  - destruct Hc as [Hx Hf]. now rewrite Hf.
  - rewrite Hc. now apply IHr.
Qed.

(** X3. [find_layer_collection] finds a layer collection exactly when
    one of that name exists in the tree, and then returns the first one
    in depth-first order, parents before children: the node it returns
    carries the searched name and the exclude flag of the first entry of
    that name in the depth-first listing of the tree. *)
Theorem find_layer_collection_first_match : forall t n,
  (find_layer_collection t n = None <-> ~ In n (map fst (lc_flags t))) /\
  (forall x, find_layer_collection t n = Some x ->
     lc_name x = n /\ first_flag n (lc_flags t) = Some (n, lc_exclude x)).
Proof.
  intros t n. pose proof (find_layer_collection_first n t) as H.
  destruct (find_layer_collection t n) as [x|].
  - split.
    + split; [discriminate|]. intros Hn. apply first_flag_none in Hn.
      destruct H as [_ H]. congruence.
    + intros y Hy. injection Hy as <-. exact H.
  - split; [|discriminate]. split; [|reflexivity].
    intros _. now apply first_flag_none.
Qed.





Lemma find_layer_collection_first_match_witness :
  find_layer_collection (layer_collection scene_nested) "Absent" = None /\
  first_flag "Crates" (lc_flags (layer_collection scene_nested)) = Some ("Crates", true).
Proof.
  destruct (find_layer_collection_first_match (layer_collection scene_nested) "Absent")
    as [[_ H] _].
  destruct (find_layer_collection_first_match (layer_collection scene_nested) "Crates")
    as [_ H'].
  split.
  - apply H. vm_compute. intros [H0|[H0|[H0|[H0|[]]]]]; discriminate.
  - apply (H' (LayerColl "Crates" true [2%nat; 3%nat] [])). reflexivity.
Defined.

(** *** [delete_collection_recursive] *)

Lemma filter_filter : forall (A : Type) (p q : A -> bool) l,
  filter p (filter q l) = filter (fun x => q x && p x) l.
Proof.
  intros A p q l. induction l as [|x r IH]; cbn; [reflexivity|].
  destruct (q x); cbn; [destruct (p x)|]; now rewrite IH.
Qed.

Lemma filter_ext_all : forall (A : Type) (p q : A -> bool) l,
  (forall x, p x = q x) -> filter p l = filter q l.
Proof. intros A p q l H. apply filter_ext. exact H. Qed.

Lemma id_in_app : forall l1 l2 o, id_in (l1 ++ l2) o = id_in l1 o || id_in l2 o.
Proof. intros. unfold id_in. apply existsb_app. Qed.

Lemma objects_collections_remove : forall n d,
  objects (collections_remove n d) = objects d.
Proof. reflexivity. Qed.

Lemma objects_fold_remove : forall os d,
  objects (fold_left (fun acc obj => objects_remove obj acc) os d)
  = filter (fun o => negb (id_in os o)) (objects d).
Proof.
  induction os as [|i r IH]; intros d; cbn [fold_left].
  - unfold id_in. cbn. induction (objects d) as [|x l IHl]; cbn; congruence.
  - rewrite IH. cbn [objects_remove objects unlink_everywhere].
    rewrite filter_filter. apply filter_ext_all. intros o.
    unfold id_in. cbn [existsb]. now rewrite negb_orb.
Qed.

Lemma objects_delete_collection_recursive : forall col d,
  objects (delete_collection_recursive col d)
  = filter (fun o => negb (id_in (lc_all_objects col) o)) (objects d).
Proof.
  intros col. induction col as [n e os ch IH] using LayerCollection_nested_ind.
  intros d. cbn [delete_collection_recursive lc_all_objects].
  rewrite objects_collections_remove, objects_fold_remove.
  assert (Hch : forall d0,
    objects (fold_left (fun acc child_col => delete_collection_recursive child_col acc)
               ch d0)
    = filter (fun o => negb (id_in (flat_map lc_all_objects ch) o)) (objects d0)).
  { clear os. induction ch as [|c r IHr]; intros d0; cbn [fold_left flat_map].
    - unfold id_in. cbn. induction (objects d0) as [|x l IHl]; cbn; congruence.
    - inversion IH as [|? ? Hc Hr]; subst. rewrite (IHr Hr), Hc.
      rewrite filter_filter. apply filter_ext_all. intros o.
      now rewrite id_in_app, negb_orb. }
  rewrite Hch, filter_filter. apply filter_ext_all. intros o.
  rewrite id_in_app, negb_orb. apply andb_comm.
Qed.













Lemma next_id_delete_collection_recursive : forall col d,
  next_id (delete_collection_recursive col d) = next_id d.
Proof.
  intros col. induction col as [n e os ch IH] using LayerCollection_nested_ind.
  intros d. cbn [delete_collection_recursive collections_remove next_id].
  assert (Hos : forall l d0,
            next_id (fold_left (fun acc obj => objects_remove obj acc) l d0)
            = next_id d0).
  { induction l as [|i r IHr]; intros d0; cbn; [reflexivity|]. now rewrite IHr. }
  rewrite Hos. clear os Hos. revert d.
  induction ch as [|c r IHr]; intros d; cbn [fold_left]; [reflexivity|].
  inversion IH as [|? ? Hc Hr]; subst. now rewrite (IHr Hr), Hc.
Qed.



(** *** [move_to_collection] *)

Lemma existsb_remove_id_same : forall i os,
  existsb (Nat.eqb i) (remove_id i os) = false.
Proof.
  intros i os. unfold remove_id. induction os as [|j r IH]; cbn; [reflexivity|].
  destruct (Nat.eqb_spec j i) as [->|Hne]; cbn; [exact IH|].
  destruct (Nat.eqb_spec i j); [congruence|exact IH].
Qed.

Lemma existsb_remove_id_other : forall i j os,
  j <> i -> existsb (Nat.eqb j) (remove_id i os) = existsb (Nat.eqb j) os.
Proof.
  intros i j os Hne. unfold remove_id. induction os as [|k r IH]; cbn; [reflexivity|].
  destruct (Nat.eqb_spec k i) as [->|Hk]; cbn.
  - destruct (Nat.eqb_spec j i); [contradiction|exact IH].
  - now rewrite IH.
Qed.

Lemma existsb_snoc : forall j i (os : list ObjId),
  existsb (Nat.eqb j) (os ++ [i]) = existsb (Nat.eqb j) os || Nat.eqb j i.
Proof. intros. rewrite existsb_app. cbn. now rewrite orb_false_r. Qed.

(** After unlinking [i] everywhere and linking it to the collections
    named [n], a subtree's users of [i] are its collections named [n]. *)
Lemma lc_users_moved : forall i n t,
  lc_users i (lc_map_objects (String.eqb n) (fun l => l ++ [i])
                (lc_map_objects (fun _ => true) (remove_id i) t))
  = filter (String.eqb n) (map fst (lc_flags t)).
Proof.
  intros i n t. induction t as [m e o ch IH] using LayerCollection_nested_ind.
  cbn [lc_map_objects lc_users lc_flags map fst filter].
  destruct (n =? m) eqn:E.
  - rewrite existsb_snoc, Nat.eqb_refl, orb_true_r. cbn [app]. f_equal.
    induction ch as [|c r IHr]; cbn [map flat_map]; [reflexivity|].
    inversion IH as [|? ? Hc Hr]; subst.
    now rewrite Hc, (IHr Hr), map_app, filter_app.
  - rewrite existsb_remove_id_same. cbn [app].
    induction ch as [|c r IHr]; cbn [map flat_map]; [reflexivity|].
    inversion IH as [|? ? Hc Hr]; subst.
    now rewrite Hc, (IHr Hr), map_app, filter_app.
Qed.

Lemma lc_users_moved_other : forall i j n t,
  j <> i ->
  lc_users j (lc_map_objects (String.eqb n) (fun l => l ++ [i])
                (lc_map_objects (fun _ => true) (remove_id i) t))
  = lc_users j t.
Proof.
  intros i j n t Hne. induction t as [m e o ch IH] using LayerCollection_nested_ind.
  cbn [lc_map_objects lc_users].
  f_equal.
  { destruct (n =? m).
    - rewrite existsb_snoc, existsb_remove_id_other by exact Hne.
      destruct (Nat.eqb_spec j i); [contradiction|now rewrite orb_false_r].
    - now rewrite existsb_remove_id_other. }
  induction ch as [|c r IHr]; cbn [map flat_map]; [reflexivity|].
  inversion IH as [|? ? Hc Hr]; subst. now rewrite Hc, (IHr Hr).
Qed.

Lemma forest_users_moved : forall i n f,
  flat_map (lc_users i)
    (map (lc_map_objects (String.eqb n) (fun l => l ++ [i]))
       (map (lc_map_objects (fun _ => true) (remove_id i)) f))
  = filter (String.eqb n) (map fst (forest_flags f)).
Proof.
  intros i n f. unfold forest_flags.
  induction f as [|c r IH]; cbn [map flat_map]; [reflexivity|].
  now rewrite lc_users_moved, IH, map_app, filter_app.
Qed.

Lemma forest_users_moved_other : forall i j n f,
  j <> i ->
  flat_map (lc_users j)
    (map (lc_map_objects (String.eqb n) (fun l => l ++ [i]))
       (map (lc_map_objects (fun _ => true) (remove_id i)) f))
  = flat_map (lc_users j) f.
Proof.
  intros i j n f Hne. induction f as [|c r IH]; cbn [map flat_map]; [reflexivity|].
  now rewrite lc_users_moved_other, IH.
Qed.

(** What [move_to_collection] changes and what it keeps. *)
Lemma move_to_collection_effect : forall obj n d,
  let d' := move_to_collection obj n d in
  users_collection obj d' = filter (String.eqb n) (collection_names d) /\
  (forall j, j <> obj -> users_collection j d' = users_collection j d) /\
  objects d' = objects d /\
  scene_flags d' = scene_flags d /\
  collection_names d' = collection_names d.
Proof.
  intros obj n d d'. unfold d', move_to_collection, collection_objects_link,
    unlink_everywhere, users_collection, collection_names, scene_flags.
  destruct (layer_collection d) as [rn e ro rch] eqn:Hroot.
  cbn [layer_collection unlinked objects next_id lc_map_objects lc_users lc_children
       lc_flags].
  split; [|split; [|split; [reflexivity|split]]].
  - rewrite existsb_remove_id_same. cbn [app].
    rewrite filter_app. f_equal; [|apply forest_users_moved].
    apply (forest_users_moved obj n rch).
  - intros j Hne. rewrite existsb_remove_id_other by exact Hne.
    now rewrite !forest_users_moved_other by exact Hne.
  - f_equal. unfold forest_flags. clear Hroot.
    induction rch as [|c r IH]; cbn [map flat_map]; [reflexivity|].
    now rewrite !lc_map_objects_flags, IH.
  - unfold forest_flags. f_equal.
    + f_equal. clear Hroot. induction rch as [|c r IH]; cbn [map flat_map]; [reflexivity|].
      now rewrite !lc_map_objects_flags, IH.
    + f_equal. induction (unlinked d) as [|c r IH]; cbn [map flat_map]; [reflexivity|].
      now rewrite !lc_map_objects_flags, IH.
Qed.

(** X6. After [move_to_collection(obj, col)] the object is linked to the
    target collection and to nothing else - not even to the scene
    collection: its [users_collection] consists of the collections that
    carry the target's name (one, when names are unique).  The links of
    every other object, the objects themselves and all visibility flags
    are as before. *)
Theorem move_to_collection_single_owner : forall obj n d,
  let d' := move_to_collection obj n d in
  users_collection obj d' = filter (String.eqb n) (collection_names d) /\
  (forall j, j <> obj -> users_collection j d' = users_collection j d) /\
  objects d' = objects d /\
  scene_flags d' = scene_flags d /\
  collection_names d' = collection_names d.
Proof. exact move_to_collection_effect. Qed.

Lemma move_to_collection_single_owner_witness :
  users_collection 3%nat (move_to_collection 3%nat "Props" scene_nested) = ["Props"] /\
  users_collection 2%nat (move_to_collection 3%nat "Props" scene_nested) = ["Crates"].
Proof.
  destruct (move_to_collection_single_owner 3%nat "Props" scene_nested) as (H & H' & _).
  split.
  - rewrite H. reflexivity.
  - rewrite (H' 2%nat); [reflexivity|lia].
Defined.

(** ** Collecting the files: [collect_obj_files] *)


Lemma ascii_compare_refl : forall a : ascii, Ascii.compare a a = Eq.
Proof. intros a. unfold Ascii.compare. apply N.compare_refl. Qed.

Lemma string_compare_refl : forall s : string, String.compare s s = Eq.
Proof.
  induction s as [|a s IH]; cbn; [reflexivity|]. now rewrite ascii_compare_refl.
Qed.


Lemma string_compare_gt_lt : forall s1 s2 : string,
  String.compare s1 s2 = Gt -> String.compare s2 s1 = Lt.
Proof.
  intros s1 s2 H. rewrite String.compare_antisym, H. reflexivity.
Qed.

Lemma parts_leb_refl : forall a, parts_leb a a = true.
Proof.
  induction a as [|x a IH]; cbn; [reflexivity|]. now rewrite string_compare_refl.
Qed.













(** ** The operator: [invoke], [modal], [_finish] *)

(** X9. [invoke] never raises and has two outcomes.  It starts a job
    (RUNNING_MODAL) exactly when the folder path is non-empty and an
    existing directory, a reference object is set if scaling to a
    reference is on, and the folder holds at least one OBJ file.
    Otherwise it returns CANCELLED and the only thing it changes is the
    report list, which gets one entry: no timer, no change of the undo
    preference, of the class attributes or of [bpy.data]. *)
Theorem invoke_starts_or_only_reports : forall host s,
  exists st s',
    invoke host s = (Ok st, s') /\
    (st = RUNNING_MODAL <-> invoke_ready host s) /\
    (st <> RUNNING_MODAL ->
     st = CANCELLED /\
     exists level msg, s' = set_context (report level msg (context s)) s).
Proof.
  intros host s. unfold invoke, invoke_ready. cbn zeta.
  set (props := autoingest (context s)).
  destruct (String.eqb_spec (folder_path props) "") as [He|He]; cbn [orb].
  { do 2 eexists. split; [reflexivity|]. split.
    - split; [discriminate|]. intros (H & _). contradiction.
    - intros _. split; [reflexivity|]. do 2 eexists. reflexivity. }
  destruct (isdir host (folder_path props)) eqn:Ed; cbn [negb].
  2:{ do 2 eexists. split; [reflexivity|]. split.
      - split; [discriminate|]. intros (_ & H & _). discriminate.
      - intros _. split; [reflexivity|]. do 2 eexists. reflexivity. }
  destruct (use_scale_ref props) eqn:Eu; cbn [andb].
  - destruct (reference_object props) as [r|] eqn:Er.
    + destruct (collect_obj_files host (folder_path props)) as [|f fs] eqn:Ef.
      * do 2 eexists. split; [reflexivity|]. split.
        -- split; [discriminate|]. intros (_ & _ & _ & H). congruence.
        -- intros _. split; [reflexivity|]. do 2 eexists. reflexivity.
      * do 2 eexists. split; [reflexivity|]. split.
        -- split; [|reflexivity]. intros _. repeat split; try assumption; congruence.
        -- intros H. congruence.
    + do 2 eexists. split; [reflexivity|]. split.
      * split; [discriminate|]. intros (_ & _ & H & _). exfalso. now apply H.
      * intros _. split; [reflexivity|]. do 2 eexists. reflexivity.
  - destruct (collect_obj_files host (folder_path props)) as [|f fs] eqn:Ef.
    + do 2 eexists. split; [reflexivity|]. split.
      * split; [discriminate|]. intros (_ & _ & _ & H). congruence.
      * intros _. split; [reflexivity|]. do 2 eexists. reflexivity.
    + do 2 eexists. split; [reflexivity|]. split.
      * split; [|reflexivity]. intros _. repeat split; try assumption; congruence.
      * intros H. congruence.
Qed.

Lemma invoke_starts_or_only_reports_witness :
  invoke host_no_folder (idle_state empty_scene (demo_properties false))
  = (Ok CANCELLED,
     set_context
       (report "ERROR" "Please select a valid folder."
          (context (idle_state empty_scene (demo_properties false))))
       (idle_state empty_scene (demo_properties false))) /\
  fst (invoke host_abc (idle_state empty_scene (demo_properties false)))
  = Ok RUNNING_MODAL.
Proof.
  destruct (invoke_starts_or_only_reports host_abc
              (idle_state empty_scene (demo_properties false)))
    as (st & s' & Hi & [_ Hr] & _).
  split; [reflexivity|]. rewrite Hi. cbn [fst]. f_equal. apply Hr.
  repeat split; try discriminate.
Defined.

Lemma modal_other : forall host ty s, modal host (OTHER ty) s = (Ok PASS_THROUGH, s).
Proof. reflexivity. Qed.

(** X10. Events other than ESC and TIMER never change anything: an event
    sequence and the same sequence with all other events left out give
    the same result and the same state, wherever they are interleaved. *)
Theorem run_modal_ignores_other_events : forall host events s,
  run_modal host events s
  = run_modal host (filter (fun e => negb (is_other e)) events) s.
Proof.
  intros host events. induction events as [|ev events IH]; intros s; [reflexivity|].
  destruct ev as [[| |ty]|p]; cbn [filter is_other negb].
  - cbn [run_modal]. destruct (modal host ESC s) as [[[]|] s0]; auto.
  - cbn [run_modal]. destruct (modal host TIMER s) as [[[]|] s0]; auto.
  - cbn [run_modal]. rewrite modal_other. apply IH.
  - cbn [run_modal]. apply IH.
Qed.

Lemma ticks_snoc : forall n, ticks (S n) = ticks n ++ [Deliver TIMER].
Proof. intros n. unfold ticks. cbn [repeat]. apply repeat_cons. Qed.

(** X11. A whole job is the per-file pipeline run over the sorted files
    of the folder, one after the other: after [invoke] and one TIMER
    tick per file plus one more, the job has FINISHED, and [bpy.data]
    and the list of created collections are what [process_single_obj]
    leaves when run on each file in turn (an exception ending that file
    only), starting from the scene as it was and an empty list. *)
Theorem job_is_sequential_pipeline : forall host s s1,
  invoke host s = (Ok RUNNING_MODAL, s1) ->
  exists settings s2,
    _settings (cls s1) = Some settings /\
    run_job host
      (ticks (S (List.length (collect_obj_files host
                                (folder_path (autoingest (context s)))))))
      s
    = (Some (Ok FINISHED), s2) /\
    mkPipelineState (bpy s2) (_created_collections (cls s2))
    = run_files host settings
        (collect_obj_files host (folder_path (autoingest (context s))))
        (mkPipelineState (bpy s) []).
Proof.
  intros host s s1 Hinv.
  destruct (invoke_running host s s1 Hinv)
    as (Hjob & _ & Hb & Hi & _ & Hc & Hf & Hs).
  set (files := collect_obj_files host (folder_path (autoingest (context s)))) in *.
  eexists. exists (snd (run_modal host (ticks (S (List.length files))) s1)).
  split; [exact Hs|].
  assert (Htot : _total (cls s1) = len files).
  { destruct Hjob as (_ & Ht & _). now rewrite Ht, Hf. }
  destruct (ticks_run_files host _ (List.length files) _ _ s1 Hjob Hs)
    as (sn & Hrun & Hpipe).
  { rewrite Htot, Hi. unfold len. lia. }
  destruct (ticks_process_all host (List.length files) _ _ s1 Hjob)
    as (sn' & Hrun' & Hjob' & Hidx & _).
  { rewrite Htot, Hi. unfold len. lia. }
  rewrite Hrun in Hrun'. injection Hrun' as <-.
  unfold run_job. rewrite Hinv. rewrite ticks_snoc.
  rewrite (run_modal_app host _ [Deliver TIMER] s1 sn Hrun).
  cbn [run_modal]. rewrite (modal_timer_done host sn) by lia.
  destruct Hjob' as (Ht & _).
  destruct (finish_effect false sn _ Ht) as (ctx' & Hfin & _).
  rewrite Hfin. cbn [snd]. split; [reflexivity|].
  cbn [bpy cls set_context]. rewrite Hpipe, Hi, Hf, Hb, Hc. cbn [Z.to_nat skipn].
  now rewrite firstn_all.
Qed.

Lemma job_is_sequential_pipeline_witness :
  exists s2,
    run_job host_abc (ticks 4) (idle_state empty_scene (demo_properties false))
    = (Some (Ok FINISHED), s2) /\
    mkPipelineState (bpy s2) (_created_collections (cls s2))
    = run_files host_abc settings_keep
        [mkPath ["assets"; "A.obj"]; mkPath ["assets"; "B.obj"];
         mkPath ["assets"; "C.obj"]]
        (mkPipelineState empty_scene []).
Proof.
  destruct (job_is_sequential_pipeline host_abc
              (idle_state empty_scene (demo_properties false))
              (snd (invoke host_abc (idle_state empty_scene (demo_properties false))))
              eq_refl)
    as (settings & s2 & Hs & Hrun & Hpipe).
  exists s2. split; [exact Hrun|].
  injection Hs as <-. exact Hpipe.
Defined.

(** X12. A job that ends with recorded errors prints every one of them
    to the console, in the order recorded and each prefixed with
    "[AutoIngest ERROR] ", and reports how many there were; a cancelled
    job prints nothing, whatever errors were recorded. *)
Theorem finish_prints_errors : forall s timer,
  _timer s = Some timer ->
  exists ctx ctx',
    _finish false s = (Ok FINISHED, set_context ctx s) /\
    _finish true s = (Ok FINISHED, set_context ctx' s) /\
    console ctx
    = console (context s)
      ++ map (fun e => ("[AutoIngest ERROR] " ++ e)%string) (_errors (cls s)) /\
    console ctx' = console (context s) /\
    (_errors (cls s) <> [] ->
     reports ctx
     = reports (context s)
       ++ [("INFO",
            ("AutoIngest: " ++ str_int (_total (cls s) - len (_errors (cls s)))
             ++ " OBJ(s) imported." ++ "  " ++ str_int (len (_errors (cls s)))
             ++ " error(s) – see system console.")%string)]).
Proof.
  intros s timer Ht. unfold _finish. rewrite Ht.
  do 2 eexists. split; [reflexivity|]. split; [reflexivity|].
  destruct (_errors (cls s)) as [|e es] eqn:E.
  - cbn. split; [now rewrite app_nil_r|]. split; [reflexivity|]. congruence.
  - rewrite fold_print. cbn [report console reports set_progress set_running
                               set_use_global_undo event_timer_remove].
    split; [reflexivity|]. split; [reflexivity|]. intros _. f_equal. f_equal. f_equal.
    now rewrite !str_append_assoc.
Qed.

Lemma finish_prints_errors_witness :
  console (context (snd (_finish false bad_good_after_2)))
  = ["[AutoIngest ERROR] bad.obj: Import failed"] /\
  console (context (snd (_finish true bad_good_after_2))) = [].
Proof.
  destruct (finish_prints_errors bad_good_after_2 0%nat eq_refl)
    as (ctx & ctx' & H1 & H2 & Hc & Hc' & _).
  rewrite H1, H2. cbn [snd context set_context]. rewrite Hc, Hc'.
  split; reflexivity.
Defined.

(** What a tick that processes a file does to the context: the progress
    is set, the view layer updated and the panels tagged; nothing else. *)
Lemma modal_timer_context : forall host undo0 timer s,
  job_inv undo0 timer s ->
  (_index (cls s) < _total (cls s))%Z ->
  exists s',
    modal host TIMER s = (Ok PASS_THROUGH, s') /\
    context s'
    = update_and_tag_redraw
        (set_progress (float_percent host (_index (cls s) + 1)%Z (_total (cls s)))
           (context s)).
Proof.
  intros host undo0 timer s (Ht & Htot & Hidx & Hundo) Hlt.
  destruct (getitem_in_range Path State (_obj_files (cls s)) (_index (cls s)))
    as (filepath & Hnth & Hget); [lia|].
  unfold modal, bind, gets. cbn beta iota.
  destruct (Z.geb_spec (_index (cls s)) (_total (cls s))) as [Hge|_]; [lia|].
  destruct (Z.eqb_spec (_total (cls s)) 0) as [H0|_]; [lia|].
  unfold ret at 1, modify at 1 2. cbn beta iota.
  rewrite Hget. unfold ret at 1. cbn beta iota.
  unfold try_except, on_pipeline. cbn [bpy cls set_context].
  destruct (process_single_obj host filepath (_settings (cls s))
              (mkPipelineState (bpy s) (_created_collections (cls s))))
    as [[[]|e] ps] eqn:E; cbn; eexists; split; reflexivity.
Qed.

Lemma run_modal_running : forall host events undo0 timer s s',
  job_inv undo0 timer s ->
  run_modal host events s = (None, s') ->
  use_global_undo (context s') = use_global_undo (context s) /\
  autoingest_running (context s') = autoingest_running (context s) /\
  timers (context s') = timers (context s) /\
  modal_handlers (context s') = modal_handlers (context s) /\
  reports (context s') = reports (context s) /\
  console (context s') = console (context s) /\
  ((0 <= autoingest_progress (context s) <= 100)%Z ->
   (0 <= autoingest_progress (context s') <= 100)%Z).
Proof.
  intros host events. induction events as [|ev events IH];
    intros undo0 timer s s' Hinv Hrun; cbn [run_modal] in Hrun.
  - injection Hrun as <-. repeat split; tauto.
  - destruct ev as [[| |ty]|p].
    + destruct Hinv as (Ht & _).
      destruct (finish_effect true s timer Ht) as (ctx' & Hf & _).
      unfold modal in Hrun. rewrite Hf in Hrun. discriminate.
    + destruct (Z.lt_ge_cases (_index (cls s)) (_total (cls s))) as [Hlt|Hge].
      * destruct (modal_timer_step host undo0 timer s Hinv Hlt)
          as (fp & s1 & _ & Hm & Hinv1 & _).
        destruct (modal_timer_context host undo0 timer s Hinv Hlt) as (s1' & Hm' & Hctx).
        rewrite Hm in Hm'. injection Hm' as <-.
        rewrite Hm in Hrun.
        destruct (IH _ _ _ _ Hinv1 Hrun) as (H1 & H2 & H3 & H4 & H5 & H6 & H7).
        rewrite Hctx in H1, H2, H3, H4, H5, H6, H7. cbn in H1, H2, H3, H4, H5, H6, H7.
        split; [exact H1|]. split; [exact H2|]. split; [exact H3|].
        split; [exact H4|]. split; [exact H5|]. split; [exact H6|].
        intros _. apply H7. lia.
      * rewrite (modal_timer_done host s Hge) in Hrun.
        destruct Hinv as (Ht & _).
        destruct (finish_effect false s timer Ht) as (ctx' & Hf & _).
        rewrite Hf in Hrun. discriminate.
    + cbn in Hrun. exact (IH _ _ _ _ Hinv Hrun).
    + destruct (IH _ _ _ _ (job_inv_edit _ _ _ p Hinv) Hrun)
        as (H1 & H2 & H3 & H4 & H5 & H6 & H7).
      cbn in H1, H2, H3, H4, H5, H6, H7. tauto.
Qed.

(** X13. For as long as a job runs - after [invoke], through any
    sequence of events and property edits that has not ended it - global
    undo stays disabled, the running flag stays set, the job's timer
    stays registered, nothing is reported or printed, and the progress
    stays within 0..100. *)
Theorem job_running_invariant : forall host events s s1 s2,
  invoke host s = (Ok RUNNING_MODAL, s1) ->
  run_modal host events s1 = (None, s2) ->
  use_global_undo (context s2) = false /\
  autoingest_running (context s2) = true /\
  _timer s2 = Some (next_timer (context s)) /\
  In (next_timer (context s)) (timers (context s2)) /\
  reports (context s2) = reports (context s) /\
  console (context s2) = console (context s) /\
  (0 <= autoingest_progress (context s2) <= 100)%Z.
Proof.
  intros host events s s1 s2 Hinv Hrun.
  destruct (invoke_running host s s1 Hinv) as (Hjob & Hundo & _).
  destruct (run_modal_running host events _ _ s1 s2 Hjob Hrun)
    as (H1 & H2 & H3 & _ & H5 & H6 & H7).
  destruct (run_modal_inv host events _ _ s1 s2 Hjob Hrun) as (Ht & _).
  unfold invoke in Hinv.
  destruct (_ || _)%bool; [discriminate|].
  destruct (_ && _)%bool; [discriminate|].
  destruct (collect_obj_files host _) as [|f fs]; [discriminate|].
  cbn in Hinv. injection Hinv as <-. cbn in *.
  split; [congruence|]. split; [congruence|]. split; [exact Ht|].
  split; [rewrite H3; apply in_or_app; right; now left|].
  split; [exact H5|]. split; [exact H6|]. apply H7. lia.
Qed.

Lemma job_running_invariant_witness :
  use_global_undo (context ab_void_after_2) = false /\
  autoingest_running (context ab_void_after_2) = true /\
  reports (context ab_void_after_2) = [].
Proof.
  assert (Hi : invoke host_ab_void (idle_state empty_scene (demo_properties true))
               = (Ok RUNNING_MODAL, job_ab_void)) by (vm_compute; reflexivity).
  assert (Hr : run_modal host_ab_void (ticks 2) job_ab_void = (None, ab_void_after_2))
    by (vm_compute; reflexivity).
  destruct (job_running_invariant host_ab_void (ticks 2)
              (idle_state empty_scene (demo_properties true)) job_ab_void
              ab_void_after_2 Hi Hr)
    as (H1 & H2 & _ & _ & H5 & _).
  split; [exact H1|]. split; [exact H2|exact H5].
Defined.

(** ** Geometry: [get_longest_axis_size], [set_origin_to_geometry], scale *)

Lemma get_longest_axis_size_eq : forall obj,
  get_longest_axis_size obj
  = (vget (mkVector (axis_dim obj 0) (axis_dim obj 1) (axis_dim obj 2))
       (py_index [axis_dim obj 0; axis_dim obj 1; axis_dim obj 2]
          (py_max [axis_dim obj 0; axis_dim obj 1; axis_dim obj 2])),
     py_index [axis_dim obj 0; axis_dim obj 1; axis_dim obj 2]
       (py_max [axis_dim obj 0; axis_dim obj 1; axis_dim obj 2])).
Proof. reflexivity. Qed.

(** X14. [get_longest_axis_size] returns an axis index 0, 1 or 2 and the
    world-space extent of the bounding box along that axis; this extent
    is not negative and not smaller than the extent along any axis, and
    among equally long axes the one with the smallest index is
    returned. *)
Theorem get_longest_axis_size_first_longest : forall obj,
  let size := fst (get_longest_axis_size obj) in
  let axis := snd (get_longest_axis_size obj) in
  (axis < 3)%nat /\
  size = axis_dim obj axis /\
  0 <= size /\
  (forall i, axis_dim obj i <= size) /\
  (forall i, (i < axis)%nat -> ~ axis_dim obj i == size).
Proof.
  intros obj size axis.
  assert (Hmax : is_max size [axis_dim obj 0; axis_dim obj 1; axis_dim obj 2])
    by apply longest_is_max.
  assert (Hnn : 0 <= size) by apply longest_nonneg.
  assert (Hval : size == py_max [axis_dim obj 0; axis_dim obj 1; axis_dim obj 2]).
  { unfold size. rewrite get_longest_axis_size_eq. cbn [fst]. apply py_index_value. }
  unfold size, axis in *. rewrite get_longest_axis_size_eq in *. cbn [fst snd] in *.
  set (m := py_max [axis_dim obj 0; axis_dim obj 1; axis_dim obj 2]) in *.
  assert (Hle : forall i,
            axis_dim obj i
            <= vget (mkVector (axis_dim obj 0) (axis_dim obj 1) (axis_dim obj 2))
                 (py_index [axis_dim obj 0; axis_dim obj 1; axis_dim obj 2] m)).
  { intros i. destruct Hmax as [Hmax _]. apply Hmax.
    destruct i as [|[|i]]; cbn; auto. }
  cbn [py_index] in *.
  destruct (Qeq_bool (axis_dim obj 0) m) eqn:E0.
  { split; [lia|]. split; [reflexivity|]. split; [exact Hnn|]. split; [exact Hle|].
    intros i Hi. lia. }
  destruct (Qeq_bool (axis_dim obj 1) m) eqn:E1.
  { split; [lia|]. split; [reflexivity|]. split; [exact Hnn|]. split; [exact Hle|].
    intros i Hi. assert (i = 0%nat) by lia. subst i. cbn [vget vx vy vz]. rewrite Hval.
    intros H. apply Qeq_bool_iff in H. congruence. }
  assert (E0' : ~ axis_dim obj 0 == m) by (intros H; apply Qeq_bool_iff in H; congruence).
  assert (E1' : ~ axis_dim obj 1 == m) by (intros H; apply Qeq_bool_iff in H; congruence).
  destruct (Qeq_bool (axis_dim obj 2) m) eqn:E2.
  - split; [lia|]. split; [reflexivity|]. split; [exact Hnn|]. split; [exact Hle|].
    intros i Hi. cbn [vget vx vy vz]. rewrite Hval.
    destruct i as [|[|i]]; [exact E0'|exact E1'|lia].
  - exfalso. destruct Hmax as [_ (x & Hx & Ex)]. rewrite Hval in Ex.
    assert (E2' : ~ axis_dim obj 2 == m)
      by (intros H; apply Qeq_bool_iff in H; congruence).
    destruct Hx as [<-|[<-|[<-|[]]]]; contradiction.
Qed.

Lemma get_longest_axis_size_first_longest_witness :
  snd (get_longest_axis_size reference_cube) = 0%nat /\
  (snd (get_longest_axis_size target_point) < 3)%nat.
Proof.
  split; [reflexivity|].
  apply (get_longest_axis_size_first_longest target_point).
Defined.

Lemma Forall2_veq_refl : forall l, Forall2 veq l l.
Proof. induction l; constructor; [apply veq_refl|assumption]. Qed.

Lemma shifted_world : forall (A : Matrix3) (loc c : Vector) vs,
  Forall2 veq
    (map (mat_apply (mkMatrix A (mat_apply (mkMatrix A loc) c)))
         (map (fun co => vsub co c) vs))
    (map (mat_apply (mkMatrix A loc)) vs).
Proof.
  intros A loc c vs. induction vs as [|v vs IH]; cbn [map]; constructor; [|exact IH].
  unfold mat_apply, m3_apply, vadd, vsub, vdot, veq.
  cbn [linear translation vx vy vz]. repeat split; ring.
Qed.

(** X15. [set_origin_to_geometry] does not move the geometry of an
    object without a parent: every vertex has the same world-space
    position before and after (the vertices are shifted by the centre
    and the location compensates), while the bounding box of a mesh with
    vertices ends up centred on the object's origin.  Rotation and scale
    are kept. *)
Theorem set_origin_keeps_world_positions : forall obj,
  parent obj = None ->
  Forall2 veq (world_vertices (set_origin_to_geometry obj)) (world_vertices obj) /\
  rotation (set_origin_to_geometry obj) = rotation obj /\
  scale (set_origin_to_geometry obj) = scale obj /\
  (forall v vs, data obj = MeshData (v :: vs) ->
     veq (bbox_center (set_origin_to_geometry obj)) Vector0).
Proof.
  intros obj Hp. split; [|split; [|split]].
  - unfold set_origin_to_geometry.
    destruct (data obj) as [|[|v vs]|lo hi] eqn:Ed; try apply Forall2_veq_refl.
    fold (bbox_center obj). unfold world_vertices, matrix_world.
    cbn [data parent set_location set_data]. rewrite Hp, Ed.
    unfold matrix_basis.
    cbn [rotation scale location set_location set_data].
    apply shifted_world.
  - unfold set_origin_to_geometry. now destruct (data obj) as [|[|v vs]|lo hi].
  - unfold set_origin_to_geometry. now destruct (data obj) as [|[|v vs]|lo hi].
  - intros v vs Hd. now apply (set_origin_centers obj v vs).
Qed.

Lemma set_origin_keeps_world_positions_witness :
  Forall2 veq (world_vertices (set_origin_to_geometry off_center_mesh))
              (world_vertices off_center_mesh) /\
  veq (bbox_center (set_origin_to_geometry off_center_mesh)) Vector0.
Proof.
  destruct (set_origin_keeps_world_positions off_center_mesh eq_refl)
    as (H & _ & _ & Hc).
  split; [exact H|]. apply (Hc (mkVector 0 0 0) [mkVector 2 4 6]). reflexivity.
Defined.

(** X16. "Center pivots" followed by "Move to world origin": a freshly
    imported mesh (no parent, at least one vertex) ends up with the
    centre of its bounding box at the world origin. *)
Theorem centered_at_world_origin : forall obj v vs,
  parent obj = None ->
  data obj = MeshData (v :: vs) ->
  let obj' := set_location (set_origin_to_geometry obj) Vector0 in
  veq (mat_apply (matrix_world obj') (bbox_center obj')) Vector0.
Proof.
  intros obj v vs Hp Hd obj'.
  assert (Hc : veq (bbox_center obj') Vector0).
  { change (bbox_center obj') with (bbox_center (set_origin_to_geometry obj)).
    now apply (set_origin_centers obj v vs). }
  assert (Hp' : parent obj' = None).
  { unfold obj'. cbn [parent set_location]. now rewrite set_origin_parent. }
  apply (basis_at_zero obj' (bbox_center obj') Hp' Hc).
Qed.

Lemma centered_at_world_origin_witness :
  veq (mat_apply
         (matrix_world (set_location (set_origin_to_geometry off_center_mesh) Vector0))
         (bbox_center (set_location (set_origin_to_geometry off_center_mesh) Vector0)))
      Vector0.
Proof.
  apply (centered_at_world_origin off_center_mesh (mkVector 0 0 0) [mkVector 2 4 6]);
    reflexivity.
Defined.

Lemma veq_sym : forall a b, veq a b -> veq b a.
Proof. intros a b (Hx & Hy & Hz). repeat split; now symmetry. Qed.

Lemma mat_apply_mul : forall F B v,
  veq (mat_apply (mat_mul F B) v) (mat_apply F (mat_apply B v)).
Proof.
  intros [[[a1 a2 a3] [b1 b2 b3] [c1 c2 c3]] [t1 t2 t3]]
         [[[d1 d2 d3] [e1 e2 e3] [f1 f2 f3]] [u1 u2 u3]] [x y z].
  unfold mat_mul, mat_apply, m3_mul, m3_apply, col, vadd, vdot, veq.
  cbn [linear translation vx vy vz vget row0 row1 row2]. repeat split; ring.
Qed.

Lemma mat_apply_veq : forall F u v, veq u v -> veq (mat_apply F u) (mat_apply F v).
Proof.
  intros [[[a1 a2 a3] [b1 b2 b3] [c1 c2 c3]] [t1 t2 t3]] [x y z] [x' y' z'] (Hx & Hy & Hz).
  unfold mat_apply, m3_apply, vadd, vdot, veq in *.
  cbn [linear translation vx vy vz row0 row1 row2] in *.
  rewrite Hx, Hy, Hz. repeat split; reflexivity.
Qed.

Lemma baked_vertex : forall (R : Matrix3) (s loc v : Vector),
  veq (mat_apply (mkMatrix (m3_mul R (m3_diag (mkVector 1 1 1))) loc)
         (mkVector (vx v * vx s) (vy v * vy s) (vz v * vz s)))
      (mat_apply (mkMatrix (m3_mul R (m3_diag s)) loc) v).
Proof.
  intros [[a1 a2 a3] [b1 b2 b3] [c1 c2 c3]] [s1 s2 s3] [l1 l2 l3] [x y z].
  unfold mat_apply, m3_mul, m3_apply, m3_diag, col, vadd, vdot, veq.
  cbn [linear translation vx vy vz vget row0 row1 row2]. repeat split; ring.
Qed.

Lemma baked_world_basis : forall (R : Matrix3) (s loc : Vector) vs,
  Forall2 veq
    (map (mat_apply (mkMatrix (m3_mul R (m3_diag (mkVector 1 1 1))) loc))
         (bake_vertices s vs))
    (map (mat_apply (mkMatrix (m3_mul R (m3_diag s)) loc)) vs).
Proof.
  intros R s loc vs. unfold bake_vertices.
  induction vs as [|v vs IH]; cbn [map]; constructor; [apply baked_vertex|exact IH].
Qed.

Lemma baked_world : forall (F : Matrix) (R : Matrix3) (s loc : Vector) vs,
  Forall2 veq
    (map (mat_apply (mat_mul F (mkMatrix (m3_mul R (m3_diag (mkVector 1 1 1))) loc)))
         (bake_vertices s vs))
    (map (mat_apply (mat_mul F (mkMatrix (m3_mul R (m3_diag s)) loc))) vs).
Proof.
  intros F R s loc vs. unfold bake_vertices.
  induction vs as [|v vs IH]; cbn [map]; constructor; [|exact IH].
  eapply veq_trans; [apply mat_apply_mul|].
  eapply veq_trans; [apply mat_apply_veq, baked_vertex|].
  apply veq_sym, mat_apply_mul.
Qed.

(** X17. Baking the scale in [apply_scale_reference] changes where
    nothing is: with [apply_scale] on or off every vertex of the target
    ends up at the same world-space position, for objects with or
    without a parent; the two results differ only in how the size is
    stored - in the vertex coordinates with scale (1, 1, 1), or in the
    scale.  Location, rotation and parent are never changed. *)
Theorem bake_keeps_world_positions : forall ref_size obj,
  Forall2 veq (world_vertices (scale_to_reference ref_size true obj))
              (world_vertices (scale_to_reference ref_size false obj)) /\
  (forall vs, data obj = MeshData vs -> ~ longest obj == 0 ->
     scale (scale_to_reference ref_size true obj) = mkVector 1 1 1) /\
  (forall b,
     location (scale_to_reference ref_size b obj) = location obj /\
     rotation (scale_to_reference ref_size b obj) = rotation obj /\
     parent (scale_to_reference ref_size b obj) = parent obj).
Proof.
  intros R obj. split; [|split].
  - unfold scale_to_reference. fold (longest obj).
    destruct (Qeq_bool (longest obj) 0); [apply Forall2_veq_refl|].
    cbn [data set_scale].
    destruct (data obj) as [|vs|lo hi] eqn:Ed; try apply Forall2_veq_refl.
    unfold world_vertices, matrix_world, matrix_basis.
    cbn [data set_scale set_data parent rotation scale location parent_world
         matrix_parent_inverse].
    rewrite Ed. fold (bake_vertices (vscale (scale obj) (R / longest obj)) vs).
    destruct (parent obj); [apply baked_world|apply baked_world_basis].
  - intros vs Hd HL.
    destruct (scale_to_reference_homothetic R obj HL) as (_ & _ & H).
    now destruct (H vs Hd).
  - intros b. unfold scale_to_reference.
    destruct (Qeq_bool _ 0); [repeat split|].
    cbn [data set_scale]. destruct (data obj); destruct b; repeat split.
Qed.

Lemma bake_keeps_world_positions_witness :
  scale (scale_to_reference 3 true parented_mesh) = mkVector 1 1 1 /\
  Forall2 veq (world_vertices (scale_to_reference 3 true parented_mesh))
              (world_vertices (scale_to_reference 3 false parented_mesh)).
Proof.
  destruct (bake_keeps_world_positions 3 parented_mesh) as (H & Hs & _).
  split; [|exact H].
  apply (Hs [mkVector 0 0 0; mkVector 2 4 6]); [reflexivity|].
  vm_compute. discriminate.
Defined.

(** X18. The scaling is homothetic in world space: [apply_scale_reference]
    multiplies the extent of the target's bounding box along every world
    axis by the same factor, reference size over target size, baked or
    not. *)
Theorem scale_to_reference_uniform : forall ref_size b obj i,
  0 <= ref_size ->
  ~ longest obj == 0 ->
  axis_dim (scale_to_reference ref_size b obj) i
  == (ref_size / longest obj) * axis_dim obj i.
Proof.
  intros R b obj i HR HL. unfold scale_to_reference. fold (longest obj).
  destruct (Qeq_bool (longest obj) 0) eqn:E; [apply Qeq_bool_iff in E; contradiction|].
  pose proof (longest_nonneg obj) as Hpos.
  assert (Hf : 0 <= R / longest obj).
  { apply Qle_shift_div_l; lra. }
  set (f := R / longest obj) in *.
  set (obj1 := set_scale obj (vscale (scale obj) f)).
  assert (H1 : axis_dim obj1 i == f * axis_dim obj i) by now apply scale_only_dims.
  destruct (data obj1) as [|vs|lo hi] eqn:Ed; [exact H1| |exact H1].
  destruct b; [|exact H1].
  fold (bake_vertices (scale obj1) vs).
  now rewrite (baked_dims obj1 vs i Ed).
Qed.

Lemma scale_to_reference_uniform_witness :
  axis_dim (scale_to_reference 3 true target_box) 0
  == (3 / longest target_box) * axis_dim target_box 0.
Proof.
  apply scale_to_reference_uniform; [lra|]. vm_compute. discriminate.
Defined.

(** ** The import wrapper: [import_obj_file] *)

Lemma add_imported_objects : forall os d,
  objects (add_imported os d) = objects d ++ number_from (next_id d) os /\
  next_id (add_imported os d) = (next_id d + List.length os)%nat.
Proof.
  induction os as [|o os IH]; intros d; cbn [add_imported number_from List.length].
  - now rewrite app_nil_r, Nat.add_0_r.
  - match goal with
    | |- context [add_imported os ?x] => destruct (IH x) as [H1 H2]
    end.
    rewrite H1, H2. unfold scene_objects_link. cbn [layer_collection objects next_id].
    destruct (layer_collection d); cbn [objects next_id].
    rewrite <- app_assoc. split; [reflexivity|lia].
Qed.

Lemma number_from_ids : forall os i,
  map ob_id (number_from i os) = seq i (List.length os).
Proof.
  induction os as [|o os IH]; intros i; cbn; [reflexivity|]. now rewrite IH.
Qed.

Lemma number_from_In : forall os i o,
  In o (number_from i os) -> (i <= ob_id o < i + List.length os)%nat.
Proof.
  intros os i o H. apply (in_map ob_id) in H. rewrite number_from_ids in H.
  apply in_seq in H. lia.
Qed.

Lemma add_imported_fresh : forall os d, ids_fresh d -> ids_fresh (add_imported os d).
Proof.
  intros os d H o. destruct (add_imported_objects os d) as [Ho Hn].
  rewrite Ho, Hn, in_app_iff. intros [Hin|Hin].
  - apply H in Hin. lia.
  - apply number_from_In in Hin. lia.
Qed.

Lemma filter_all : forall (A : Type) (p : A -> bool) l,
  (forall x, In x l -> p x = true) -> filter p l = l.
Proof.
  intros A p l. induction l as [|x r IH]; cbn; intros H; [reflexivity|].
  rewrite (H x (or_introl eq_refl)). f_equal. apply IH. intros y Hy. apply H. now right.
Qed.

Lemma filter_none : forall (A : Type) (p : A -> bool) l,
  (forall x, In x l -> p x = false) -> filter p l = [].
Proof.
  intros A p l. induction l as [|x r IH]; cbn; intros H; [reflexivity|].
  rewrite (H x (or_introl eq_refl)). apply IH. intros y Hy. apply H. now right.
Qed.

Lemma find_app_first : forall (A : Type) (p : A -> bool) l1 l2,
  find p (l1 ++ l2)
  = match find p l1 with Some x => Some x | None => find p l2 end.
Proof.
  intros A p l1 l2. induction l1 as [|x r IH]; cbn; [reflexivity|].
  now destruct (p x).
Qed.

Lemma import_obj_file_imports : forall host filepath axis d os,
  ids_fresh d ->
  obj_import host filepath axis = Imports os ->
  import_obj_file host filepath axis d
  = (Ok (seq (next_id d) (List.length os)), add_imported os d).
Proof.
  intros host filepath axis d os Hfresh Himp.
  unfold import_obj_file, wm_obj_import, bind, gets, modify. rewrite Himp.
  cbn beta iota. f_equal. f_equal.
  destruct (add_imported_objects os d) as [Ho _]. rewrite Ho, filter_app.
  rewrite filter_none, filter_all; [apply number_from_ids| |].
  - intros o Hin. apply number_from_In in Hin. apply negb_true_iff.
    destruct (existsb _ _) eqn:E; [|reflexivity]. exfalso.
    apply existsb_exists in E. destruct E as (j & Hj & Ej).
    apply Nat.eqb_eq in Ej. subst j. apply in_map_iff in Hj.
    destruct Hj as (o' & Hid & Ho'). apply Hfresh in Ho'. lia.
  - intros o Hin. apply negb_false_iff. apply existsb_exists.
    exists (ob_id o). split; [now apply in_map|apply Nat.eqb_refl].
Qed.

(** X19. On a store whose handles are all older than the next free one,
    [import_obj_file] returns exactly the handles of the objects the
    importer added, each once and none of them known before; it leaves
    every earlier object as it was, and when the importer raises the
    exception is passed on with [bpy.data] unchanged. *)
Theorem import_obj_file_returns_new_objects : forall host filepath axis d,
  ids_fresh d ->
  match obj_import host filepath axis with
  | ImportRaises msg => import_obj_file host filepath axis d = (Raise msg, d)
  | Imports os =>
      exists new_objects d',
        import_obj_file host filepath axis d = (Ok new_objects, d') /\
        Permutation new_objects (seq (next_id d) (List.length os)) /\
        Permutation (map ob_id (objects d')) (map ob_id (objects d) ++ new_objects) /\
        next_id d' = (next_id d + List.length os)%nat /\
        ids_fresh d' /\
        (forall j, (j < next_id d)%nat -> objects_get j d' = objects_get j d) /\
        (forall i, In i new_objects ->
           objects_get i d = None /\ objects_get i d' <> None)
  end.
Proof.
  intros host filepath axis d Hfresh.
  destruct (obj_import host filepath axis) as [msg|os] eqn:Himp.
  - unfold import_obj_file, wm_obj_import, bind, gets, raise. now rewrite Himp.
  - exists (seq (next_id d) (List.length os)), (add_imported os d).
    destruct (add_imported_objects os d) as [Ho Hn].
    split; [now apply import_obj_file_imports|]. split; [apply Permutation_refl|].
    split; [rewrite Ho, map_app, number_from_ids; apply Permutation_refl|].
    split; [exact Hn|]. split; [now apply add_imported_fresh|]. split.
    + intros j Hj. unfold objects_get. rewrite Ho, find_app_first.
      destruct (find _ (objects d)) as [o|]; [reflexivity|].
      destruct (find _ (number_from _ _)) as [o|] eqn:E; [|reflexivity].
      apply find_some in E. destruct E as [E1 E2]. apply Nat.eqb_eq in E2.
      apply number_from_In in E1. lia.
    + intros i Hi. apply in_seq in Hi. split.
      * unfold objects_get. destruct (find _ _) as [o|] eqn:E; [|reflexivity].
        apply find_some in E. destruct E as [E1 E2]. apply Nat.eqb_eq in E2.
        apply Hfresh in E1. lia.
      * unfold objects_get. rewrite Ho, find_app_first.
        destruct (find _ (objects d)) as [o|]; [discriminate|].
        destruct (find _ (number_from _ _)) as [o|] eqn:E; [discriminate|].
        exfalso.
        assert (Hin : In i (map ob_id (number_from (next_id d) os)))
          by (rewrite number_from_ids; apply in_seq; lia).
        apply in_map_iff in Hin. destruct Hin as (o & Hid & Hin).
        apply (find_none _ _ E) in Hin. rewrite Hid, Nat.eqb_refl in Hin. discriminate.
Qed.

Lemma import_obj_file_returns_new_objects_witness :
  exists new_objects d',
    import_obj_file host_abc file_B AXIS_Y scene_B = (Ok new_objects, d') /\
    Permutation new_objects [1%nat] /\
    objects_get 0%nat d' = objects_get 0%nat scene_B.
Proof.
  assert (Hf : ids_fresh scene_B).
  { intros o [<-|[]]. cbn. lia. }
  pose proof (import_obj_file_returns_new_objects host_abc file_B AXIS_Y scene_B Hf)
    as H.
  cbn [obj_import host_abc demo_host] in H.
  destruct H as (new_objects & d' & Hrun & Hperm & _ & _ & _ & Hold & _).
  exists new_objects, d'. split; [exact Hrun|]. split; [exact Hperm|].
  apply Hold. cbn. lia.
Defined.

(** ** The per-file pipeline: [process_single_obj] *)

Lemma same_links_refl : forall d, same_links d d.
Proof. intros d. repeat split. Qed.

Lemma same_links_trans : forall d1 d2 d3,
  same_links d1 d2 -> same_links d2 d3 -> same_links d1 d3.
Proof.
  intros d1 d2 d3 (A1 & A2 & A3 & A4) (B1 & B2 & B3 & B4).
  repeat split; congruence.
Qed.

Lemma objects_set_links : forall i o' d,
  ob_id o' = i -> same_links d (objects_set i o' d).
Proof.
  intros i o' d Hid. unfold same_links, objects_set. cbn [layer_collection unlinked
    next_id objects]. repeat split. rewrite map_map. apply map_ext_in.
  intros o _. destruct (Nat.eqb_spec (ob_id o) i); congruence.
Qed.

(** A loop that updates the listed objects one by one. *)
Lemma for_each_with_object_inv :
  forall (f : Object -> Object) (R Q : Object -> Prop) objs d,
  (forall o, ob_id (f o) = ob_id o) ->
  (forall o, R o -> Q (f o)) ->
  (forall o, Q o -> R o) ->
  (forall i, In i objs -> exists o, objects_get i d = Some o /\ R o) ->
  exists d',
    for_each objs (fun obj => with_object obj f) d = (Ok tt, d') /\
    (forall i, In i objs -> exists o', objects_get i d' = Some o' /\ Q o') /\
    (forall j, ~ In j objs -> objects_get j d' = objects_get j d) /\
    same_links d d'.
Proof.
  intros f R Q objs. induction objs as [|a objs IH]; intros d Hid HRQ HQR Hpre.
  - exists d. split; [reflexivity|]. split; [intros i []|].
    split; [reflexivity|apply same_links_refl].
  - destruct (Hpre a (or_introl eq_refl)) as (oa & Ea & Ra).
    destruct (with_object_spec a f d oa Ea (Hid oa)) as (Hrun & Hsame & Hother).
    pose proof (objects_get_id _ _ _ Ea) as Hida.
    set (d1 := objects_set a (f oa) d) in *.
    destruct (IH d1 Hid HRQ HQR) as (d' & Hloop & Hpost & Hframe & Hlinks).
    { intros i Hi. destruct (Nat.eq_dec i a) as [->|Hne].
      - exists (f oa). split; [exact Hsame|]. apply HQR. now apply HRQ.
      - rewrite (Hother i Hne). apply Hpre. now right. }
    exists d'. split; [|split; [|split]].
    + cbn [for_each]. unfold bind. rewrite Hrun. exact Hloop.
    + intros i [<-|Hi]; [|now apply Hpost].
      destruct (in_dec Nat.eq_dec a objs) as [Hin|Hout]; [now apply Hpost|].
      exists (f oa). split; [|now apply HRQ]. now rewrite (Hframe a Hout).
    + intros j Hj. rewrite Hframe by (intros H; apply Hj; now right).
      apply Hother. intros ->. apply Hj. now left.
    + eapply same_links_trans; [|exact Hlinks].
      apply objects_set_links. rewrite Hid. exact Hida.
Qed.

Lemma set_origin_to_geometry_id : forall o,
  ob_id (set_origin_to_geometry o) = ob_id o.
Proof. intros o. unfold set_origin_to_geometry. now destruct (data o) as [|[|v vs]|]. Qed.

Lemma scale_to_reference_location : forall r b o,
  location (scale_to_reference r b o) = location o.
Proof.
  intros r b o. unfold scale_to_reference.
  destruct (Qeq_bool _ 0); [reflexivity|].
  cbn [data set_scale]. destruct (data o); destruct b; reflexivity.
Qed.

Lemma diffuse_as_emissive_object_id : forall o,
  ob_id (diffuse_as_emissive_object o) = ob_id o.
Proof. intros o. unfold diffuse_as_emissive_object. now destruct (ObType_eqb _ _). Qed.

Lemma diffuse_as_emissive_object_location : forall o,
  location (diffuse_as_emissive_object o) = location o.
Proof. intros o. unfold diffuse_as_emissive_object. now destruct (ObType_eqb _ _). Qed.

(** Whatever a loop over [with_object] finds stays findable. *)
Lemma loop_keeps_objects : forall objs d d',
  (forall i, In i objs -> objects_get i d' <> None) ->
  (forall j, ~ In j objs -> objects_get j d' = objects_get j d) ->
  forall k, objects_get k d <> None -> objects_get k d' <> None.
Proof.
  intros objs d d' Hpost Hframe k Hk.
  destruct (in_dec Nat.eq_dec k objs) as [Hin|Hout]; [now apply Hpost|].
  now rewrite (Hframe k Hout).
Qed.

(** The blocks "Center pivots" and "Move to world origin": they run
    without exception on objects that exist and leave them at the
    origin. *)
Lemma center_and_move_spec : forall (center : bool) news d,
  (forall i, In i news -> objects_get i d <> None) ->
  exists d1 d2,
    (if center
     then for_each news (fun obj => with_object obj set_origin_to_geometry)
     else ret tt) d = (Ok tt, d1) /\
    for_each news (fun obj => with_object obj (fun o => set_location o Vector0)) d1
    = (Ok tt, d2) /\
    (forall i, In i news ->
       exists o', objects_get i d2 = Some o' /\ location o' = Vector0) /\
    (forall j, ~ In j news -> objects_get j d2 = objects_get j d) /\
    same_links d d2.
Proof.
  intros center news d Hex.
  assert (H1 : exists d1,
    (if center
     then for_each news (fun obj => with_object obj set_origin_to_geometry)
     else ret tt) d = (Ok tt, d1) /\
    (forall i, In i news -> exists o', objects_get i d1 = Some o' /\ True) /\
    (forall j, ~ In j news -> objects_get j d1 = objects_get j d) /\
    same_links d d1).
  { destruct center.
    - apply (for_each_with_object_inv set_origin_to_geometry (fun _ => True)
               (fun _ => True)); auto using set_origin_to_geometry_id.
      intros i Hi. destruct (objects_get i d) as [o|] eqn:E;
        [now exists o|now apply Hex in Hi].
    - exists d. split; [reflexivity|]. split; [|split; [reflexivity|apply same_links_refl]].
      intros i Hi. destruct (objects_get i d) as [o|] eqn:E;
        [now exists o|now apply Hex in Hi]. }
  destruct H1 as (d1 & Hrun1 & Hpost1 & Hframe1 & Hl1).
  destruct (for_each_with_object_inv (fun o => set_location o Vector0) (fun _ => True)
              (fun o => location o = Vector0) news d1)
    as (d2 & Hrun2 & Hpost2 & Hframe2 & Hl2); auto.
  exists d1, d2. split; [exact Hrun1|]. split; [exact Hrun2|]. split; [exact Hpost2|].
  split.
  - intros j Hj. now rewrite Hframe2, Hframe1.
  - eapply same_links_trans; eassumption.
Qed.

(** The blocks "Center pivots" to "Diffuse as emissive": if the new
    objects exist, and the reference object too when it is used, the
    blocks run without exception, leave every new object at the origin
    and touch nothing else. *)
Lemma normalize_objects_spec : forall settings news d,
  (forall i, In i news -> objects_get i d <> None) ->
  (Settings.use_scale_ref settings = true ->
   forall r, Settings.ref_obj settings = Some r -> objects_get r d <> None) ->
  exists d',
    normalize_objects settings news d = (Ok tt, d') /\
    (forall i, In i news ->
       exists o', objects_get i d' = Some o' /\ location o' = Vector0) /\
    (forall j, ~ In j news -> objects_get j d' = objects_get j d) /\
    same_links d d'.
Proof.
  intros settings news d Hex Href. unfold normalize_objects.
  destruct (center_and_move_spec (Settings.center_pivots settings) news d Hex)
    as (d1 & d2 & Hrun1 & Hrun2 & Hpost2 & Hframe2 & Hl2).
  (* Scale to reference *)
  assert (H3 : exists d3,
    (match Settings.use_scale_ref settings, Settings.ref_obj settings with
     | true, Some ref =>
         apply_scale_reference news ref (Settings.apply_scale settings)
     | _, _ => ret tt
     end) d2 = (Ok tt, d3) /\
    (forall i, In i news ->
       exists o', objects_get i d3 = Some o' /\ location o' = Vector0) /\
    (forall j, ~ In j news -> objects_get j d3 = objects_get j d2) /\
    same_links d2 d3).
  { assert (Hskip : exists d3, ret tt d2 = (Ok tt, d3) /\
      (forall i, In i news ->
         exists o', objects_get i d3 = Some o' /\ location o' = Vector0) /\
      (forall j, ~ In j news -> objects_get j d3 = objects_get j d2) /\
      same_links d2 d3).
    { exists d2. split; [reflexivity|]. split; [exact Hpost2|].
      split; [reflexivity|apply same_links_refl]. }
    destruct (Settings.use_scale_ref settings) eqn:Eu; [|exact Hskip].
    destruct (Settings.ref_obj settings) as [ref|] eqn:Er; [|exact Hskip].
    unfold apply_scale_reference, bind, deref.
    assert (Hr2 : objects_get ref d2 <> None).
    { apply (loop_keeps_objects news d d2).
      - intros i Hi. destruct (Hpost2 i Hi) as (o' & -> & _). discriminate.
      - exact Hframe2.
      - now apply (Href eq_refl). }
    destruct (objects_get ref d2) as [ro|]; [|contradiction].
    destruct (Qeq_bool _ 0); [exact Hskip|].
    apply (for_each_with_object_inv _ (fun o => location o = Vector0)
             (fun o => location o = Vector0)); auto.
    - intros o. apply scale_to_reference_id.
    - intros o Ho. now rewrite scale_to_reference_location. }
  destruct H3 as (d3 & Hrun3 & Hpost3 & Hframe3 & Hl3).
  (* Diffuse as emissive *)
  assert (H4 : exists d4,
    (if Settings.diffuse_as_emissive settings then apply_diffuse_as_emissive news
     else ret tt) d3 = (Ok tt, d4) /\
    (forall i, In i news ->
       exists o', objects_get i d4 = Some o' /\ location o' = Vector0) /\
    (forall j, ~ In j news -> objects_get j d4 = objects_get j d3) /\
    same_links d3 d4).
  { destruct (Settings.diffuse_as_emissive settings).
    - unfold apply_diffuse_as_emissive.
      apply (for_each_with_object_inv _ (fun o => location o = Vector0)
               (fun o => location o = Vector0)); auto.
      + apply diffuse_as_emissive_object_id.
      + intros o Ho. now rewrite diffuse_as_emissive_object_location.
    - exists d3. split; [reflexivity|]. split; [exact Hpost3|].
      split; [reflexivity|apply same_links_refl]. }
  destruct H4 as (d4 & Hrun4 & Hpost4 & Hframe4 & Hl4).
  exists d4. unfold bind. rewrite Hrun1, Hrun2, Hrun3, Hrun4.
  split; [reflexivity|]. split; [exact Hpost4|]. split.
  - intros j Hj. now rewrite Hframe4, Hframe3, Hframe2.
  - eapply same_links_trans; [|exact Hl4]. eapply same_links_trans; eassumption.
Qed.

(** With a reference object that has been removed, the blocks stop with
    a [ReferenceError] after the objects were centred and moved. *)
Lemma normalize_objects_dead_reference : forall settings news d r,
  (forall i, In i news -> objects_get i d <> None) ->
  Settings.use_scale_ref settings = true ->
  Settings.ref_obj settings = Some r ->
  objects_get r d = None ->
  exists d',
    normalize_objects settings news d = (Raise ReferenceError, d') /\
    (forall i, In i news ->
       exists o', objects_get i d' = Some o' /\ location o' = Vector0) /\
    (forall j, ~ In j news -> objects_get j d' = objects_get j d) /\
    same_links d d'.
Proof.
  intros settings news d r Hex Hu Hr Hdead. unfold normalize_objects.
  destruct (center_and_move_spec (Settings.center_pivots settings) news d Hex)
    as (d1 & d2 & Hrun1 & Hrun2 & Hpost2 & Hframe2 & Hl2).
  exists d2. unfold bind. rewrite Hrun1, Hrun2, Hu, Hr.
  assert (Hn : ~ In r news).
  { intros H. apply Hex in H. contradiction. }
  unfold apply_scale_reference, bind, deref. rewrite (Hframe2 r Hn), Hdead.
  split; [reflexivity|]. split; [exact Hpost2|]. split; [exact Hframe2|exact Hl2].
Qed.

Lemma parent_loop_eq : forall objs d e E,
  objects_get e d = Some E ->
  ~ In e objs ->
  for_each objs (fun obj => x <- deref e ;; with_object obj (set_parent x)) d
  = for_each objs (fun obj => with_object obj (set_parent E)) d.
Proof.
  induction objs as [|a objs IH]; intros d e E He Hn; [reflexivity|].
  cbn [for_each]. unfold bind at 1 2 4. unfold deref at 1. rewrite He.
  unfold with_object, bind, deref.
  destruct (objects_get a d) as [oa|] eqn:Ea; [|reflexivity].
  unfold modify. apply IH.
  - rewrite objects_get_set_other; [exact He| |].
    + intros ->. apply Hn. now left.
    + cbn. exact (objects_get_id _ _ _ Ea).
  - intros H. apply Hn. now right.
Qed.

Lemma objects_get_fresh : forall d i,
  ids_fresh d -> (next_id d <= i)%nat -> objects_get i d = None.
Proof.
  intros d i Hf Hi. unfold objects_get.
  destruct (find _ _) as [o|] eqn:E; [|reflexivity].
  apply find_some in E. destruct E as [E1 E2]. apply Nat.eqb_eq in E2.
  apply Hf in E1. lia.
Qed.

Lemma objects_get_bound : forall d i,
  ids_fresh d -> objects_get i d <> None -> (i < next_id d)%nat.
Proof.
  intros d i Hf Hi. destruct (Nat.lt_ge_cases i (next_id d)) as [H|H]; [exact H|].
  exfalso. apply Hi. now apply objects_get_fresh.
Qed.

Lemma same_links_fresh : forall d d',
  same_links d d' -> ids_fresh d -> ids_fresh d'.
Proof.
  intros d d' (_ & _ & Hn & Hids) Hf o Ho. rewrite Hn.
  apply (in_map ob_id) in Ho. rewrite Hids in Ho. apply in_map_iff in Ho.
  destruct Ho as (o0 & <- & Ho0). now apply Hf.
Qed.

(** The blocks "Create Empty" and "Parent objects -> empty". *)
Lemma create_empty_spec : forall stem news d,
  ids_fresh d ->
  (forall i, In i news ->
     exists o, objects_get i d = Some o /\ location o = Vector0) ->
  exists d',
    create_empty stem news d = (Ok (next_id d), d') /\
    objects_get (next_id d) d'
    = Some (mkObject (next_id d) ("EMPTY_" ++ stem) NoData Vector0 Identity3
              (mkVector 1 1 1) None Identity4 Identity4 "PLAIN_AXES" []) /\
    (forall i, In i news ->
       exists o', objects_get i d' = Some o' /\
                  parent o' = Some (next_id d) /\
                  matrix_parent_inverse o' = Identity4 /\
                  location o' = Vector0) /\
    (forall j, j <> next_id d -> ~ In j news -> objects_get j d' = objects_get j d) /\
    next_id d' = S (next_id d) /\
    unlinked d' = unlinked d /\
    layer_collection d'
    = LayerColl (lc_name (layer_collection d)) (lc_exclude (layer_collection d))
        (lc_objects (layer_collection d) ++ [next_id d])
        (lc_children (layer_collection d)) /\
    ids_fresh d'.
Proof.
  intros stem news d Hf Hpre. unfold create_empty.
  set (e := next_id d).
  set (E := mkObject e ("EMPTY_" ++ stem) NoData Vector0 Identity3
              (mkVector 1 1 1) None Identity4 Identity4 "PLAIN_AXES" []).
  set (dA := mkBlendData (objects d ++ [E]) (S e) (layer_collection d) (unlinked d)).
  assert (HgetA : objects_get e dA = Some E).
  { unfold objects_get, dA. cbn [objects]. rewrite find_app_first.
    fold (objects_get e d). rewrite (objects_get_fresh d e Hf) by (unfold e; lia).
    cbn. now rewrite Nat.eqb_refl. }
  assert (HotherA : forall j, j <> e -> objects_get j dA = objects_get j d).
  { intros j Hj. unfold objects_get, dA. cbn [objects]. rewrite find_app_first.
    destruct (find _ (objects d)); [reflexivity|]. cbn.
    destruct (Nat.eqb_spec e j); [congruence|reflexivity]. }
  destruct (with_object_spec e (fun o => set_empty_display_type o "PLAIN_AXES") dA E
              HgetA eq_refl) as (HrunB & HgetB & HotherB).
  change (set_empty_display_type E "PLAIN_AXES") with E in *.
  set (dB := objects_set e E dA) in *.
  set (dC := scene_objects_link e dB).
  assert (HgetC : forall j, objects_get j dC = objects_get j dB).
  { intros j. unfold dC, scene_objects_link. now destruct (layer_collection dB). }
  assert (Hnews : forall i, In i news -> i <> e).
  { intros i Hi. destruct (Hpre i Hi) as (o & Ho & _).
    assert (i < next_id d)%nat by (apply objects_get_bound; [exact Hf|congruence]).
    unfold e. lia. }
  assert (HnotIn : ~ In e news) by (intros H; now apply (Hnews e H)).
  destruct (for_each_with_object_inv (set_parent E)
              (fun o => location o = Vector0 \/
                        (parent o = Some e /\ matrix_parent_inverse o = Identity4 /\
                         location o = Vector0))
              (fun o => parent o = Some e /\ matrix_parent_inverse o = Identity4 /\
                        location o = Vector0)
              news dC)
    as (d' & Hloop & Hpost & Hframe & Hl).
  { reflexivity. }
  { intros o [Ho|(_ & _ & Ho)]; cbn; auto. }
  { intros o Ho. now right. }
  { intros i Hi. destruct (Hpre i Hi) as (o & Ho & Hloc). exists o. split; [|now left].
    rewrite HgetC, (HotherB i (Hnews i Hi)), (HotherA i (Hnews i Hi)). exact Ho. }
  exists d'. split; [|split; [|split; [|split; [|split; [|split; [|split]]]]]].
  - unfold bind at 1. cbn [objects_new]. fold e E dA.
    unfold bind at 1. rewrite HrunB.
    unfold bind at 1. unfold modify at 1. fold dC.
    unfold bind at 1.
    rewrite (parent_loop_eq news dC e E); [|now rewrite HgetC|exact HnotIn].
    rewrite Hloop. reflexivity.
  - rewrite (Hframe e HnotIn), HgetC. exact HgetB.
  - exact Hpost.
  - intros j Hj Hn. rewrite (Hframe j Hn), HgetC, (HotherB j Hj). now apply HotherA.
  - destruct Hl as (_ & _ & Hn & _). rewrite Hn. unfold dC, scene_objects_link.
    now destruct (layer_collection dB).
  - destruct Hl as (_ & Hu & _). rewrite Hu. unfold dC, scene_objects_link.
    now destruct (layer_collection dB).
  - destruct Hl as (Hlc & _). rewrite Hlc. unfold dC, scene_objects_link.
    change (layer_collection dB) with (layer_collection d).
    now destruct (layer_collection d).
  - apply (same_links_fresh dC d' Hl). intros o Ho.
    assert (Hn : next_id dC = S e).
    { unfold dC, scene_objects_link. now destruct (layer_collection dB). }
    assert (Hobj : objects dC = objects dB).
    { unfold dC, scene_objects_link. now destruct (layer_collection dB). }
    rewrite Hn. rewrite Hobj in Ho. unfold dB, objects_set in Ho. cbn [objects] in Ho.
    apply in_map_iff in Ho. destruct Ho as (o0 & Ho0 & Hin).
    destruct (Nat.eqb_spec (ob_id o0) e) as [Heq|Hne].
    + subst o. cbn. lia.
    + subst o. unfold dA in Hin. cbn [objects] in Hin. apply in_app_or in Hin.
      destruct Hin as [Hin|[<-|[]]]; [apply Hf in Hin; unfold e; lia|cbn; lia].
Qed.

Lemma lc_prune_id : forall n t,
  ~ In n (map fst (flat_map lc_flags (lc_children t))) -> lc_prune n t = t.
Proof.
  intros n t. induction t as [m e o ch IH] using LayerCollection_nested_ind.
  cbn [lc_children lc_prune]. intros Hn. f_equal.
  induction ch as [|c r IHr]; [reflexivity|].
  inversion IH as [|? ? Hc Hr]; subst. cbn [flat_map] in Hn.
  rewrite map_app, in_app_iff in Hn. cbn [map filter].
  destruct c as [cn ce co cch]. cbn [lc_flags map fst In] in Hn.
  rewrite Hc by (cbn [lc_children]; tauto). cbn [lc_name].
  destruct (String.eqb_spec cn n) as [->|Hne]; [exfalso; tauto|]. cbn [negb].
  f_equal. apply IHr; [exact Hr|tauto].
Qed.

Lemma forest_prune_id : forall n f,
  ~ In n (map fst (forest_flags f)) -> forest_prune n f = f.
Proof.
  intros n f. unfold forest_prune, forest_flags.
  induction f as [|c r IH]; [reflexivity|]. cbn [flat_map map filter].
  rewrite map_app, in_app_iff. intros Hn.
  destruct c as [cn ce co cch]. cbn [lc_flags map fst In] in Hn.
  rewrite lc_prune_id by (cbn [lc_children]; tauto). cbn [lc_name].
  destruct (String.eqb_spec cn n) as [->|Hne]; [exfalso; tauto|]. cbn [negb].
  f_equal. apply IH. tauto.
Qed.

Lemma forest_prune_app : forall n f g,
  forest_prune n (f ++ g) = forest_prune n f ++ forest_prune n g.
Proof. intros n f g. unfold forest_prune. now rewrite map_app, filter_app. Qed.

Lemma filter_eqb_absent : forall (c : string) l,
  ~ In c l -> filter (String.eqb c) l = [].
Proof.
  intros c l H. apply filter_none. intros x Hx.
  destruct (String.eqb_spec c x) as [->|]; [contradiction|reflexivity].
Qed.

(** Linking the new, empty collection to the scene. *)
Lemma new_collection_linked : forall c d,
  ~ In c (collection_names d) ->
  scene_children_link c (collections_new c d)
  = mkBlendData (objects d) (next_id d)
      (LayerColl (lc_name (layer_collection d)) (lc_exclude (layer_collection d))
         (lc_objects (layer_collection d))
         (lc_children (layer_collection d) ++ [LayerColl c false [] []]))
      (unlinked d).
Proof.
  intros c d Hfree. unfold scene_children_link, collections_new.
  cbn [unlinked layer_collection objects next_id].
  assert (Hu : ~ In c (map fst (forest_flags (unlinked d)))).
  { intros H. apply Hfree. unfold collection_names. apply in_or_app. now right. }
  rewrite forest_lookup_app by now apply forest_lookup_absent.
  cbn [forest_lookup lc_lookup]. rewrite String.eqb_refl.
  destruct (layer_collection d) as [rn re ro rch]. cbn [lc_name lc_exclude lc_objects
    lc_children]. f_equal.
  rewrite forest_prune_app, (forest_prune_id c (unlinked d) Hu).
  unfold forest_prune. cbn. rewrite String.eqb_refl. cbn. apply app_nil_r.
Qed.

Lemma fold_move_to_collection_effect : forall c l d,
  let d' := fold_left (fun acc obj => move_to_collection obj c acc) l d in
  collection_names d' = collection_names d /\
  objects d' = objects d /\
  (forall j, In j l ->
     users_collection j d' = filter (String.eqb c) (collection_names d)) /\
  (forall j, ~ In j l -> users_collection j d' = users_collection j d).
Proof.
  intros c l. induction l as [|a l IH]; intros d; cbn [fold_left].
  - repeat split. intros j [].
  - destruct (move_to_collection_effect a c d) as (Ha & Hother & Hobj & _ & Hnames).
    destruct (IH (move_to_collection a c d)) as (Hn' & Ho' & Hin' & Hout').
    cbv zeta in *. split; [congruence|]. split; [congruence|]. split.
    + intros j [<-|Hj].
      * destruct (in_dec Nat.eq_dec a l) as [Hal|Hal].
        -- rewrite (Hin' a Hal). now rewrite Hnames.
        -- rewrite (Hout' a Hal). exact Ha.
      * rewrite (Hin' j Hj). now rewrite Hnames.
    + intros j Hj. rewrite Hout' by (intros H; apply Hj; now right).
      apply Hother. intros ->. apply Hj. now left.
Qed.

(** The block "Create collection": the new collection becomes a child of
    the scene collection and holds the pivot and the new objects, which
    are linked to nothing else. *)
Lemma create_collection_spec : forall c e news d,
  ~ In c (collection_names d) ->
  let d' := create_collection c e news d in
  objects d' = objects d /\
  next_id d' = next_id d /\
  (forall m, In m (collection_names d') <-> In m (collection_names d) \/ m = c) /\
  (forall j, In j (e :: news) -> users_collection j d' = [c]) /\
  (forall j, ~ In j (e :: news) -> users_collection j d' = users_collection j d).
Proof.
  intros c e news d Hfree. unfold create_collection.
  rewrite (new_collection_linked c d Hfree).
  set (dB := mkBlendData _ _ _ _).
  change (fold_left (fun acc obj => move_to_collection obj c acc) news
            (move_to_collection e c dB))
    with (fold_left (fun acc obj => move_to_collection obj c acc) (e :: news) dB).
  destruct (fold_move_to_collection_effect c (e :: news) dB) as (Hn & Ho & Hin & Hout).
  cbv zeta in *.
  assert (Hnames : collection_names dB
                   = map fst (forest_flags (lc_children (layer_collection d)))
                     ++ [c] ++ map fst (forest_flags (unlinked d))).
  { unfold collection_names, dB. cbn [layer_collection lc_children unlinked].
    unfold forest_flags at 1. rewrite flat_map_app, map_app. cbn [flat_map lc_flags map fst
      app]. now rewrite <- app_assoc. }
  unfold collection_names in Hfree. rewrite in_app_iff in Hfree.
  assert (Hfilter : filter (String.eqb c) (collection_names dB) = [c]).
  { rewrite Hnames, !filter_app. cbn [filter]. rewrite String.eqb_refl.
    now rewrite !filter_eqb_absent by tauto. }
  assert (Husers : forall j, users_collection j dB = users_collection j d).
  { intros j. unfold users_collection, dB. cbn [layer_collection unlinked lc_users].
    destruct (layer_collection d) as [rn re ro rch].
    cbn [lc_name lc_exclude lc_objects lc_children lc_users].
    rewrite flat_map_app. cbn [flat_map lc_users existsb app]. now rewrite app_nil_r. }
  split; [rewrite Ho; reflexivity|]. split.
  { assert (Hnext : forall l d0,
              next_id (fold_left (fun acc obj => move_to_collection obj c acc) l d0)
              = next_id d0).
    { induction l as [|a l IH]; intros d0; [reflexivity|].
      cbn [fold_left]. rewrite IH. unfold move_to_collection, collection_objects_link.
      destruct (layer_collection (unlink_everywhere a d0)); reflexivity. }
    now rewrite Hnext. }
  split; [|split].
  - intros m. rewrite Hn, Hnames. unfold collection_names. rewrite !in_app_iff.
    cbn [In]. intuition.
  - intros j Hj. rewrite (Hin j Hj). exact Hfilter.
  - intros j Hj. rewrite (Hout j Hj). apply Husers.
Qed.

Lemma set_exclude_users : forall j n b t t',
  set_exclude t n b = Some t' -> lc_users j t' = lc_users j t.
Proof.
  intros j n b t. induction t as [m e o ch IH] using LayerCollection_nested_ind.
  intros t'. cbn [set_exclude]. destruct (m =? n).
  - intros H. injection H as <-. reflexivity.
  - assert (Hloop : forall ch',
      (fix loop (l : list LayerCollection) : option (list LayerCollection) :=
         match l with
         | [] => None
         | child :: r =>
             match set_exclude child n b with
             | Some child' => Some (child' :: r)
             | None => match loop r with
                       | Some r' => Some (child :: r')
                       | None => None
                       end
             end
         end) ch = Some ch' ->
      flat_map (lc_users j) ch' = flat_map (lc_users j) ch).
    { induction ch as [|c r IHr]; intros ch'; [discriminate|].
      inversion IH as [|? ? Hc Hr]; subst.
      destruct (set_exclude c n b) as [c'|] eqn:Ec.
      - intros H. injection H as <-. cbn [flat_map]. now rewrite (Hc c' eq_refl).
      - match goal with
        | |- context [match ?l r with _ => _ end] => destruct (l r) as [r'|] eqn:Er
        end; [|discriminate].
        intros H. injection H as <-. cbn [flat_map]. f_equal. now apply IHr. }
    match goal with
    | |- context [match ?l ch with _ => _ end] => destruct (l ch) as [ch'|] eqn:Ech
    end; [|discriminate].
    intros H. injection H as <-. cbn [lc_users]. f_equal. now apply Hloop.
Qed.

Lemma set_collection_visibility_users : forall n v d,
  (forall j, users_collection j (set_collection_visibility n v d)
             = users_collection j d) /\
  objects (set_collection_visibility n v d) = objects d /\
  next_id (set_collection_visibility n v d) = next_id d.
Proof.
  intros n v d. unfold set_collection_visibility.
  destruct (find_layer_collection (layer_collection d) n); [|repeat split].
  destruct (set_exclude (layer_collection d) n (negb v)) as [t|] eqn:E; [|repeat split].
  split; [|split; reflexivity].
  intros j. unfold users_collection. cbn [layer_collection unlinked].
  now rewrite (set_exclude_users j n (negb v) _ t E).
Qed.

Lemma resolve_col_name_fresh : forall stem settings d r d1,
  resolve_col_name stem settings d = (r, d1) -> ids_fresh d -> ids_fresh d1.
Proof.
  intros stem settings d r d1. unfold resolve_col_name, bind, gets.
  destruct (Settings.replace_existing settings && in_collections stem d)%bool.
  - destruct (collections_get stem d) as [col|].
    + unfold modify, ret. intros H. injection H as _ <-. intros Hf o Ho.
      rewrite next_id_delete_collection_recursive.
      rewrite objects_delete_collection_recursive in Ho. apply filter_In in Ho.
      now apply Hf.
    + intros H. now injection H as _ <-.
  - unfold unique_collection_name.
    destruct (negb (in_collections stem d)); [intros H; now injection H as _ <-|].
    destruct (probe stem d 1 999); intros H; now injection H as _ <-.
Qed.

Lemma add_imported_users : forall os d j,
  (j < next_id d)%nat ->
  users_collection j (add_imported os d) = users_collection j d.
Proof.
  induction os as [|o os IH]; intros d j Hj; cbn [add_imported]; [reflexivity|].
  rewrite IH.
  - unfold scene_objects_link, users_collection.
    cbn [layer_collection unlinked objects next_id].
    destruct (layer_collection d) as [rn re ro rch].
    cbn [layer_collection unlinked lc_users]. rewrite existsb_snoc.
    destruct (Nat.eqb_spec j (next_id d)); [lia|now rewrite orb_false_r].
  - unfold scene_objects_link. cbn [layer_collection next_id].
    destruct (layer_collection d); cbn [next_id]. lia.
Qed.

Lemma same_links_users : forall d d' j,
  same_links d d' -> users_collection j d' = users_collection j d.
Proof.
  intros d d' j (H1 & H2 & _). unfold users_collection. now rewrite H1, H2.
Qed.

Lemma collection_names_scene : forall d,
  collection_names d
  = tl (map fst (scene_flags d)) ++ map fst (forest_flags (unlinked d)).
Proof.
  intros d. unfold collection_names, scene_flags.
  now destruct (layer_collection d).
Qed.

(** What a successful run of [process_single_obj] leaves behind. *)
Lemma process_single_obj_effect : forall host filepath settings d created c d1 o os,
  ids_fresh d ->
  resolve_col_name (path_stem filepath) settings d = (Ok c, d1) ->
  obj_import host filepath (Settings.up_axis settings) = Imports (o :: os) ->
  (Settings.use_scale_ref settings = true ->
   forall r, Settings.ref_obj settings = Some r -> objects_get r d1 <> None) ->
  let news := seq (next_id d1) (S (List.length os)) in
  let e := (next_id d1 + S (List.length os))%nat in
  exists d',
    process_single_obj host filepath (Some settings) (mkPipelineState d created)
    = (Ok tt, mkPipelineState d' (created ++ [c])) /\
    objects_get e d'
    = Some (mkObject e ("EMPTY_" ++ path_stem filepath) NoData Vector0 Identity3
              (mkVector 1 1 1) None Identity4 Identity4 "PLAIN_AXES" []) /\
    (forall i, In i news ->
       exists o', objects_get i d' = Some o' /\
                  parent o' = Some e /\
                  matrix_parent_inverse o' = Identity4 /\
                  location o' = Vector0) /\
    (forall j, In j (e :: news) -> users_collection j d' = [c]) /\
    (forall j, (j < next_id d1)%nat ->
       objects_get j d' = objects_get j d1 /\
       users_collection j d' = users_collection j d1) /\
    visible c d' = true /\
    next_id d' = S e /\
    (forall m, In m (collection_names d') <-> In m (collection_names d1) \/ m = c).
Proof.
  intros host filepath settings d created c d1 o os Hfresh Hres Himp Href news e.
  set (stem := path_stem filepath) in *.
  pose proof (resolve_col_name_fresh _ _ _ _ _ Hres Hfresh) as Hf1.
  destruct (resolve_col_name_spec _ _ _ _ _ Hres) as [_ Hc].
  destruct (Hc c eq_refl) as [Hfree _]. clear Hc.
  (* Import *)
  pose proof (import_obj_file_imports host filepath _ d1 (o :: os) Hf1 Himp) as Hrun2.
  set (d2 := add_imported (o :: os) d1) in *.
  destruct (add_imported_objects (o :: os) d1) as [Ho2 Hn2]. fold d2 in Ho2, Hn2.
  pose proof (add_imported_fresh (o :: os) d1 Hf1) as Hf2. fold d2 in Hf2.
  destruct (add_imported_collections (o :: os) d1) as [Hfl2 Hu2]. fold d2 in Hfl2, Hu2.
  change (List.length (o :: os)) with (S (List.length os)) in *. fold news in Hrun2.
  assert (Hold2 : forall j, (j < next_id d1)%nat -> objects_get j d2 = objects_get j d1).
  { intros j Hj. unfold objects_get. rewrite Ho2, find_app_first.
    destruct (find _ (objects d1)) as [x|]; [reflexivity|].
    destruct (find _ (number_from _ _)) as [x|] eqn:E; [|reflexivity].
    apply find_some in E. destruct E as [E1 E2]. apply Nat.eqb_eq in E2.
    apply number_from_In in E1. lia. }
  assert (Hnew2 : forall i, In i news -> objects_get i d2 <> None).
  { intros i Hi. unfold objects_get. rewrite Ho2, find_app_first.
    destruct (find _ (objects d1)) as [x|]; [discriminate|].
    destruct (find _ (number_from _ _)) as [x|] eqn:E; [discriminate|]. exfalso.
    assert (Hin : In i (map ob_id (number_from (next_id d1) (o :: os))))
      by (rewrite number_from_ids; exact Hi).
    apply in_map_iff in Hin. destruct Hin as (x & Hid & Hin).
    apply (find_none _ _ E) in Hin. rewrite Hid, Nat.eqb_refl in Hin. discriminate. }
  assert (Hnews : forall i, In i news -> (next_id d1 <= i < e)%nat).
  { intros i Hi. apply in_seq in Hi. unfold e. lia. }
  (* Center pivots ... Diffuse as emissive *)
  destruct (normalize_objects_spec settings news d2 Hnew2)
    as (d3 & Hrun3 & Hpost3 & Hframe3 & Hl3).
  { intros Hu r Hr. rewrite Hold2; [now apply (Href Hu)|].
    apply objects_get_bound; [exact Hf1|now apply (Href Hu)]. }
  pose proof (same_links_fresh d2 d3 Hl3 Hf2) as Hf3.
  assert (Hn3 : next_id d3 = e).
  { destruct Hl3 as (_ & _ & Hn & _). rewrite Hn, Hn2. reflexivity. }
  (* Create Empty, Parent objects *)
  destruct (create_empty_spec stem news d3 Hf3 Hpost3)
    as (d4 & Hrun4 & He4 & Hpost4 & Hframe4 & Hn4 & Hu4 & Hlc4 & Hf4).
  rewrite Hn3 in Hrun4, He4, Hpost4, Hframe4, Hn4, Hlc4.
  (* Create collection *)
  assert (Hnames4 : collection_names d4 = collection_names d1).
  { unfold collection_names. rewrite Hlc4, Hu4. cbn [lc_children].
    destruct Hl3 as (Hlc3 & Hu3 & _). rewrite Hlc3, Hu3, Hu2. f_equal.
    destruct (layer_collection d2), (layer_collection d1). cbn in *.
    injection Hfl2 as _ _ Hch. unfold forest_flags. now rewrite Hch. }
  assert (Hfree4 : ~ In c (collection_names d4)) by now rewrite Hnames4.
  destruct (create_collection_spec c e news d4 Hfree4)
    as (Ho5 & Hn5 & Hnames5 & Hin5 & Hout5).
  set (d5 := create_collection c e news d4) in *.
  pose proof (create_collection_flags c e news d4 Hfree4) as Hfl5. fold d5 in Hfl5.
  (* Visibility *)
  set (d6 := match created with
             | [] => d5
             | _ :: _ => set_collection_visibility (last created "") false d5
             end).
  set (d7 := set_collection_visibility c true d6).
  assert (H6 : (forall j, users_collection j d6 = users_collection j d5) /\
               objects d6 = objects d5 /\ next_id d6 = next_id d5 /\
               map fst (scene_flags d6) = map fst (scene_flags d5)).
  { unfold d6. destruct created as [|x xs]; [repeat split|].
    destruct (set_collection_visibility_users (last (x :: xs) "") false d5)
      as (A & B & C).
    split; [exact A|]. split; [exact B|]. split; [exact C|].
    now rewrite set_collection_visibility_flags, set_first_flag_names. }
  destruct H6 as (Hu6 & Ho6 & Hn6 & Hfl6).
  destruct (set_collection_visibility_users c true d6) as (Hu7 & Ho7 & Hn7).
  fold d7 in Hu7, Ho7, Hn7.
  assert (Hget7 : forall j, objects_get j d7 = objects_get j d4).
  { intros j. unfold objects_get. now rewrite Ho7, Ho6, Ho5. }
  exists d7. split; [|split; [|split; [|split; [|split; [|split; [|split]]]]]].
  - unfold process_single_obj, bind, on_data. cbn [bpy_data created_collections].
    fold stem. rewrite Hres. cbn [bpy_data created_collections].
    rewrite Hrun2. unfold news at 1. cbn [seq]. cbn [bpy_data created_collections].
    change (next_id d1 :: seq (S (next_id d1)) (List.length os)) with news.
    rewrite Hrun3. cbn [bpy_data created_collections].
    rewrite Hrun4. cbn [bpy_data created_collections]. unfold modify at 1.
    cbn [bpy_data created_collections]. fold d5.
    rewrite swap_visibility_result. reflexivity.
  - rewrite Hget7. exact He4.
  - intros i Hi. rewrite Hget7. now apply Hpost4.
  - intros j Hj. rewrite Hu7, Hu6. now apply Hin5.
  - intros j Hj.
    assert (Hje : j <> e) by (unfold e; lia).
    assert (Hjn : ~ In j news) by (intros H; apply Hnews in H; lia).
    split.
    + rewrite Hget7, (Hframe4 j Hje Hjn), (Hframe3 j Hjn). now apply Hold2.
    + rewrite Hu7, Hu6, Hout5 by (intros [H|H]; [now apply Hje|now apply Hjn]).
      unfold users_collection at 1. rewrite Hlc4, Hu4. cbn [lc_users].
      rewrite existsb_snoc.
      destruct (Nat.eqb_spec j e) as [H|_]; [contradiction|]. rewrite orb_false_r.
      rewrite <- (add_imported_users (o :: os) d1 j Hj). fold d2.
      rewrite <- (same_links_users d2 d3 j Hl3). unfold users_collection.
      now destruct (layer_collection d3).
  - apply visible_iff. unfold d7. rewrite set_collection_visibility_flags.
    apply set_first_flag_set. rewrite Hfl6, Hfl5, map_app. apply in_or_app.
    right. now left.
  - now rewrite Hn7, Hn6, Hn5, Hn4.
  - intros m. rewrite <- Hnames4, <- Hnames5.
    assert (H7 : collection_names d7 = collection_names d6).
    { rewrite !collection_names_scene. unfold d7.
      now rewrite set_collection_visibility_flags, set_first_flag_names,
        set_collection_visibility_unlinked. }
    assert (H6 : collection_names d6 = collection_names d5).
    { unfold d6. destruct created as [|x xs]; [reflexivity|].
      rewrite !collection_names_scene.
      now rewrite set_collection_visibility_flags, set_first_flag_names,
        set_collection_visibility_unlinked. }
    rewrite H7, H6. reflexivity.
Qed.

(** X20. A file whose import yields objects, processed on a store with
    fresh handles and with the reference object (if one is used) alive:
    [process_single_obj] returns normally, appends the collection name
    to the list of created collections, and leaves
    - a pivot: a new empty, displayed as plain axes, at the origin,
      unrotated, unscaled and without parent;
    - every imported object at location (0, 0, 0), parented to the pivot
      with an identity parent-inverse matrix;
    - the pivot and the imported objects linked to the new collection
      and to nothing else (not to the scene collection any more);
    - the new collection visible;
    - every object that existed before the import as it was, in the
      collections it was in;
    - no other new collection. *)
Theorem process_single_obj_success : forall host filepath settings d created c d1 o os,
  ids_fresh d ->
  resolve_col_name (path_stem filepath) settings d = (Ok c, d1) ->
  obj_import host filepath (Settings.up_axis settings) = Imports (o :: os) ->
  (Settings.use_scale_ref settings = true ->
   forall r, Settings.ref_obj settings = Some r -> objects_get r d1 <> None) ->
  let news := seq (next_id d1) (S (List.length os)) in
  let e := (next_id d1 + S (List.length os))%nat in
  exists d',
    process_single_obj host filepath (Some settings) (mkPipelineState d created)
    = (Ok tt, mkPipelineState d' (created ++ [c])) /\
    (exists pivot,
       objects_get e d' = Some pivot /\
       ob_type pivot = EMPTY /\
       empty_display_type pivot = "PLAIN_AXES" /\
       location pivot = Vector0 /\
       rotation pivot = Identity3 /\
       scale pivot = mkVector 1 1 1 /\
       parent pivot = None) /\
    (forall i, In i news ->
       exists o', objects_get i d' = Some o' /\
                  parent o' = Some e /\
                  matrix_parent_inverse o' = Identity4 /\
                  location o' = Vector0) /\
    (forall j, In j (e :: news) -> users_collection j d' = [c]) /\
    (forall j, (j < next_id d1)%nat ->
       objects_get j d' = objects_get j d1 /\
       users_collection j d' = users_collection j d1) /\
    visible c d' = true /\
    (forall m, In m (collection_names d') <-> In m (collection_names d1) \/ m = c).
Proof.
  intros host filepath settings d created c d1 o os Hfresh Hres Himp Href news e.
  destruct (process_single_obj_effect host filepath settings d created c d1 o os
              Hfresh Hres Himp Href)
    as (d' & Hrun & Hpivot & Hnew & Hin & Hold & Hvis & _ & Hnames).
  exists d'. split; [exact Hrun|]. split.
  { eexists. split; [exact Hpivot|]. repeat split. }
  split; [exact Hnew|]. split; [exact Hin|]. split; [exact Hold|].
  split; [exact Hvis|exact Hnames].
Qed.

Lemma process_single_obj_success_witness :
  exists d',
    process_single_obj host_abc file_B (Some settings_keep)
      (mkPipelineState scene_B ["A"])
    = (Ok tt, mkPipelineState d' ["A"; "B_001"]) /\
    users_collection 1%nat d' = ["B_001"] /\
    users_collection 2%nat d' = ["B_001"] /\
    users_collection 0%nat d' = ["B"] /\
    visible "B_001" d' = true.
Proof.
  assert (Hf : ids_fresh scene_B).
  { intros o [<-|[]]. cbn. lia. }
  assert (Hres : resolve_col_name (path_stem file_B) settings_keep scene_B
                 = (Ok "B_001", scene_B)) by (vm_compute; reflexivity).
  destruct (process_single_obj_success host_abc file_B settings_keep scene_B ["A"]
              "B_001" scene_B (two_point_mesh "B") [] Hf Hres eq_refl)
    as (d' & Hrun & _ & _ & Hin & Hold & Hvis & _).
  { discriminate. }
  exists d'. split; [exact Hrun|]. split; [|split; [|split]].
  - apply Hin. cbn. right. now left.
  - apply Hin. cbn. now left.
  - destruct (Hold 0%nat) as [_ H]; [cbn; lia|]. rewrite H. reflexivity.
  - exact Hvis.
Defined.

(** What a run of [process_single_obj] leaves behind when the reference
    object has been removed. *)
Lemma process_single_obj_dead_reference_effect :
  forall host filepath settings d created c d1 o os r,
  ids_fresh d ->
  resolve_col_name (path_stem filepath) settings d = (Ok c, d1) ->
  obj_import host filepath (Settings.up_axis settings) = Imports (o :: os) ->
  Settings.use_scale_ref settings = true ->
  Settings.ref_obj settings = Some r ->
  objects_get r d1 = None ->
  (r < next_id d1)%nat ->
  let news := seq (next_id d1) (S (List.length os)) in
  exists d',
    process_single_obj host filepath (Some settings) (mkPipelineState d created)
    = (Raise ReferenceError, mkPipelineState d' created) /\
    (forall i, In i news ->
       exists o', objects_get i d' = Some o' /\ location o' = Vector0) /\
    (forall j, (j < next_id d1)%nat ->
       objects_get j d' = objects_get j d1 /\
       users_collection j d' = users_collection j d1) /\
    next_id d' = (next_id d1 + S (List.length os))%nat /\
    collection_names d' = collection_names d1.
Proof.
  intros host filepath settings d created c d1 o os r Hfresh Hres Himp Hu Hr Hdead Hold
    news.
  pose proof (resolve_col_name_fresh _ _ _ _ _ Hres Hfresh) as Hf1.
  pose proof (import_obj_file_imports host filepath _ d1 (o :: os) Hf1 Himp) as Hrun2.
  set (d2 := add_imported (o :: os) d1) in *.
  destruct (add_imported_objects (o :: os) d1) as [Ho2 Hn2]. fold d2 in Ho2, Hn2.
  destruct (add_imported_collections (o :: os) d1) as [Hfl2 Hu2]. fold d2 in Hfl2, Hu2.
  change (List.length (o :: os)) with (S (List.length os)) in *. fold news in Hrun2.
  assert (Hold2 : forall j, (j < next_id d1)%nat -> objects_get j d2 = objects_get j d1).
  { intros j Hj. unfold objects_get. rewrite Ho2, find_app_first.
    destruct (find _ (objects d1)) as [x|]; [reflexivity|].
    destruct (find _ (number_from _ _)) as [x|] eqn:E; [|reflexivity].
    apply find_some in E. destruct E as [E1 E2]. apply Nat.eqb_eq in E2.
    apply number_from_In in E1. lia. }
  assert (Hnew2 : forall i, In i news -> objects_get i d2 <> None).
  { intros i Hi. unfold objects_get. rewrite Ho2, find_app_first.
    destruct (find _ (objects d1)) as [x|]; [discriminate|].
    destruct (find _ (number_from _ _)) as [x|] eqn:E; [discriminate|]. exfalso.
    assert (Hin : In i (map ob_id (number_from (next_id d1) (o :: os))))
      by (rewrite number_from_ids; exact Hi).
    apply in_map_iff in Hin. destruct Hin as (x & Hid & Hin).
    apply (find_none _ _ E) in Hin. rewrite Hid, Nat.eqb_refl in Hin. discriminate. }
  destruct (normalize_objects_dead_reference settings news d2 r Hnew2 Hu Hr)
    as (d3 & Hrun3 & Hpost3 & Hframe3 & Hl3).
  { now rewrite Hold2. }
  exists d3. split; [|split; [|split; [|split]]].
  - unfold process_single_obj, bind, on_data. cbn [bpy_data created_collections].
    rewrite Hres. cbn [bpy_data created_collections].
    rewrite Hrun2. unfold news at 1. cbn [seq]. cbn [bpy_data created_collections].
    change (next_id d1 :: seq (S (next_id d1)) (List.length os)) with news.
    rewrite Hrun3. reflexivity.
  - exact Hpost3.
  - intros j Hj.
    assert (Hjn : ~ In j news) by (intros H; apply in_seq in H; lia).
    split.
    + rewrite (Hframe3 j Hjn). now apply Hold2.
    + rewrite (same_links_users d2 d3 j Hl3). now apply add_imported_users.
  - destruct Hl3 as (_ & _ & Hn & _). now rewrite Hn, Hn2.
  - destruct Hl3 as (Hlc & Hul & _). unfold collection_names. rewrite Hlc, Hul, Hu2.
    f_equal. destruct (layer_collection d2), (layer_collection d1). cbn in *.
    injection Hfl2 as _ _ Hch. unfold forest_flags. now rewrite Hch.
Qed.

(** X22. When "Scale to Reference" is on and the reference object has
    been removed from [bpy.data] (its handle is dead), a file whose
    import yields objects fails with a [ReferenceError] - after the
    import: the imported objects stay in [bpy.data], centred and moved
    to the origin, but no pivot and no collection is created and nothing
    is appended to the list of created collections.  Objects that
    existed before are untouched. *)
Theorem dead_reference_leaves_imports :
  forall host filepath settings d created c d1 o os r,
  ids_fresh d ->
  resolve_col_name (path_stem filepath) settings d = (Ok c, d1) ->
  obj_import host filepath (Settings.up_axis settings) = Imports (o :: os) ->
  Settings.use_scale_ref settings = true ->
  Settings.ref_obj settings = Some r ->
  objects_get r d1 = None ->
  (r < next_id d1)%nat ->
  let news := seq (next_id d1) (S (List.length os)) in
  exists d',
    process_single_obj host filepath (Some settings) (mkPipelineState d created)
    = (Raise ReferenceError, mkPipelineState d' created) /\
    (forall i, In i news ->
       exists o', objects_get i d' = Some o' /\ location o' = Vector0) /\
    (forall j, (j < next_id d1)%nat ->
       objects_get j d' = objects_get j d1 /\
       users_collection j d' = users_collection j d1) /\
    next_id d' = (next_id d1 + S (List.length os))%nat /\
    collection_names d' = collection_names d1.
Proof. exact process_single_obj_dead_reference_effect. Qed.

Lemma dead_reference_leaves_imports_witness :
  exists d',
    process_single_obj host_abc file_B (Some settings_dead_reference)
      (mkPipelineState scene_after_removal [])
    = (Raise ReferenceError, mkPipelineState d' []) /\
    objects_get 1%nat d' <> None /\
    collection_names d' = [].
Proof.
  assert (Hf : ids_fresh scene_after_removal) by (intros o []).
  assert (Hres : resolve_col_name (path_stem file_B) settings_dead_reference
                   scene_after_removal
                 = (Ok "B", scene_after_removal)) by (vm_compute; reflexivity).
  destruct (dead_reference_leaves_imports host_abc file_B settings_dead_reference
              scene_after_removal [] "B" scene_after_removal (two_point_mesh "B") []
              0%nat Hf Hres eq_refl eq_refl eq_refl eq_refl)
    as (d' & Hrun & Hnew & _ & _ & Hnames).
  { cbn. lia. }
  exists d'. split; [exact Hrun|]. split; [|exact Hnames].
  destruct (Hnew 1%nat) as (o' & Ho & _); [cbn; now left|]. rewrite Ho. discriminate.
Defined.

Lemma unique_collection_name_state : forall base d r d',
  unique_collection_name base d = (r, d') -> d' = d.
Proof.
  intros base d r d'. unfold unique_collection_name.
  destruct (negb (in_collections base d)); [intros H; now injection H as _ <-|].
  destruct (probe base d 1 999); intros H; now injection H as _ <-.
Qed.

(** X23. With "replace existing" off, [process_single_obj] never
    removes or alters anything that was there before the file, whatever
    the outcome (success, empty import, importer error, exhausted names,
    dead reference object): every earlier object is unchanged and in the
    same collections, every earlier collection still exists, and every
    name in the list of created collections stays in it. *)
Theorem keep_mode_preserves_existing :
  forall host filepath settings d created r s',
  ids_fresh d ->
  Settings.replace_existing settings = false ->
  (forall ref, Settings.ref_obj settings = Some ref -> (ref < next_id d)%nat) ->
  process_single_obj host filepath (Some settings) (mkPipelineState d created)
  = (r, s') ->
  (forall j, (j < next_id d)%nat ->
     objects_get j (bpy_data s') = objects_get j d /\
     users_collection j (bpy_data s') = users_collection j d) /\
  (forall m, In m (collection_names d) -> In m (collection_names (bpy_data s'))) /\
  (forall m, In m created -> In m (created_collections s')).
Proof.
  intros host filepath settings d created r s' Hfresh Hrep Hrefs Hrun.
  assert (Hres : resolve_col_name (path_stem filepath) settings d
                 = unique_collection_name (path_stem filepath) d).
  { unfold resolve_col_name, bind, gets. now rewrite Hrep. }
  destruct (unique_collection_name (path_stem filepath) d) as [[c|msg] d1] eqn:Eu;
    pose proof (unique_collection_name_state _ _ _ _ Eu) as ->.
  2:{ unfold process_single_obj, bind, on_data in Hrun.
      cbn [bpy_data created_collections] in Hrun. rewrite Hres in Hrun.
      injection Hrun as _ <-. cbn. repeat split; auto. }
  destruct (obj_import host filepath (Settings.up_axis settings)) as [msg|[|o os]] eqn:Ei.
  - unfold process_single_obj, bind, on_data in Hrun.
    cbn [bpy_data created_collections] in Hrun. rewrite Hres in Hrun.
    cbn [bpy_data created_collections] in Hrun.
    unfold import_obj_file, wm_obj_import, bind, gets, raise in Hrun.
    rewrite Ei in Hrun. injection Hrun as _ <-. cbn. repeat split; auto.
  - unfold process_single_obj, bind, on_data in Hrun.
    cbn [bpy_data created_collections] in Hrun. rewrite Hres in Hrun.
    cbn [bpy_data created_collections] in Hrun.
    rewrite (import_obj_file_imports host filepath _ d [] Hfresh Ei) in Hrun.
    cbn in Hrun. injection Hrun as _ <-. cbn. repeat split; auto.
  - assert (Hcase :
      (Settings.use_scale_ref settings = true ->
       forall ref, Settings.ref_obj settings = Some ref -> objects_get ref d <> None) \/
      (exists ref, Settings.use_scale_ref settings = true /\
                   Settings.ref_obj settings = Some ref /\ objects_get ref d = None)).
    { destruct (Settings.use_scale_ref settings); [|left; discriminate].
      destruct (Settings.ref_obj settings) as [ref|]; [|left; discriminate].
      destruct (objects_get ref d) eqn:E.
      - left. intros _ ref' H. injection H as <-. congruence.
      - right. exists ref. auto. }
    destruct Hcase as [Hok|(ref & Hu & Hr & Hdead)].
    + destruct (process_single_obj_effect host filepath settings d created c d o os
                  Hfresh Hres Ei Hok)
        as (d' & Hrun' & _ & _ & _ & Hold & _ & _ & Hnames).
      rewrite Hrun' in Hrun. injection Hrun as _ <-. cbn [bpy_data created_collections].
      split; [exact Hold|]. split.
      * intros m Hm. apply Hnames. now left.
      * intros m Hm. apply in_or_app. now left.
    + destruct (process_single_obj_dead_reference_effect host filepath settings d created
                  c d o os ref Hfresh Hres Ei Hu Hr Hdead (Hrefs ref Hr))
        as (d' & Hrun' & _ & Hold & _ & Hnames).
      rewrite Hrun' in Hrun. injection Hrun as _ <-. cbn [bpy_data created_collections].
      split; [exact Hold|]. split; [|auto]. intros m Hm. now rewrite Hnames.
Qed.

Lemma keep_mode_preserves_existing_witness :
  objects_get 0%nat
    (bpy_data (snd (process_single_obj host_abc file_B (Some settings_keep)
                      (mkPipelineState scene_B ["A"]))))
  = objects_get 0%nat scene_B /\
  In "B" (collection_names
            (bpy_data (snd (process_single_obj host_abc file_B (Some settings_keep)
                              (mkPipelineState scene_B ["A"]))))).
Proof.
  assert (Hf : ids_fresh scene_B).
  { intros o [<-|[]]. cbn. lia. }
  destruct (keep_mode_preserves_existing host_abc file_B settings_keep scene_B ["A"]
              (fst (process_single_obj host_abc file_B (Some settings_keep)
                      (mkPipelineState scene_B ["A"])))
              (snd (process_single_obj host_abc file_B (Some settings_keep)
                      (mkPipelineState scene_B ["A"])))
              Hf eq_refl)
    as (Hold & Hnames & _).
  { discriminate. }
  { now destruct (process_single_obj _ _ _ _). }
  split.
  - apply Hold. cbn. lia.
  - apply Hnames. cbn. now left.
Defined.

(** ** Materials on [bpy.data]: [apply_diffuse_as_emissive] *)

Lemma diffuse_as_emissive_object_fields : forall o,
  set_material_slots (diffuse_as_emissive_object o) (material_slots o) = o.
Proof.
  intros o. unfold diffuse_as_emissive_object.
  destruct (ObType_eqb (ob_type o) MESH); now destruct o.
Qed.

(** X21. [apply_diffuse_as_emissive] on handles that are all alive
    returns normally; each listed object ends up rewired exactly once,
    however often it is listed; no object is added or removed and every
    object keeps everything but the contents of its material slots; all
    collections and their contents are untouched; and running it again
    changes no object. *)
Theorem apply_diffuse_as_emissive_spec : forall objs d,
  (forall i, In i objs -> objects_get i d <> None) ->
  exists d',
    apply_diffuse_as_emissive objs d = (Ok tt, d') /\
    (forall i o, In i objs -> objects_get i d = Some o ->
       objects_get i d' = Some (diffuse_as_emissive_object o)) /\
    (forall k o, objects_get k d = Some o ->
       exists o', objects_get k d' = Some o' /\
                  set_material_slots o' (material_slots o) = o) /\
    same_links d d' /\
    exists d'',
      apply_diffuse_as_emissive objs d' = (Ok tt, d'') /\
      forall k, objects_get k d'' = objects_get k d'.
Proof.
  intros objs d Hex. unfold apply_diffuse_as_emissive.
  assert (Hstep : forall d0,
    (forall i, In i objs -> objects_get i d0 <> None) ->
    exists d1,
      for_each objs (fun obj => with_object obj diffuse_as_emissive_object) d0
      = (Ok tt, d1) /\
      (forall i o, In i objs -> objects_get i d0 = Some o ->
         objects_get i d1 = Some (diffuse_as_emissive_object o)) /\
      (forall j, ~ In j objs -> objects_get j d1 = objects_get j d0) /\
      same_links d0 d1).
  { intros d0 Hex0.
    destruct (for_each_with_object_inv diffuse_as_emissive_object
                (fun o => objects_get (ob_id o) d0 = Some o \/
                          forall o0, objects_get (ob_id o) d0 = Some o0 ->
                                     o = diffuse_as_emissive_object o0)
                (fun o => forall o0, objects_get (ob_id o) d0 = Some o0 ->
                                     o = diffuse_as_emissive_object o0)
                objs d0)
      as (d1 & Hrun & Hpost & Hframe & Hl).
    - apply diffuse_as_emissive_object_id.
    - intros o [Ho|Ho] o0; rewrite diffuse_as_emissive_object_id; intros H0.
      + congruence.
      + rewrite (Ho o0 H0). apply diffuse_as_emissive_object_twice.
    - intros o Ho. now right.
    - intros i Hi. destruct (objects_get i d0) as [o|] eqn:E; [|now apply Hex0 in Hi].
      exists o. split; [reflexivity|]. left.
      now rewrite (objects_get_id _ _ _ E).
    - exists d1. split; [exact Hrun|]. split; [|split; [exact Hframe|exact Hl]].
      intros i o Hi Ho. destruct (Hpost i Hi) as (o' & Ho' & HQ).
      rewrite Ho'. f_equal. apply HQ. now rewrite (objects_get_id _ _ _ Ho'). }
  destruct (Hstep d Hex) as (d' & Hrun & Hpost & Hframe & Hl).
  exists d'. split; [exact Hrun|]. split; [exact Hpost|]. split.
  { intros k o Hk. destruct (in_dec Nat.eq_dec k objs) as [Hin|Hout].
    - exists (diffuse_as_emissive_object o). split; [now apply Hpost|].
      apply diffuse_as_emissive_object_fields.
    - exists o. split; [now rewrite (Hframe k Hout)|now destruct o]. }
  split; [exact Hl|].
  assert (Hex' : forall i, In i objs -> objects_get i d' <> None).
  { intros i Hi. destruct (objects_get i d) as [o|] eqn:E; [|now apply Hex in Hi].
    rewrite (Hpost i o Hi E). discriminate. }
  destruct (Hstep d' Hex') as (d'' & Hrun' & Hpost' & Hframe' & _).
  exists d''. split; [exact Hrun'|]. intros k.
  destruct (in_dec Nat.eq_dec k objs) as [Hin|Hout]; [|now apply Hframe'].
  destruct (objects_get k d) as [o|] eqn:E; [|now apply Hex in Hin].
  rewrite (Hpost' k _ Hin (Hpost k o Hin E)), (Hpost k o Hin E).
  now rewrite diffuse_as_emissive_object_twice.
Qed.

Lemma apply_diffuse_as_emissive_spec_witness :
  exists d',
    apply_diffuse_as_emissive [0%nat; 0%nat] scene_textured = (Ok tt, d') /\
    objects_get 0%nat d' = Some (diffuse_as_emissive_object textured_mesh).
Proof.
  destruct (apply_diffuse_as_emissive_spec [0%nat; 0%nat] scene_textured)
    as (d' & Hrun & Hpost & _).
  { intros i [<-|[<-|[]]]; discriminate. }
  exists d'. split; [exact Hrun|]. apply Hpost; [now left|reflexivity].
Defined.






